(** * MoodMelodies translation service: the request pipeline, verified

    A shallow embedding of [translation-service/src]:

    - [utils/text_preprocessing.py]  ([preprocess_text], [postprocess_text],
      [chunk_text]),
    - [cache/translation_cache.py]   ([TranslationCache]),
    - [models/marian_translator.py]  ([MarianTranslator]),
    - [app.py]                       (the [/api/v1/translate] handler).

    A Python [str] is a sequence of Unicode code points, so it is modelled
    as [list N]; [len] is the length of that list.  Python [int]s are [Z].
    The Redis server, the HuggingFace engine and the clock are outside the
    repository: the handler receives what they do during one request in an
    environment record, and everything the handler itself decides is
    computed from the source. *)

From Stdlib Require Import ZArith NArith List Lia Bool Ascii String.
From stdpp Require Import gmap list.

Import ListNotations.
Local Open Scope list_scope.

(** A Python [str]: a list of code points. *)
Abbreviation str := (list N).

(* ===================================================================== *)
(** * Python's built-in string operations *)
(* ===================================================================== *)

Module Py.

(** An ASCII literal as a [str]. *)
Definition lit (s : string) : str :=
  List.map N_of_ascii (list_ascii_of_string s).

(** [len(s)] *)
Definition len (s : str) : Z := Z.of_nat (length s).

(** Truthiness of a [str]: the empty string is falsy. *)
Definition truthy (s : str) : bool :=
  match s with [] => false | _ :: _ => true end.

(** [str.isspace] on one character, which is also the class [\s] of [re]
    on [str] patterns and the separator set of [str.split()] and
    [str.strip()]: U+0009..U+000D, U+001C..U+0020, U+0085, U+00A0, U+1680,
    U+2000..U+200A, U+2028, U+2029, U+202F, U+205F, U+3000. *)
Definition isspace (c : N) : bool :=
  ((9 <=? c) && (c <=? 13) || (28 <=? c) && (c <=? 32) ||
   (c =? 133) || (c =? 160) || (c =? 5760) ||
   (8192 <=? c) && (c <=? 8202) ||
   (c =? 8232) || (c =? 8233) || (c =? 8239) || (c =? 8287) ||
   (c =? 12288))%N.

(** The longest prefix whose characters satisfy [p], and what follows. *)
Fixpoint span (p : N -> bool) (s : str) : str * str :=
  match s with
  | [] => ([], [])
  | c :: r =>
      if p c then let '(a, b) := span p r in (c :: a, b) else ([], s)
  end.

(** [s.split()]: the maximal runs of non-whitespace characters.  [cur] is
    the word being read. *)
Fixpoint split_from (cur : str) (s : str) : list str :=
  match s with
  | [] => match cur with [] => [] | _ :: _ => [cur] end
  | c :: r =>
      if isspace c
      then match cur with
           | [] => split_from [] r
           | _ :: _ => cur :: split_from [] r
           end
      else split_from (cur ++ [c]) r
  end.

Definition split (s : str) : list str := split_from [] s.

(** [sep.join(parts)] *)
Fixpoint join (sep : str) (parts : list str) : str :=
  match parts with
  | [] => []
  | p :: ps =>
      match ps with
      | [] => p
      | _ :: _ => p ++ sep ++ join sep ps
      end
  end.

(** [s.lstrip()], [s.rstrip()], [s.strip()] *)
Definition lstrip (s : str) : str := snd (span isspace s).
Definition rstrip (s : str) : str := rev (lstrip (rev s)).
Definition strip (s : str) : str := rstrip (lstrip s).

End Py.

(* ===================================================================== *)
(** * The regular expressions of [text_preprocessing.py] *)
(* ===================================================================== *)

Module Re.

(** The character classes the patterns use. *)

(** [[!?.]] *)
Definition is_terminal (c : N) : bool :=
  ((c =? 33) || (c =? 63) || (c =? 46))%N.

(** [[,.!?;:]] *)
Definition is_punct (c : N) : bool :=
  ((c =? 44) || (c =? 46) || (c =? 33) || (c =? 63) || (c =? 59) ||
   (c =? 58))%N.

(** [[A-Za-z]] *)
Definition is_alpha (c : N) : bool :=
  ((65 <=? c) && (c <=? 90) || (97 <=? c) && (c <=? 122))%N.

(** A pattern tried at the start of the input: [Some (groups, rest)] when
    it matches there, with the text of its capture groups and the input
    left after the match.  None of the four patterns matches the empty
    string. *)
Definition matcher := str -> option (list str * str).

(** [([!?.]){2,}]: the repetition is greedy and nothing follows it, so the
    match is the whole run of terminal characters when that run has at
    least two; group 1 is the last repetition, the run's last character. *)
Definition repeated_terminal : matcher := fun s =>
  let '(run, rest) := Py.span is_terminal s in
  if (2 <=? length run)%nat then Some ([[List.last run 0%N]], rest) else None.

(** [\s+([,.!?;:])]: the whole whitespace run, then one punctuation
    character (backtracking into the run cannot help: no whitespace
    character is in the class). *)
Definition space_before_punct : matcher := fun s =>
  let '(ws, rest) := Py.span Py.isspace s in
  match ws, rest with
  | _ :: _, p :: rest' =>
      if is_punct p then Some ([[p]], rest') else None
  | _, _ => None
  end.

(** [([,.!?;:])([A-Za-z])] *)
Definition punct_then_letter : matcher := fun s =>
  match s with
  | p :: l :: rest =>
      if is_punct p && is_alpha l then Some ([[p]; [l]], rest) else None
  | _ => None
  end.

(** [([.!?]+\s+)]: the whole run of terminal characters, then the whole
    whitespace run, both non-empty (giving back terminal characters cannot
    help: [\s] would then face a terminal character). *)
Definition sentence_end : matcher := fun s =>
  let '(run, rest) := Py.span is_terminal s in
  let '(ws, rest') := Py.span Py.isspace rest in
  match run, ws with
  | _ :: _, _ :: _ => Some ([run ++ ws], rest')
  | _, _ => None
  end.

(** [re.sub(pattern, repl, s)]: scan from the left; where the pattern
    matches, emit the replacement and go on after the match; elsewhere
    copy one character.  Every step consumes input, so [length s] steps
    are enough. *)
Fixpoint sub_fuel (m : matcher) (repl : list str -> str)
    (fuel : nat) (s : str) : str :=
  match fuel with
  | O => s
  | S fuel' =>
      match s with
      | [] => []
      | c :: r =>
          match m s with
          | Some (groups, rest) => repl groups ++ sub_fuel m repl fuel' rest
          | None => c :: sub_fuel m repl fuel' r
          end
      end
  end.

Definition sub (m : matcher) (repl : list str -> str) (s : str) : str :=
  sub_fuel m repl (length s) s.

(** [re.split(pattern, s)] for a pattern with capture groups: the text
    between the matches, with the groups of each match in between. *)
Fixpoint split_fuel (m : matcher) (fuel : nat) (cur s : str) : list str :=
  match fuel with
  | O => [cur ++ s]
  | S fuel' =>
      match s with
      | [] => [cur]
      | c :: r =>
          match m s with
          | Some (groups, rest) => cur :: groups ++ split_fuel m fuel' [] rest
          | None => split_fuel m fuel' (cur ++ [c]) r
          end
      end
  end.

Definition split (m : matcher) (s : str) : list str :=
  split_fuel m (length s) [] s.

(** The replacement templates [\1] and [\1 \2]. *)
Definition group (i : nat) (groups : list str) : str :=
  nth i groups [].

End Re.

(* ===================================================================== *)
(** * utils/text_preprocessing.py *)
(* ===================================================================== *)

Section TextPreprocessing.

(** [str.upper()] on one character: Python's Unicode upper-case mapping
    (one character may map to several).  The table belongs to the
    interpreter, not to the repository. *)
Variable upper : N -> str.

Definition preprocess_text (text : str) : str :=
  if negb (Py.truthy text) then text
  else
    (* Normalize whitespace *)
    let text := Py.join [32%N] (Py.split text) in
    (* Remove multiple punctuation marks *)
    let text := Re.sub Re.repeated_terminal (Re.group 0) text in
    (* Strip leading/trailing whitespace *)
    Py.strip text.

Definition postprocess_text (text : str) : str :=
  if negb (Py.truthy text) then text
  else
    (* Remove spaces before punctuation *)
    let text := Re.sub Re.space_before_punct (Re.group 0) text in
    (* Add space after punctuation if missing *)
    let text :=
      Re.sub Re.punct_then_letter
        (fun g => Re.group 0 g ++ [32%N] ++ Re.group 1 g) text in
    (* Capitalize first letter *)
    let text :=
      match text with
      | [] => text
      | c :: r => upper c ++ r
      end in
    Py.strip text.

(** The loop of [chunk_text] over [sentences[i], sentences[i + 1]] for
    [i = 0, 2, 4, ...], threading [chunks] and [current_chunk]. *)
Fixpoint chunk_loop (max_length : Z) (sentences : list str)
    (chunks : list str) (current_chunk : str) : list str * str :=
  match sentences with
  | [] => (chunks, current_chunk)
  | sentence :: after =>
      let punctuation := match after with p :: _ => p | [] => [] end in
      let full_sentence := sentence ++ punctuation in
      let '(chunks', current') :=
        if (Py.len current_chunk + Py.len full_sentence <=? max_length)%Z
        then (chunks, current_chunk ++ full_sentence)
        else
          (if Py.truthy current_chunk
           then chunks ++ [Py.strip current_chunk]
           else chunks,
           full_sentence) in
      match after with
      | [] => (chunks', current')
      | _ :: rest => chunk_loop max_length rest chunks' current'
      end
  end.

Definition chunk_text (text : str) (max_length : Z) : list str :=
  if (Py.len text <=? max_length)%Z then [text]
  else
    let sentences := Re.split Re.sentence_end text in
    let '(chunks, current_chunk) := chunk_loop max_length sentences [] [] in
    if Py.truthy current_chunk
    then chunks ++ [Py.strip current_chunk]
    else chunks.

End TextPreprocessing.

(* ===================================================================== *)
(** * [str.encode('utf-8')] and [hashlib.md5] *)
(* ===================================================================== *)

(** The exceptions that can be raised while a request is served. *)
Inductive exn : Type :=
| UnicodeEncodeError                    (* a surrogate cannot be encoded *)
| RedisError (msg : str)                (* connection, timeout, response *)
| ValueError (source_lang target_lang : str)  (* unsupported language pair *)
| KeyError (pair : str * str)           (* a dictionary has no such key *)
| EngineError (msg : str).              (* raised by transformers / torch *)

Inductive result (A : Type) : Type :=
| Ok (a : A)
| Raise (e : exn).
Arguments Ok {A} a.
Arguments Raise {A} e.

Module Codec.

Local Open Scope N_scope.

(** The UTF-8 bytes of one code point; the surrogates U+D800..U+DFFF have
    none (and nothing from U+110000 on is a character). *)
Definition utf8_char (c : N) : option (list N) :=
  if c <? 0x80 then Some [c]
  else if c <? 0x800 then
    Some [N.lor 0xC0 (N.shiftr c 6); N.lor 0x80 (N.land c 0x3F)]
  else if c <? 0x10000 then
    if (0xD800 <=? c) && (c <=? 0xDFFF) then None
    else Some [N.lor 0xE0 (N.shiftr c 12);
               N.lor 0x80 (N.land (N.shiftr c 6) 0x3F);
               N.lor 0x80 (N.land c 0x3F)]
  else if c <? 0x110000 then
    Some [N.lor 0xF0 (N.shiftr c 18);
          N.lor 0x80 (N.land (N.shiftr c 12) 0x3F);
          N.lor 0x80 (N.land (N.shiftr c 6) 0x3F);
          N.lor 0x80 (N.land c 0x3F)]
  else None.

(** [s.encode('utf-8')]: raises [UnicodeEncodeError] on a surrogate. *)
Fixpoint encode_utf8 (s : str) : option (list N) :=
  match s with
  | [] => Some []
  | c :: r =>
      match utf8_char c, encode_utf8 r with
      | Some b, Some bs => Some (b ++ bs)
      | _, _ => None
      end
  end.

End Codec.

Module Md5.

Local Open Scope N_scope.

(** 32-bit words as [N], reduced after every operation. *)
Definition w32 (x : N) : N := x mod 0x100000000.
Definition add32 (x y : N) : N := w32 (x + y).
Definition not32 (x : N) : N := N.lxor (w32 x) 0xFFFFFFFF.
Definition rotl32 (x : N) (n : N) : N :=
  N.lor (w32 (N.shiftl x n)) (N.shiftr (w32 x) (32 - n)).

(** The sine table: [K i = floor (2^32 * |sin (i + 1)|)]. *)
Definition K : list N :=
  [0xd76aa478; 0xe8c7b756; 0x242070db; 0xc1bdceee;
   0xf57c0faf; 0x4787c62a; 0xa8304613; 0xfd469501;
   0x698098d8; 0x8b44f7af; 0xffff5bb1; 0x895cd7be;
   0x6b901122; 0xfd987193; 0xa679438e; 0x49b40821;
   0xf61e2562; 0xc040b340; 0x265e5a51; 0xe9b6c7aa;
   0xd62f105d; 0x02441453; 0xd8a1e681; 0xe7d3fbc8;
   0x21e1cde6; 0xc33707d6; 0xf4d50d87; 0x455a14ed;
   0xa9e3e905; 0xfcefa3f8; 0x676f02d9; 0x8d2a4c8a;
   0xfffa3942; 0x8771f681; 0x6d9d6122; 0xfde5380c;
   0xa4beea44; 0x4bdecfa9; 0xf6bb4b60; 0xbebfbc70;
   0x289b7ec6; 0xeaa127fa; 0xd4ef3085; 0x04881d05;
   0xd9d4d039; 0xe6db99e5; 0x1fa27cf8; 0xc4ac5665;
   0xf4292244; 0x432aff97; 0xab9423a7; 0xfc93a039;
   0x655b59c3; 0x8f0ccc92; 0xffeff47d; 0x85845dd1;
   0x6fa87e4f; 0xfe2ce6e0; 0xa3014314; 0x4e0811a1;
   0xf7537e82; 0xbd3af235; 0x2ad7d2bb; 0xeb86d391].

(** The per-round rotation amounts. *)
Definition shifts : list N :=
  [7; 12; 17; 22; 7; 12; 17; 22; 7; 12; 17; 22; 7; 12; 17; 22;
   5; 9; 14; 20; 5; 9; 14; 20; 5; 9; 14; 20; 5; 9; 14; 20;
   4; 11; 16; 23; 4; 11; 16; 23; 4; 11; 16; 23; 4; 11; 16; 23;
   6; 10; 15; 21; 6; 10; 15; 21; 6; 10; 15; 21; 6; 10; 15; 21].

(** Little-endian bytes of a number, and back. *)
Fixpoint le_bytes (n : nat) (x : N) : list N :=
  match n with
  | O => []
  | S n' => (x mod 256) :: le_bytes n' (x / 256)
  end.

Fixpoint of_le_bytes (bs : list N) : N :=
  match bs with
  | [] => 0
  | b :: r => b + 256 * of_le_bytes r
  end.

(** The message, a 1 bit, zeros up to 56 modulo 64, and the bit length in
    eight bytes. *)
Definition pad (msg : list N) : list N :=
  let n := N.of_nat (length msg) in
  let zeros := N.to_nat ((55 + 64 - n mod 64) mod 64) in
  msg ++ [0x80] ++ repeat 0 zeros ++ le_bytes 8 ((8 * n) mod 2 ^ 64).

(** [n] consecutive groups of [size] elements. *)
Fixpoint groups {A : Type} (size n : nat) (l : list A) : list (list A) :=
  match n with
  | O => []
  | S n' => firstn size l :: groups size n' (skipn size l)
  end.

Definition words (block : list N) : list N :=
  List.map of_le_bytes (groups 4 16 block).

Definition state := (N * N * N * N)%type.

(** One of the 64 operations on the working state. *)
Definition round (M : list N) (i : nat) (st : state) : state :=
  let '(a, b, c, d) := st in
  let '(f, g) :=
    if (i <? 16)%nat then
      (N.lor (N.land b c) (N.land (not32 b) d), i)
    else if (i <? 32)%nat then
      (N.lor (N.land d b) (N.land (not32 d) c), ((5 * i + 1) mod 16)%nat)
    else if (i <? 48)%nat then
      (N.lxor (N.lxor b c) d, ((3 * i + 5) mod 16)%nat)
    else
      (N.lxor c (N.lor b (not32 d)), ((7 * i) mod 16)%nat) in
  let f' := add32 (add32 (add32 f a) (nth i K 0)) (nth g M 0) in
  (d, add32 b (rotl32 f' (nth i shifts 0)), b, c).

Definition compress (st : state) (block : list N) : state :=
  let M := words block in
  let '(a, b, c, d) := fold_left (fun s i => round M i s) (seq 0 64) st in
  let '(a0, b0, c0, d0) := st in
  (add32 a0 a, add32 b0 b, add32 c0 c, add32 d0 d).

Definition init : state := (0x67452301, 0xefcdab89, 0x98badcfe, 0x10325476).

(** [hashlib.md5(data).digest()] *)
Definition digest (msg : list N) : list N :=
  let p := pad msg in
  let '(a, b, c, d) :=
    fold_left compress (groups 64 (length p / 64) p) init in
  le_bytes 4 a ++ le_bytes 4 b ++ le_bytes 4 c ++ le_bytes 4 d.

(** One hexadecimal digit, lower case. *)
Definition hex_digit (x : N) : N :=
  if x <? 10 then 48 + x else 87 + x.

Definition hex_byte (b : N) : str :=
  [hex_digit (b / 16 mod 16); hex_digit (b mod 16)].

(** [hashlib.md5(data).hexdigest()] *)
Definition hexdigest (msg : list N) : str :=
  List.concat (List.map hex_byte (digest msg)).

End Md5.

(* ===================================================================== *)
(** * The process: its two singletons, its counters, and what is outside *)
(* ===================================================================== *)

(** What the outside does while one request is served.  The handler reads
    the clock and the process environment, talks to the Redis server and
    asks HuggingFace for models and translations; none of these is code of
    the repository, so a request is run against a [World] that fixes their
    answers.  Two requests may be run against different worlds. *)
Record World : Type := {
  (** the Redis server's clock, in seconds *)
  now : Z;
  (** [Some msg]: a GET raises (connection lost, timeout) *)
  redis_get_fails : option str;
  (** [Some msg]: a SETEX raises *)
  redis_setex_fails : option str;
  (** [os.getenv('MAX_LENGTH')], when set, as the integer [int] reads *)
  MAX_LENGTH : option Z;
  (** [MarianTokenizer.from_pretrained] and [MarianMTModel.from_pretrained]
      with [.to(device)]: [Some msg] when one of them raises *)
  from_pretrained : str -> option str;
  (** tokenize, [model.generate], decode, for a loaded model *)
  generate : str -> str -> result str
}.

(** [MarianTranslator]: the two dictionaries keyed by language pair.  A
    loaded model or tokenizer is represented by the name it was loaded
    from. *)
Record MarianTranslator : Type := {
  models : gmap (str * str) str;
  tokenizers : gmap (str * str) str
}.

(** [TranslationCache]: [redis_client] is [None] when the connection failed
    at construction; otherwise it reaches the server's keys, each with its
    value and the time it expires. *)
Record TranslationCache : Type := {
  redis_client : option (gmap str (str * Z));
  ttl : Z
}.

(** The Prometheus counters of [app.py]. *)
Record Counters : Type := {
  translation_counter : N;
  cache_hit_counter : N;
  cache_miss_counter : N
}.

(** What a request does to the cache and to the engine, in order. *)
Inductive event : Type :=
| CacheGet (text source_lang target_lang : str)
| CacheSet (text source_lang target_lang translation : str)
| EngineLoad (model_name : str)
| EngineTranslate (text source_lang target_lang : str).

(** The module-level state of [app.py], and the record of accesses. *)
Record Process : Type := {
  translator : MarianTranslator;
  cache : TranslationCache;
  counters : Counters;
  trace : list event
}.

(** Python statements: they change the process and return or raise; what
    was changed before an exception stays changed. *)
Definition M (A : Type) : Type := Process -> result A * Process.

Definition ret {A : Type} (a : A) : M A := fun p => (Ok a, p).

Definition raise {A : Type} (e : exn) : M A := fun p => (Raise e, p).

Definition bind {A B : Type} (m : M A) (k : A -> M B) : M B := fun p =>
  match m p with
  | (Ok a, p') => k a p'
  | (Raise e, p') => (Raise e, p')
  end.

(** [try: m  except Exception as e: handler e] *)
Definition try_except {A : Type} (m : M A) (handler : exn -> M A) : M A :=
  fun p =>
    match m p with
    | (Ok a, p') => (Ok a, p')
    | (Raise e, p') => handler e p'
    end.

Definition lift {A : Type} (r : result A) : M A := fun p => (r, p).

Definition gets {A : Type} (f : Process -> A) : M A := fun p => (Ok (f p), p).

Definition modify (f : Process -> Process) : M unit := fun p => (Ok tt, f p).

Notation "x <- m ;; k" := (bind m (fun x => k))
  (at level 100, m at level 60, k at level 200, right associativity).
Notation "m ;;; k" := (bind m (fun _ => k))
  (at level 100, k at level 200, right associativity).

Definition emit (e : event) : M unit :=
  modify (fun p =>
    {| translator := translator p; cache := cache p;
       counters := counters p; trace := trace p ++ [e] |}).

Definition put_translator (t : MarianTranslator) : M unit :=
  modify (fun p =>
    {| translator := t; cache := cache p;
       counters := counters p; trace := trace p |}).

Definition put_cache (c : TranslationCache) : M unit :=
  modify (fun p =>
    {| translator := translator p; cache := c;
       counters := counters p; trace := trace p |}).

Definition update_counters (f : Counters -> Counters) : M unit :=
  modify (fun p =>
    {| translator := translator p; cache := cache p;
       counters := f (counters p); trace := trace p |}).

(* ===================================================================== *)
(** * The Redis commands the cache uses *)
(* ===================================================================== *)

Module Redis.

Section Commands.

Variable w : World.

(** redis-py encodes keys and values as UTF-8 before sending them. *)
Definition encodable (s : str) : bool :=
  match Codec.encode_utf8 s with Some _ => true | None => false end.

(** [GET key]: the value, unless the key is absent or has expired. *)
Definition get (keys : gmap str (str * Z)) (key : str)
    : result (option str) :=
  match redis_get_fails w with
  | Some msg => Raise (RedisError msg)
  | None =>
      if encodable key then
        match keys !! key with
        | Some (value, expires) =>
            if (now w <? expires)%Z then Ok (Some value) else Ok None
        | None => Ok None
        end
      else Raise UnicodeEncodeError
  end.

(** [SETEX key seconds value]: the server refuses a non-positive expiry. *)
Definition setex (keys : gmap str (str * Z)) (key : str) (seconds : Z)
    (value : str) : result (gmap str (str * Z)) :=
  match redis_setex_fails w with
  | Some msg => Raise (RedisError msg)
  | None =>
      if encodable key && encodable value then
        if (seconds <=? 0)%Z
        then Raise (RedisError (Py.lit "invalid expire time"))
        else Ok (<[key := (value, (now w + seconds)%Z)]> keys)
      else Raise UnicodeEncodeError
  end.

End Commands.

End Redis.

(* ===================================================================== *)
(** * cache/translation_cache.py *)
(* ===================================================================== *)

Module TranslationCache.

(** [_connect]: [redis.Redis(...)] and [ping()]; on any exception the
    client is dropped and the service runs without cache. *)
Definition _connect (server : result (gmap str (str * Z)))
    (self : TranslationCache) : TranslationCache :=
  match server with
  | Ok keys => {| redis_client := Some keys; ttl := ttl self |}
  | Raise _ => {| redis_client := None; ttl := ttl self |}
  end.

(** [__init__]: [CACHE_TTL] defaults to 24 hours. *)
Definition __init__ (CACHE_TTL : option Z)
    (server : result (gmap str (str * Z))) : TranslationCache :=
  _connect server
    {| redis_client := None;
       ttl := match CACHE_TTL with Some n => n | None => 86400%Z end |}.

Definition _generate_key (text source_lang target_lang : str) : result str :=
  match Codec.encode_utf8 text with
  | None => Raise UnicodeEncodeError
  | Some bytes =>
      let text_hash := firstn 16 (Md5.hexdigest bytes) in
      Ok (Py.lit "trans:" ++ source_lang ++ Py.lit ":" ++ target_lang ++
          Py.lit ":" ++ text_hash)
  end.

Section Methods.

Variable w : World.

Definition get (text source_lang target_lang : str) : M (option str) :=
  emit (CacheGet text source_lang target_lang) ;;;
  self <- gets cache ;;
  match redis_client self with
  | None => ret None
  | Some keys =>
      try_except
        (key <- lift (_generate_key text source_lang target_lang) ;;
         cached_value <- lift (Redis.get w keys key) ;;
         match cached_value with
         | Some value => if Py.truthy value then ret (Some value) else ret None
         | None => ret None
         end)
        (fun _ => ret None)
  end.

Definition set (text source_lang target_lang translation : str) : M bool :=
  emit (CacheSet text source_lang target_lang translation) ;;;
  self <- gets cache ;;
  match redis_client self with
  | None => ret false
  | Some keys =>
      try_except
        (key <- lift (_generate_key text source_lang target_lang) ;;
         keys' <- lift (Redis.setex w keys key (ttl self) translation) ;;
         put_cache {| redis_client := Some keys'; ttl := ttl self |} ;;;
         ret true)
        (fun _ => ret false)
  end.

End Methods.

End TranslationCache.

(* ===================================================================== *)
(** * models/marian_translator.py *)
(* ===================================================================== *)

Module MarianTranslator.

Definition en : str := Py.lit "en".
Definition hi : str := Py.lit "hi".

(** The Helsinki-NLP model naming table of [_get_model_name]. *)
Definition model_map : list (str * str * str) :=
  [ (en, hi, Py.lit "Helsinki-NLP/opus-mt-en-hi");
    (hi, en, Py.lit "Helsinki-NLP/opus-mt-hi-en") ].

Fixpoint dict_get (d : list (str * str * str)) (pair : str * str)
    : option str :=
  match d with
  | [] => None
  | (s, t, name) :: d' =>
      if decide ((s, t) = pair) then Some name else dict_get d' pair
  end.

Definition _get_model_name (source_lang target_lang : str) : option str :=
  dict_get model_map (source_lang, target_lang).

Section Methods.

Variable w : World.

Definition _load_model (source_lang target_lang : str) : M unit :=
  let pair := (source_lang, target_lang) in
  self <- gets translator ;;
  match models self !! pair with
  | Some _ => ret tt  (* Already loaded *)
  | None =>
      match _get_model_name source_lang target_lang with
      | None => raise (ValueError source_lang target_lang)
      | Some model_name =>
          if negb (Py.truthy model_name)
          then raise (ValueError source_lang target_lang)
          else
            emit (EngineLoad model_name) ;;;
            match from_pretrained w model_name with
            | Some msg => raise (EngineError msg)
            | None =>
                put_translator
                  {| models := <[pair := model_name]> (models self);
                     tokenizers := <[pair := model_name]> (tokenizers self) |}
            end
      end
  end.

(** [_preload_models]: a failure is logged and the next pair is tried. *)
Definition _preload_models : M unit :=
  fold_right
    (fun '(source, target) rest =>
       try_except (_load_model source target) (fun _ => ret tt) ;;; rest)
    (ret tt)
    [(en, hi); (hi, en)].

Definition translate (text source_lang target_lang : str) : M str :=
  let pair := (source_lang, target_lang) in
  emit (EngineTranslate text source_lang target_lang) ;;;
  self <- gets translator ;;
  (* Load model if not already loaded *)
  match models self !! pair with
  | None => _load_model source_lang target_lang
  | Some _ => ret tt
  end ;;;
  self <- gets translator ;;
  tokenizer <- match tokenizers self !! pair with
               | Some t => ret t
               | None => raise (KeyError pair)
               end ;;
  model <- match models self !! pair with
           | Some m => ret m
           | None => raise (KeyError pair)
           end ;;
  lift (generate w model text).

Definition get_model_name (source_lang target_lang : str) : option str :=
  _get_model_name source_lang target_lang.

End Methods.

End MarianTranslator.

(* ===================================================================== *)
(** * app.py: the [/api/v1/translate] handler *)
(* ===================================================================== *)

(** Supported language pairs *)
Definition SUPPORTED_PAIRS : list (str * str) :=
  [ (Py.lit "en", Py.lit "hi"); (Py.lit "hi", Py.lit "en") ].

(** The JSON object of a request: each of the three fields is a string or
    is missing ([data.get] then gives [None]). *)
Record Request : Type := {
  text : option str;
  source_lang : option str;
  target_lang : option str
}.

(** The JSON bodies the handler answers with.  The latency field is left
    out: it is a wall-clock measurement. *)
Inductive body : Type :=
| InvalidJSON
    (* {'error': 'Invalid JSON'} *)
| MissingFields
    (* {'error': 'Missing required fields: text, source_lang, target_lang'} *)
| TextTooLong (max_length : Z)
    (* {'error': 'Text too long. Max length: ...'} *)
| UnsupportedPair (source_lang target_lang : str)
    (supported_pairs : list (str * str))
    (* {'error': 'Unsupported language pair: ...', 'supported_pairs': ...} *)
| Translation (translated_text source_lang target_lang : str)
    (model : option (option str)) (cached : bool)
    (* the translation; 'model' is present on a fresh translation only *)
| TranslationFailed (details : exn).
    (* {'error': 'Translation failed', 'details': str(e)} *)

(** A body and its HTTP status. *)
Definition response : Type := body * Z.

(** Truthiness of [data.get(field)]: [None] and [''] are falsy. *)
Definition present (field : option str) : bool :=
  match field with
  | Some s => Py.truthy s
  | None => false
  end.

Definition inc_translation (c : Counters) : Counters :=
  {| translation_counter := N.succ (translation_counter c);
     cache_hit_counter := cache_hit_counter c;
     cache_miss_counter := cache_miss_counter c |}.

Definition inc_cache_hit (c : Counters) : Counters :=
  {| translation_counter := translation_counter c;
     cache_hit_counter := N.succ (cache_hit_counter c);
     cache_miss_counter := cache_miss_counter c |}.

Definition inc_cache_miss (c : Counters) : Counters :=
  {| translation_counter := translation_counter c;
     cache_hit_counter := cache_hit_counter c;
     cache_miss_counter := N.succ (cache_miss_counter c) |}.

Section App.

Variable upper : N -> str.
Variable w : World.

(** [int(os.getenv('MAX_LENGTH', '512'))] *)
Definition max_length : Z :=
  match MAX_LENGTH w with Some n => n | None => 512%Z end.

(** [data] is what [request.get_json()] returned: [None] stands for a
    falsy value (no body, [null], an empty object). *)
Definition translate (data : option Request) : M response :=
  try_except
    (* Validate request *)
    match data with
    | None => ret (InvalidJSON, 400%Z)
    | Some data =>
        match text data, source_lang data, target_lang data with
        | Some text, Some source_lang, Some target_lang =>
            if negb (Py.truthy text) || negb (Py.truthy source_lang)
               || negb (Py.truthy target_lang)
            then ret (MissingFields, 400%Z)
            else if (max_length <? Py.len text)%Z
            then ret (TextTooLong max_length, 400%Z)
            (* Validate language pair *)
            else if negb (bool_decide
                            ((source_lang, target_lang) ∈ SUPPORTED_PAIRS))
            then ret (UnsupportedPair source_lang target_lang
                        SUPPORTED_PAIRS, 400%Z)
            else
              (* Check cache *)
              cached_translation <-
                TranslationCache.get w text source_lang target_lang ;;
              match cached_translation with
              | Some cached =>
                  update_counters inc_cache_hit ;;;
                  update_counters inc_translation ;;;
                  ret (Translation cached source_lang target_lang
                         None true, 200%Z)
              | None =>
                  (* Cache miss - perform translation *)
                  update_counters inc_cache_miss ;;;
                  (* Preprocess text *)
                  let preprocessed_text := preprocess_text text in
                  (* Translate *)
                  translated_text <-
                    MarianTranslator.translate w preprocessed_text
                      source_lang target_lang ;;
                  (* Postprocess text *)
                  let final_text := postprocess_text upper translated_text in
                  (* Store in cache *)
                  TranslationCache.set w text source_lang target_lang
                    final_text ;;;
                  update_counters inc_translation ;;;
                  ret (Translation final_text source_lang target_lang
                         (Some (MarianTranslator.get_model_name
                                  source_lang target_lang))
                         false, 200%Z)
              end
        | _, _, _ => ret (MissingFields, 400%Z)
        end
    end
    (fun e => ret (TranslationFailed e, 500%Z)).

End App.

(* ===================================================================== *)
(** * The vocabulary of the statements *)
(* ===================================================================== *)

(** The events that reach the engine. *)
Definition engine_event (e : event) : bool :=
  match e with
  | EngineLoad _ | EngineTranslate _ _ _ => true
  | CacheGet _ _ _ | CacheSet _ _ _ _ => false
  end.

(** The engine accesses of a trace. *)
Definition engine_events (tr : list event) : list event :=
  List.filter engine_event tr.

Definition is_load (e : event) : bool :=
  match e with EngineLoad _ => true | _ => false end.

Definition load_count (tr : list event) : nat :=
  length (List.filter is_load tr).

(** The request passed the three validation checks of the handler. *)
Definition validated (w : World) (r : Request) (t s d : str) : Prop :=
  text r = Some t /\ source_lang r = Some s /\ target_lang r = Some d /\
  t <> [] /\ (Py.len t <= max_length w)%Z /\ (s, d) ∈ SUPPORTED_PAIRS.

(** The cache holds [value] for the request, expiring at [expires]. *)
Definition cached_as (p : Process) (t s d : str) (value : str)
    (expires : Z) : Prop :=
  exists keys key,
    redis_client (cache p) = Some keys /\
    TranslationCache._generate_key t s d = Ok key /\
    keys !! key = Some (value, expires).

(** The backend cannot be reached during this request: there is no client,
    or both commands raise. *)
Definition cache_unreachable (w : World) (p : Process) : Prop :=
  redis_client (cache p) = None \/
  (redis_get_fails w <> None /\ redis_setex_fails w <> None).

(** Characters [str.encode('utf-8')] accepts: the Unicode scalar values. *)
Definition scalar_value (c : N) : Prop :=
  (c < 0xD800 \/ 0xDFFF < c < 0x110000)%N.

(** A lower-case hexadecimal digit. *)
Definition is_hex (c : N) : bool :=
  ((48 <=? c) && (c <=? 57) || (97 <=? c) && (c <=? 102))%N.

(* ===================================================================== *)
(** * The specification's wording of [Normalize]; runs, pieces, packing *)
(* ===================================================================== *)

Module Spec.

Definition starts_with (p : N -> bool) (s : str) : bool :=
  match s with
  | [] => false
  | c :: _ => p c
  end.

(** "collapse any run of whitespace characters to a single space" *)
Fixpoint collapse_whitespace (s : str) : str :=
  match s with
  | [] => []
  | c :: r =>
      if Py.isspace c
      then if starts_with Py.isspace r
           then collapse_whitespace r
           else 32%N :: collapse_whitespace r
      else c :: collapse_whitespace r
  end.

(** "collapse any run of 2+ repeated terminal punctuation characters (from
    the set {!,?,.}) to a single instance": of a run, the last character
    stays. *)
Fixpoint collapse_terminal (s : str) : str :=
  match s with
  | [] => []
  | c :: r =>
      if Re.is_terminal c && starts_with Re.is_terminal r
      then collapse_terminal r
      else c :: collapse_terminal r
  end.

(** "trim leading/trailing whitespace" *)
Definition trim (s : str) : str :=
  let s := Py.lstrip s in rev (Py.lstrip (rev s)).

Definition Normalize (text : str) : str :=
  trim (collapse_terminal (collapse_whitespace text)).

(** No two neighbours of [s] both satisfy [p]. *)
Fixpoint no_adjacent (p : N -> bool) (s : str) : bool :=
  match s with
  | [] => true
  | c :: r => negb (p c && starts_with p r) && no_adjacent p r
  end.

(** [chunk] is [piece] without whitespace at its two ends. *)
Definition trimmed_of (chunk piece : str) : Prop :=
  exists before after,
    piece = before ++ chunk ++ after /\
    forallb Py.isspace before = true /\ forallb Py.isspace after = true.

(** [sentence + punctuation] for each pair of the split's result. *)
Fixpoint full_sentences (sentences : list str) : list str :=
  match sentences with
  | [] => []
  | sentence :: after =>
      match after with
      | [] => [sentence]
      | punctuation :: rest =>
          (sentence ++ punctuation) :: full_sentences rest
      end
  end.

(** The packing of [chunk_text] before the chunks are stripped: the
    pieces closed so far and the piece being filled. *)
Definition pack_step (max_length : Z) (st : list str * str) (full : str)
    : list str * str :=
  let '(pieces, current) := st in
  if (Py.len current + Py.len full <=? max_length)%Z
  then (pieces, current ++ full)
  else (if Py.truthy current then pieces ++ [current] else pieces, full).

Definition flush (st : list str * str) : list str :=
  let '(pieces, current) := st in
  if Py.truthy current then pieces ++ [current] else pieces.

Definition pack (max_length : Z) (fulls : list str) : list str :=
  flush (fold_left (pack_step max_length) fulls ([], [])).

(** "split on sentence-terminator boundaries (one or more of [.!?]
    followed by whitespace)": a sentence reaches to the end of the
    whitespace that follows a run of terminal characters, and the next one
    begins with the first character after that whitespace.  The text is
    read one character at a time; the phase says what was read last. *)
Inductive phase : Type :=
| Body       (* inside a sentence *)
| Terminal   (* a run of terminal characters was just read *)
| Gap.       (* the whitespace after such a run *)

Definition phase_after (c : N) : phase :=
  if Re.is_terminal c then Terminal else Body.

Definition last_sentence (cur : str) : list str :=
  match cur with
  | [] => []
  | _ :: _ => [cur]
  end.

Fixpoint Sentences_from (ph : phase) (cur : str) (s : str) : list str :=
  match s with
  | [] => last_sentence cur
  | c :: r =>
      match ph with
      | Body => Sentences_from (phase_after c) (cur ++ [c]) r
      | Terminal =>
          if Py.isspace c then Sentences_from Gap (cur ++ [c]) r
          else Sentences_from (phase_after c) (cur ++ [c]) r
      | Gap =>
          if Py.isspace c then Sentences_from Gap (cur ++ [c]) r
          else cur :: Sentences_from (phase_after c) [c] r
      end
  end.

(** The sentences of a text, each with its terminator. *)
Definition Sentences (text : str) : list str := Sentences_from Body [] text.

End Spec.

(* ===================================================================== *)
(** * Request threads at the registry *)
(* ===================================================================== *)

(** [MarianTranslator] takes no lock.  A thread that resolves a pair goes
    through the test in [translate], the test in [_load_model], the load
    and the two dictionary writes; other threads may run in between. *)
Module Threads.

Inductive pc : Type :=
| Enter                       (* translate: [if pair not in self.models] *)
| Call                        (* _load_model: [if pair in self.models] *)
| Loading (model_name : str)  (* [from_pretrained] is running *)
| Store (model_name : str)    (* about to write the two dictionaries *)
| Ready                       (* the pair is resolved *)
| Failed (e : exn).

Record thread : Type := {
  pair : str * str;
  at_pc : pc;
  loads : nat   (* how often this thread started the load routine *)
}.

Definition finished (t : thread) : bool :=
  match at_pc t with
  | Ready | Failed _ => true
  | _ => false
  end.

Section Steps.

Variable w : World.

(** One atomic step of a thread. *)
Definition step_thread (reg : MarianTranslator) (t : thread)
    : MarianTranslator * thread :=
  let goto pc' := {| pair := pair t; at_pc := pc'; loads := loads t |} in
  match at_pc t with
  | Enter =>
      match models reg !! pair t with
      | None => (reg, goto Call)
      | Some _ => (reg, goto Ready)
      end
  | Call =>
      match models reg !! pair t with
      | Some _ => (reg, goto Ready)
      | None =>
          match MarianTranslator._get_model_name (fst (pair t)) (snd (pair t))
          with
          | None => (reg, goto (Failed (ValueError (fst (pair t))
                                           (snd (pair t)))))
          | Some model_name =>
              if negb (Py.truthy model_name)
              then (reg, goto (Failed (ValueError (fst (pair t))
                                         (snd (pair t)))))
              else (reg, {| pair := pair t; at_pc := Loading model_name;
                            loads := S (loads t) |})
          end
      end
  | Loading model_name =>
      match from_pretrained w model_name with
      | Some msg => (reg, goto (Failed (EngineError msg)))
      | None => (reg, goto (Store model_name))
      end
  | Store model_name =>
      ({| models := <[pair t := model_name]> (models reg);
          tokenizers := <[pair t := model_name]> (tokenizers reg) |},
       goto Ready)
  | Ready | Failed _ => (reg, t)
  end.

(** The same step in two parts: what the thread writes to the registry,
    and where it goes given what it read there ([next] runs the step on a
    registry that holds just the entry that was read). *)
Definition write (reg : MarianTranslator) (t : thread) : MarianTranslator :=
  match at_pc t with
  | Store model_name =>
      {| models := <[pair t := model_name]> (models reg);
         tokenizers := <[pair t := model_name]> (tokenizers reg) |}
  | _ => reg
  end.

Definition next (seen : option str) (t : thread) : thread :=
  snd (step_thread
         {| models := match seen with
                      | Some m => {[pair t := m]}
                      | None => ∅
                      end;
            tokenizers := ∅ |} t).

Record system : Type := {
  registry : MarianTranslator;
  pool : list thread
}.

(** The scheduler lets thread [i] take one step. *)
Definition step (i : nat) (sys : system) : system :=
  match pool sys !! i with
  | None => sys
  | Some t =>
      let '(reg, t') := step_thread (registry sys) t in
      {| registry := reg; pool := <[i := t']> (pool sys) |}
  end.

Definition run (schedule : list nat) (sys : system) : system :=
  fold_left (fun s i => step i s) schedule sys.

End Steps.

Definition total_loads (sys : system) : nat :=
  list_sum (List.map loads (pool sys)).

(** [n] first-requests for the same pair, none started. *)
Definition first_requests (n : nat) (p : str * str) : list thread :=
  repeat {| pair := p; at_pc := Enter; loads := 0 |} n.

Definition all_finished (sys : system) : bool :=
  forallb finished (pool sys).

(** Single-flight as the specification words it: however [n] concurrent
    first-requests for one unseen pair are scheduled, once all of them are
    done the load routine has run exactly once. *)
Definition single_flight (w : World) (n : nat) (p : str * str) : Prop :=
  forall schedule : list nat,
    let sys :=
      run w schedule
        {| registry := {| models := ∅; tokenizers := ∅ |};
           pool := first_requests n p |} in
    all_finished sys = true -> total_loads sys = 1.

End Threads.

(** Requests served one after the other, each in its own world: the
    resolve step of [MarianTranslator.translate]. *)
Definition resolve (w : World) (source_lang target_lang : str) : M unit :=
  self <- gets translator ;;
  match models self !! (source_lang, target_lang) with
  | None => MarianTranslator._load_model w source_lang target_lang
  | Some _ => ret tt
  end.

Fixpoint resolve_each (ws : list World) (source_lang target_lang : str)
    (p : Process) : Process :=
  match ws with
  | [] => p
  | w :: ws' =>
      resolve_each ws' source_lang target_lang
        (snd (resolve w source_lang target_lang p))
  end.

(* ===================================================================== *)
(** * Sample data *)
(* ===================================================================== *)

Module Sample.

(** [str.upper] on the ASCII letters; other characters are kept. *)
Definition upper (c : N) : str :=
  if ((97 <=? c) && (c <=? 122))%N then [(c - 32)%N] else [c].

(** A reachable server, a loadable model, an engine that answers with a
    fixed Hindi greeting. *)
Definition namaste : str :=
  [0x928; 0x92E; 0x938; 0x94D; 0x924; 0x947]%N.

Definition world : World :=
  {| now := 1000;
     redis_get_fails := None;
     redis_setex_fails := None;
     MAX_LENGTH := None;
     from_pretrained := fun _ => None;
     generate := fun _ _ => Ok namaste |}.

(** The same, with an engine whose output is empty. *)
Definition silent_world : World :=
  {| now := 1000;
     redis_get_fails := None;
     redis_setex_fails := None;
     MAX_LENGTH := None;
     from_pretrained := fun _ => None;
     generate := fun _ _ => Ok [] |}.

(** The server is down and the engine works. *)
Definition world_without_redis : World :=
  {| now := 1000;
     redis_get_fails := Some (Py.lit "Connection refused");
     redis_setex_fails := Some (Py.lit "Connection refused");
     MAX_LENGTH := None;
     from_pretrained := fun _ => None;
     generate := fun _ _ => Ok namaste |}.

(** The server is up and the engine raises. *)
Definition world_without_engine : World :=
  {| now := 1000;
     redis_get_fails := None;
     redis_setex_fails := None;
     MAX_LENGTH := None;
     from_pretrained := fun _ => None;
     generate :=
       fun _ _ => Raise (EngineError (Py.lit "CUDA out of memory")) |}.

Definition no_counts : Counters :=
  {| translation_counter := 0; cache_hit_counter := 0;
     cache_miss_counter := 0 |}.

(** A process that has just started: nothing loaded, an empty cache. *)
Definition fresh : Process :=
  {| translator := {| models := ∅; tokenizers := ∅ |};
     cache := TranslationCache.__init__ None (Ok ∅);
     counters := no_counts;
     trace := [] |}.

Definition hello : str := Py.lit "Hello!!!  world".

Definition request (t : str) : Request :=
  {| text := Some t;
     source_lang := Some (Py.lit "en");
     target_lang := Some (Py.lit "hi") |}.

(** Scenario C: a text of 600 characters. *)
Definition long_text : str := repeat 97%N 600.

(** Scenario D: a request for the pair (en, fr). *)
Definition french : Request :=
  {| text := Some hello;
     source_lang := Some (Py.lit "en");
     target_lang := Some (Py.lit "fr") |}.

(** A text with a lone surrogate, as [json.loads] yields for the escape
    [\ud800]. *)
Definition surrogate : str := [0xD800%N].

(** The key of [hello] for (en, hi). *)
Definition hello_key : str := Py.lit "trans:en:hi:ac170367261601e2".

End Sample.

(* ===================================================================== *)
(** * What one call does, in closed form *)
(* ===================================================================== *)

(** The methods above are sequences of statements.  These functions say
    what a whole call returns and changes; the lemmas [get_run],
    [set_run], [_load_model_run], [translate_run] and [handler_run] prove
    that they agree with the methods. *)

Definition with_trace (p : Process) (events : list event) : Process :=
  {| translator := translator p; cache := cache p;
     counters := counters p; trace := trace p ++ events |}.

Section Closed.

Variable w : World.

(** The value [TranslationCache.get] returns. *)
Definition get_value (c : TranslationCache) (t s d : str) : option str :=
  match redis_client c with
  | None => None
  | Some keys =>
      match TranslationCache._generate_key t s d with
      | Raise _ => None
      | Ok key =>
          match Redis.get w keys key with
          | Ok (Some value) => if Py.truthy value then Some value else None
          | Ok None | Raise _ => None
          end
      end
  end.

(** The value [TranslationCache.set] returns, and the cache it leaves. *)
Definition store (c : TranslationCache) (t s d translation : str)
    : bool * TranslationCache :=
  match redis_client c with
  | None => (false, c)
  | Some keys =>
      match TranslationCache._generate_key t s d with
      | Raise _ => (false, c)
      | Ok key =>
          match Redis.setex w keys key (ttl c) translation with
          | Ok keys' => (true, {| redis_client := Some keys'; ttl := ttl c |})
          | Raise _ => (false, c)
          end
      end
  end.

(** [_load_model]: what it returns, the registry it leaves, and the loads
    it starts. *)
Definition load (tr : MarianTranslator) (s d : str)
    : result unit * MarianTranslator * list event :=
  match models tr !! (s, d) with
  | Some _ => (Ok tt, tr, [])
  | None =>
      match MarianTranslator._get_model_name s d with
      | None => (Raise (ValueError s d), tr, [])
      | Some model_name =>
          if negb (Py.truthy model_name) then (Raise (ValueError s d), tr, [])
          else
            match from_pretrained w model_name with
            | Some msg => (Raise (EngineError msg), tr, [EngineLoad model_name])
            | None =>
                (Ok tt,
                 {| models := <[(s, d) := model_name]> (models tr);
                    tokenizers := <[(s, d) := model_name]> (tokenizers tr) |},
                 [EngineLoad model_name])
            end
      end
  end.

(** [MarianTranslator.translate]. *)
Definition run_engine (tr : MarianTranslator) (t s d : str)
    : result str * MarianTranslator * list event :=
  let '(loaded, tr1, events) :=
    match models tr !! (s, d) with
    | None => load tr s d
    | Some _ => (Ok tt, tr, [])
    end in
  let events := EngineTranslate t s d :: events in
  match loaded with
  | Raise e => (Raise e, tr1, events)
  | Ok _ =>
      match tokenizers tr1 !! (s, d), models tr1 !! (s, d) with
      | Some _, Some model => (generate w model t, tr1, events)
      | _, _ => (Raise (KeyError (s, d)), tr1, events)
      end
  end.

(** The handler on a request that passed validation. *)
Definition serve (upper : N -> str) (p : Process) (t s d : str)
    : response * Process :=
  match get_value (cache p) t s d with
  | Some cached =>
      ((Translation cached s d None true, 200%Z),
       {| translator := translator p;
          cache := cache p;
          counters := inc_translation (inc_cache_hit (counters p));
          trace := trace p ++ [CacheGet t s d] |})
  | None =>
      let '(translated, tr, events) :=
        run_engine (translator p) (preprocess_text t) s d in
      match translated with
      | Raise e =>
          ((TranslationFailed e, 500%Z),
           {| translator := tr;
              cache := cache p;
              counters := inc_cache_miss (counters p);
              trace := trace p ++ CacheGet t s d :: events |})
      | Ok translated_text =>
          let final_text := postprocess_text upper translated_text in
          ((Translation final_text s d
              (Some (MarianTranslator.get_model_name s d)) false, 200%Z),
           {| translator := tr;
              cache := snd (store (cache p) t s d final_text);
              counters := inc_translation (inc_cache_miss (counters p));
              trace := trace p ++ CacheGet t s d :: events
                       ++ [CacheSet t s d final_text] |})
      end
  end.

(** The answer of the validation checks: the error of the first check
    that fails, if one does. *)
Definition rejection (r : Request) : option body :=
  match text r, source_lang r, target_lang r with
  | Some t, Some s, Some d =>
      if negb (Py.truthy t) || negb (Py.truthy s) || negb (Py.truthy d)
      then Some MissingFields
      else if (max_length w <? Py.len t)%Z
      then Some (TextTooLong (max_length w))
      else if negb (bool_decide ((s, d) ∈ SUPPORTED_PAIRS))
      then Some (UnsupportedPair s d SUPPORTED_PAIRS)
      else None
  | _, _, _ => Some MissingFields
  end.

End Closed.

(** The three ways a request is invalid. *)
Definition empty_text (r : Request) : Prop := present (text r) = false.

Definition too_long (w : World) (r : Request) : Prop :=
  exists t, text r = Some t /\ (max_length w < Py.len t)%Z.

Definition unsupported_pair (r : Request) : Prop :=
  forall s d, source_lang r = Some s -> target_lang r = Some d ->
    (s, d) ∉ SUPPORTED_PAIRS.

(** The error [b] answers to a check the request fails. *)
Definition answers_to (w : World) (r : Request) (b : body) : Prop :=
  match b with
  | MissingFields =>
      andb (present (text r))
        (andb (present (source_lang r)) (present (target_lang r))) = false
  | TextTooLong n => n = max_length w /\ too_long w r
  | UnsupportedPair s d l =>
      source_lang r = Some s /\ target_lang r = Some d /\
      ((s, d) ∉ SUPPORTED_PAIRS) /\ l = SUPPORTED_PAIRS
  | _ => False
  end.

(** The answer came from the cache ('cached': True). *)
Definition served_from_cache (b : body) : bool :=
  match b with
  | Translation _ _ _ _ true => true
  | _ => false
  end.

(** Idempotent caching as the specification words it, for one request:
    when a first call succeeds and its result is in the cache, the same
    call again is answered from the cache, with the same text and without
    engine access. *)
Definition idempotent_caching (upper : N -> str) (w : World) (r : Request)
    (t s d : str) (p : Process) : Prop :=
  forall final model p1 expires,
    translate upper w (Some r) p
    = (Ok (Translation final s d model false, 200%Z), p1) ->
    cached_as p1 t s d final expires ->
    exists p2,
      translate upper w (Some r) p1
      = (Ok (Translation final s d None true, 200%Z), p2) /\
      engine_events (trace p2) = engine_events (trace p1).

(* ===================================================================== *)
(** * Predicates used in the statements *)
(* ===================================================================== *)

(** No whitespace inside. *)
Definition clean (t : str) : Prop :=
  forallb (fun c => negb (Py.isspace c)) t = true.

(** A word: non-empty, without whitespace. *)
Definition word (t : str) : Prop :=
  t <> [] /\ clean t.

(** The last character, when there is one, is not whitespace. *)
Definition ends_clean (s : str) : Prop :=
  Spec.starts_with Py.isspace (rev s) = false.

(** A match consumes input. *)
Definition shrinking (m : Re.matcher) : Prop :=
  forall s groups rest, m s = Some (groups, rest) -> length rest < length s.

(** The groups of a match are the matched text. *)
Definition covering (m : Re.matcher) : Prop :=
  forall s groups rest,
    m s = Some (groups, rest) -> List.concat groups ++ rest = s.

(* ===================================================================== *)
(** * The remaining methods of the two classes *)
(* ===================================================================== *)

(** [MarianTranslator.unload_model]: the two [del] statements, one after
    the other; the second raises [KeyError] when the tokenizer is not
    there, and the model is gone by then. *)
Module Unloading.

Definition unload_model (source_lang target_lang : str) : M unit :=
  let pair := (source_lang, target_lang) in
  self <- gets translator ;;
  match models self !! pair with
  | None => ret tt
  | Some _ =>
      put_translator
        {| models := delete pair (models self);
           tokenizers := tokenizers self |} ;;;
      match tokenizers self !! pair with
      | None => raise (KeyError pair)
      | Some _ =>
          put_translator
            {| models := delete pair (models self);
               tokenizers := delete pair (tokenizers self) |}
      end
  end.

End Unloading.

(** [TranslationCache.clear]: SCAN with the pattern [trans:*] from cursor
    0, DEL of what each page holds, until the server hands out cursor 0.
    How the server pages its keys and when a command raises is the
    server's business: [scan] and [del_fails] stand for it.  The loop ends
    when the server ends it, so it is run for a number of rounds; [None]
    says that it is still scanning after that many. *)
Module Clearing.

Section Clear.

Variable scan : Z -> str -> gmap str (str * Z) -> result (Z * list str).
Variable del_fails : list str -> option str.

(** [DEL key1 key2 ...] *)
Definition delete_keys (found : list str) (keys : gmap str (str * Z))
    : gmap str (str * Z) :=
  fold_right (fun k m => delete k m) keys found.

Fixpoint scan_loop (rounds : nat) (cursor : Z) (keys : gmap str (str * Z))
    : option (gmap str (str * Z)) :=
  match rounds with
  | O => None
  | S rounds' =>
      match scan cursor (Py.lit "trans:*") keys with
      | Raise _ => Some keys  (* logged *)
      | Ok (cursor', found) =>
          let deleted :=
            match found with
            | [] => Ok keys
            | _ :: _ =>
                match del_fails found with
                | Some msg => Raise (RedisError msg)
                | None => Ok (delete_keys found keys)
                end
            end in
          match deleted with
          | Raise _ => Some keys  (* logged *)
          | Ok keys' =>
              if (cursor' =? 0)%Z then Some keys'
              else scan_loop rounds' cursor' keys'
          end
      end
  end.

Definition clear (rounds : nat) (self : TranslationCache)
    : option TranslationCache :=
  match redis_client self with
  | None => Some self
  | Some keys =>
      match scan_loop rounds 0 keys with
      | Some keys' => Some {| redis_client := Some keys'; ttl := ttl self |}
      | None => None
      end
  end.

End Clear.

(** A key of the cache's namespace. *)
Definition in_namespace (key : str) : Prop :=
  exists rest, key = Py.lit "trans:" ++ rest.

(** A server that holds one page: the key of the sample request. *)
Definition one_page (cursor : Z) (pattern : str)
    (keys : gmap str (str * Z)) : result (Z * list str) :=
  Ok (0%Z, [Py.lit "trans:en:hi:ac170367261601e2"]).

(** A server that other applications use as well. *)
Definition shared_store : gmap str (str * Z) :=
  <[Py.lit "session:42" := (Py.lit "x", 5%Z)]>
    {[ Py.lit "trans:en:hi:ac170367261601e2" := (Py.lit "namaste", 87400%Z) ]}.

End Clearing.

(** Requests served one after the other, each in its own world. *)
Fixpoint serve_all (upper : N -> str)
    (requests : list (World * option Request)) (p : Process) : Process :=
  match requests with
  | [] => p
  | (w, data) :: rest =>
      serve_all upper rest (snd (translate upper w data p))
  end.

(** The registry is consistent: the two dictionaries hold the same pairs,
    and each pair holds the model that [_get_model_name] names for it. *)
Definition consistent (tr : MarianTranslator) : Prop :=
  forall pair,
    tokenizers tr !! pair = models tr !! pair /\
    forall name,
      models tr !! pair = Some name ->
      MarianTranslator._get_model_name (fst pair) (snd pair) = Some name.

(** Every supported pair is registered. *)
Definition preloaded (tr : MarianTranslator) : Prop :=
  Forall (fun pair => models tr !! pair <> None) SUPPORTED_PAIRS.

(** No character of [p] is directly followed by a character of [q]. *)
Fixpoint no_pair (p q : N -> bool) (s : str) : bool :=
  match s with
  | [] => true
  | c :: r => negb (p c && Spec.starts_with q r) && no_pair p q r
  end.

(** [str.upper] leaves a character as it is, or maps it to characters that
    are neither whitespace nor punctuation (letters and marks). *)
Definition plain_upper (upper : N -> str) : Prop :=
  forall c,
    upper c = [c] \/
    forallb (fun x => negb (Py.isspace x) && negb (Re.is_punct x)) (upper c)
    = true.

(** A language code without a colon. *)
Definition no_colon (s : str) : Prop :=
  forallb (fun c => negb (c =? 58)%N) s = true.

(** What [preprocess_text] keeps: the characters that are neither
    whitespace nor terminal punctuation. *)
Definition content (c : N) : bool :=
  negb (Py.isspace c) && negb (Re.is_terminal c).

(** The replacement template [\1 \2]. *)
Definition spaced (groups : list str) : str :=
  Re.group 0 groups ++ [32%N] ++ Re.group 1 groups.

(** The text of [postprocess_text] after its two substitutions. *)
Definition staged (text : str) : str :=
  Re.sub Re.punct_then_letter spaced
    (Re.sub Re.space_before_punct (Re.group 0) text).

(** The world with another answer of the server to SETEX. *)
Definition with_setex (w : World) (fails : option str) : World :=
  {| now := now w;
     redis_get_fails := redis_get_fails w;
     redis_setex_fails := fails;
     MAX_LENGTH := MAX_LENGTH w;
     from_pretrained := from_pretrained w;
     generate := generate w |}.

(** A process whose cache could not connect when it was constructed. *)
Definition offline : Process :=
  {| translator := {| models := ∅; tokenizers := ∅ |};
     cache := TranslationCache.__init__ None
                (Raise (RedisError (Py.lit "Connection refused")));
     counters := Sample.no_counts;
     trace := [] |}.

(** The request was answered with a fresh translation, and the server
    accepts the SETEX of that translation under the key of the request:
    it answers, the text can be encoded, the TTL is positive. *)
Definition written (upper : N -> str) (w : World) (data : option Request)
    (p : Process) (key final : str) : Prop :=
  exists r t s d model,
    data = Some r /\ validated w r t s d /\
    fst (translate upper w data p)
    = Ok (Translation final s d model false, 200%Z) /\
    TranslationCache._generate_key t s d = Ok key /\
    redis_setex_fails w = None /\
    Redis.encodable final = true /\
    (0 < ttl (cache p))%Z.

(** The engine calls of a trace. *)
Definition is_engine_call (e : event) : bool :=
  match e with EngineTranslate _ _ _ => true | _ => false end.

(* ===================================================================== *)
(** * The definitions on concrete inputs *)
(* ===================================================================== *)

Section Examples.

Example split_words_only :
  Py.split (Py.lit "  to be   or not ")
  = List.map Py.lit ["to"; "be"; "or"; "not"]%string.
Proof. reflexivity. Qed.

Example strip_both_ends : Py.strip (Py.lit "  a b  ") = Py.lit "a b".
Proof. reflexivity. Qed.

Example preprocess_mixed_run :
  preprocess_text (Py.lit "a!?. b!! c. d?!x") = Py.lit "a. b! c. d!x".
Proof. reflexivity. Qed.

Example preprocess_blank : preprocess_text (Py.lit "   ") = [].
Proof. reflexivity. Qed.

Example postprocess_spacing :
  postprocess_text Sample.upper (Py.lit " hello , world .How are you ?x ")
  = Py.lit "hello, world. How are you? x".
Proof. reflexivity. Qed.

Example postprocess_capital :
  postprocess_text Sample.upper (Py.lit "hello") = Py.lit "Hello".
Proof. reflexivity. Qed.

Example postprocess_blank :
  postprocess_text Sample.upper (Py.lit " ") = [].
Proof. reflexivity. Qed.

Example split_sentences :
  Re.split Re.sentence_end (Py.lit "A. B!?  C.. D.")
  = List.map Py.lit ["A"; ". "; "B"; "!?  "; "C"; ".. "; "D."]%string.
Proof. reflexivity. Qed.

Example chunk_four :
  chunk_text (Py.lit "A. B!?  C.. D.") 4
  = List.map Py.lit ["A."; "B!?"; "C.."; "D."]%string.
Proof. reflexivity. Qed.

Example chunk_oversized :
  chunk_text (Py.lit "ab. cd") 2 = List.map Py.lit ["ab."; "cd"]%string.
Proof. reflexivity. Qed.

Example chunk_blank : chunk_text (Py.lit "   ") 1 = [[]].
Proof. reflexivity. Qed.

Example sentences_four :
  Spec.Sentences (Py.lit "A. B!?  C.. D.")
  = List.map Py.lit ["A. "; "B!?  "; "C.. "; "D."]%string.
Proof. reflexivity. Qed.

Example sentences_inner_dots :
  Spec.Sentences (Py.lit "v1.2 is out.No gap here. .. x ")
  = List.map Py.lit ["v1.2 is out.No gap here. "; ".. "; "x "]%string.
Proof. reflexivity. Qed.

Example utf8_devanagari :
  Codec.encode_utf8 [0x928; 0x20AC; 0x1F600; 0xE9]%N
  = Some [224; 164; 168; 226; 130; 172; 240; 159; 152; 128; 195; 169]%N.
Proof. reflexivity. Qed.

(** The test suite of RFC 1321. *)
Example md5_empty :
  Md5.hexdigest [] = Py.lit "d41d8cd98f00b204e9800998ecf8427e".
Proof. vm_compute. reflexivity. Qed.

Example md5_abc :
  Md5.hexdigest (Py.lit "abc") = Py.lit "900150983cd24fb0d6963f7d28e17f72".
Proof. vm_compute. reflexivity. Qed.

Example md5_alphabet :
  Md5.hexdigest (Py.lit "abcdefghijklmnopqrstuvwxyz")
  = Py.lit "c3fcd3d76192e4007dfb496cca67e13b".
Proof. vm_compute. reflexivity. Qed.

Example md5_two_blocks :
  Md5.hexdigest
    (Py.lit
       "ABCDEFGHIJKLMNOPQRSTUVWXYZabcdefghijklmnopqrstuvwxyz0123456789")
  = Py.lit "d174ab98d277d9f5a5611c2c9f419d9f".
Proof. vm_compute. reflexivity. Qed.

Example hello_has_key :
  TranslationCache._generate_key Sample.hello (Py.lit "en") (Py.lit "hi")
  = Ok Sample.hello_key.
Proof. vm_compute. reflexivity. Qed.

(** Scenario A: the text is normalized, the engine is called once, the
    model is loaded, and the result is cached under the key of the
    original text. *)
Example scenario_A :
  let '(answer, p) :=
    translate Sample.upper Sample.world
      (Some (Sample.request Sample.hello)) Sample.fresh in
  answer = Ok (Translation Sample.namaste (Py.lit "en") (Py.lit "hi")
                 (Some (Some (Py.lit "Helsinki-NLP/opus-mt-en-hi"))) false,
               200%Z) /\
  trace p = [ CacheGet Sample.hello (Py.lit "en") (Py.lit "hi");
              EngineTranslate (Py.lit "Hello! world")
                (Py.lit "en") (Py.lit "hi");
              EngineLoad (Py.lit "Helsinki-NLP/opus-mt-en-hi");
              CacheSet Sample.hello (Py.lit "en") (Py.lit "hi")
                Sample.namaste ] /\
  redis_client (cache p)
  = Some {[ Sample.hello_key := (Sample.namaste, 87400%Z) ]}.
Proof. vm_compute. repeat split. Qed.

(** Scenario D: the pair (en, fr) is refused with the supported pairs. *)
Example scenario_D :
  translate Sample.upper Sample.world (Some Sample.french) Sample.fresh
  = (Ok (UnsupportedPair (Py.lit "en") (Py.lit "fr")
           [(Py.lit "en", Py.lit "hi"); (Py.lit "hi", Py.lit "en")], 400%Z),
     Sample.fresh).
Proof. vm_compute. reflexivity. Qed.

End Examples.

(* ===================================================================== *)
(** * Facts about the string operations *)
(* ===================================================================== *)

Section PyFacts.

Lemma span_app (p : N -> bool) (s a b : str) :
  Py.span p s = (a, b) -> s = a ++ b.
Proof.
  revert a b. induction s as [|c r IH]; intros a b H; simpl in H.
  - now inversion H.
  - destruct (p c).
    + destruct (Py.span p r) as [a' b'] eqn:E. inversion H; subst.
      simpl. f_equal. now apply IH.
    + now inversion H.
Qed.

Lemma span_all (p : N -> bool) (s a b : str) :
  Py.span p s = (a, b) -> forallb p a = true.
Proof.
  revert a b. induction s as [|c r IH]; intros a b H; simpl in H.
  - now inversion H.
  - destruct (p c) eqn:Hc.
    + destruct (Py.span p r) as [a' b'] eqn:E. inversion H; subst.
      simpl. rewrite Hc. simpl. eapply IH; eauto.
    + now inversion H.
Qed.

Lemma span_rest (p : N -> bool) (s a b : str) :
  Py.span p s = (a, b) -> Spec.starts_with p b = false.
Proof.
  revert a b. induction s as [|c r IH]; intros a b H; simpl in H.
  - now inversion H.
  - destruct (p c) eqn:Hc.
    + destruct (Py.span p r) as [a' b'] eqn:E. inversion H; subst.
      eapply IH; eauto.
    + inversion H; subst. simpl. exact Hc.
Qed.

Lemma span_length (p : N -> bool) (s a b : str) :
  Py.span p s = (a, b) -> length s = length a + length b.
Proof.
  intros H. apply span_app in H. subst. now rewrite length_app.
Qed.

(** A prefix of [p]-characters is taken as a whole when what follows does
    not start with one. *)
Lemma span_prefix (p : N -> bool) (a b : str) :
  forallb p a = true -> Spec.starts_with p b = false ->
  Py.span p (a ++ b) = (a, b).
Proof.
  induction a as [|c a IH]; intros Ha Hb; simpl in *.
  - destruct b as [|d b]; [reflexivity|]. simpl in *. now rewrite Hb.
  - apply andb_true_iff in Ha as [Hc Ha]. rewrite Hc.
    now rewrite IH.
Qed.

Lemma lstrip_spaces (l s : str) :
  forallb Py.isspace l = true -> Py.lstrip (l ++ s) = Py.lstrip s.
Proof.
  unfold Py.lstrip. induction l as [|c l IH]; intros H.
  - reflexivity.
  - cbn [forallb] in H. apply andb_true_iff in H as [Hc H].
    specialize (IH H). cbn [app Py.span]. rewrite Hc.
    destruct (Py.span Py.isspace (l ++ s)) as [a b] eqn:E.
    exact IH.
Qed.

Lemma lstrip_id (s : str) :
  Spec.starts_with Py.isspace s = false -> Py.lstrip s = s.
Proof.
  unfold Py.lstrip. destruct s as [|c r]; simpl; intros H; [reflexivity|].
  now rewrite H.
Qed.

Lemma lstrip_all_spaces (l : str) :
  forallb Py.isspace l = true -> Py.lstrip l = [].
Proof.
  intros H. rewrite <- (app_nil_r l). rewrite lstrip_spaces by exact H.
  reflexivity.
Qed.

Lemma forallb_rev (p : N -> bool) (l : str) :
  forallb p (rev l) = forallb p l.
Proof.
  induction l as [|c l IH]; simpl; [reflexivity|].
  rewrite forallb_app, IH. simpl. rewrite andb_true_r. apply andb_comm.
Qed.

Lemma rstrip_spaces (s t : str) :
  forallb Py.isspace t = true -> Py.rstrip (s ++ t) = Py.rstrip s.
Proof.
  intros H. unfold Py.rstrip. rewrite rev_app_distr.
  rewrite lstrip_spaces; [reflexivity|]. now rewrite forallb_rev.
Qed.

Lemma rstrip_id (s : str) : ends_clean s -> Py.rstrip s = s.
Proof.
  intros H. unfold Py.rstrip. rewrite lstrip_id by exact H.
  apply rev_involutive.
Qed.

Lemma strip_padded (l y t : str) :
  forallb Py.isspace l = true -> forallb Py.isspace t = true ->
  Spec.starts_with Py.isspace y = false -> ends_clean y ->
  Py.strip (l ++ y ++ t) = y.
Proof.
  intros Hl Ht Hy1 Hy2. unfold Py.strip.
  rewrite lstrip_spaces by exact Hl.
  destruct y as [|c y].
  - simpl. rewrite lstrip_all_spaces by exact Ht. reflexivity.
  - rewrite lstrip_id.
    + rewrite rstrip_spaces by exact Ht. now apply rstrip_id.
    + exact Hy1.
Qed.

Lemma strip_clean (y : str) :
  Spec.starts_with Py.isspace y = false -> ends_clean y -> Py.strip y = y.
Proof.
  intros H1 H2.
  pose proof (strip_padded [] y [] eq_refl eq_refl H1 H2) as H.
  simpl in H. now rewrite app_nil_r in H.
Qed.

(** What [strip] removes is whitespace at the two ends. *)
Lemma lstrip_split (s : str) :
  exists l, s = l ++ Py.lstrip s /\ forallb Py.isspace l = true.
Proof.
  unfold Py.lstrip. destruct (Py.span Py.isspace s) as [a b] eqn:E.
  exists a. split; [now apply span_app in E | now apply span_all in E].
Qed.

Lemma strip_trimmed (s : str) : Spec.trimmed_of (Py.strip s) s.
Proof.
  unfold Spec.trimmed_of, Py.strip, Py.rstrip.
  destruct (lstrip_split s) as (l & Hs & Hl).
  destruct (lstrip_split (rev (Py.lstrip s))) as (t & Hr & Ht).
  exists l, (rev t). repeat split.
  - rewrite Hs at 1. f_equal.
    rewrite <- (rev_involutive (Py.lstrip s)) at 1.
    rewrite Hr at 1. now rewrite rev_app_distr.
  - exact Hl.
  - now rewrite forallb_rev.
Qed.

End PyFacts.

Section SplitFacts.

Lemma clean_app (a b : str) : clean a -> clean b -> clean (a ++ b).
Proof.
  unfold clean. intros Ha Hb. rewrite forallb_app, Ha, Hb. reflexivity.
Qed.

Lemma clean_starts (s : str) :
  clean s -> Spec.starts_with Py.isspace s = false.
Proof.
  destruct s as [|c r]; [reflexivity|]. unfold clean. simpl.
  intros H. apply andb_true_iff in H as [H _].
  now apply negb_true_iff in H.
Qed.

Lemma clean_ends (s : str) : clean s -> ends_clean s.
Proof.
  intros H. apply clean_starts. unfold clean. now rewrite forallb_rev.
Qed.

Lemma starts_with_app (p : N -> bool) (s x : str) :
  s <> [] -> Spec.starts_with p (s ++ x) = Spec.starts_with p s.
Proof. destruct s; [congruence | reflexivity]. Qed.

Lemma ends_clean_app (a b : str) :
  b <> [] -> ends_clean b -> ends_clean (a ++ b).
Proof.
  unfold ends_clean. intros Hb H. rewrite rev_app_distr.
  rewrite starts_with_app; [exact H|].
  intros E. apply Hb. apply (f_equal (@rev N)) in E.
  now rewrite rev_involutive in E.
Qed.

Lemma split_from_clean (tok cur rest : str) :
  clean tok ->
  Py.split_from cur (tok ++ rest) = Py.split_from (cur ++ tok) rest.
Proof.
  revert cur. induction tok as [|c tok IH]; intros cur H.
  - simpl. now rewrite app_nil_r.
  - unfold clean in H. cbn [forallb] in H.
    apply andb_true_iff in H as [Hc H]. apply negb_true_iff in Hc.
    cbn [app Py.split_from]. rewrite Hc. rewrite IH by exact H.
    now rewrite <- app_assoc.
Qed.

Lemma split_from_nonempty (s cur : str) :
  cur <> [] -> Py.split_from cur s <> [].
Proof.
  revert cur. induction s as [|c r IH]; intros cur H; simpl.
  - destruct cur; congruence.
  - destruct (Py.isspace c).
    + destruct cur; congruence.
    + apply IH. destruct cur; discriminate.
Qed.

Lemma split_from_words (s cur : str) :
  clean cur -> Forall word (Py.split_from cur s).
Proof.
  revert cur. induction s as [|c r IH]; intros cur H; simpl.
  - destruct cur as [|d cur]; constructor; [|constructor].
    split; [discriminate | exact H].
  - destruct (Py.isspace c) eqn:Hc.
    + destruct cur as [|d cur].
      * now apply IH.
      * constructor; [split; [discriminate | exact H]|].
        now apply IH.
    + apply IH. apply clean_app; [exact H|].
      unfold clean. simpl. now rewrite Hc.
Qed.

Lemma split_words (s : str) : Forall word (Py.split s).
Proof. now apply split_from_words. Qed.

Lemma join_cons (sep t : str) (ts : list str) :
  ts <> [] -> Py.join sep (t :: ts) = t ++ sep ++ Py.join sep ts.
Proof. destruct ts; [congruence | reflexivity]. Qed.

Lemma join_nonempty (sep : str) (ts : list str) :
  Forall word ts -> ts <> [] -> Py.join sep ts <> [].
Proof.
  intros H Hne. destruct H as [|t ts [Ht _] H]; [congruence|].
  destruct ts as [|t' ts]; simpl.
  - exact Ht.
  - destruct t; [congruence | discriminate].
Qed.

Lemma split_join (ts : list str) :
  Forall word ts -> Py.split (Py.join [32%N] ts) = ts.
Proof.
  induction 1 as [|t ts [Hne Hcl] Hts IH]; [reflexivity|].
  unfold Py.split in *. destruct ts as [|t' ts'].
  - simpl. rewrite <- (app_nil_r t) at 1.
    rewrite split_from_clean by exact Hcl. simpl.
    destruct t; [congruence | reflexivity].
  - rewrite join_cons by discriminate.
    rewrite split_from_clean by exact Hcl.
    cbn [app Py.split_from]. change (Py.isspace 32) with true. cbn iota.
    rewrite IH. destruct t; [congruence | reflexivity].
Qed.

Lemma join_starts (ts : list str) :
  Forall word ts ->
  Spec.starts_with Py.isspace (Py.join [32%N] ts) = false.
Proof.
  intros H. destruct H as [|t ts [Hne Hcl] H]; [reflexivity|].
  destruct ts as [|t' ts'].
  - now apply clean_starts.
  - rewrite join_cons by discriminate.
    rewrite starts_with_app by exact Hne. now apply clean_starts.
Qed.

Lemma join_ends (ts : list str) :
  Forall word ts -> ends_clean (Py.join [32%N] ts).
Proof.
  induction 1 as [|t ts [Hne Hcl] Hts IH]; [reflexivity|].
  destruct ts as [|t' ts'].
  - now apply clean_ends.
  - rewrite join_cons by discriminate.
    apply ends_clean_app.
    + destruct (Py.join [32%N] (t' :: ts')) eqn:E; [|discriminate].
      exfalso. eapply join_nonempty; [exact Hts | discriminate | exact E].
    + apply ends_clean_app; [|exact IH].
      apply join_nonempty; [exact Hts | discriminate].
Qed.

Lemma strip_join (ts : list str) :
  Forall word ts -> Py.strip (Py.join [32%N] ts) = Py.join [32%N] ts.
Proof.
  intros H. apply strip_clean; [now apply join_starts | now apply join_ends].
Qed.

End SplitFacts.

Section CollapseFacts.

Import Spec.

Lemma collapse_terminal_starts (s : str) :
  starts_with Re.is_terminal (collapse_terminal s)
  = starts_with Re.is_terminal s.
Proof.
  induction s as [|c r IH]; [reflexivity|]. simpl.
  destruct (Re.is_terminal c) eqn:Hc; simpl; [|exact Hc].
  destruct (starts_with Re.is_terminal r) eqn:Hr; simpl.
  - now rewrite IH.
  - exact Hc.
Qed.

Lemma collapse_terminal_clears (s : str) :
  no_adjacent Re.is_terminal (collapse_terminal s) = true.
Proof.
  induction s as [|c r IH]; [reflexivity|]. simpl.
  destruct (Re.is_terminal c && starts_with Re.is_terminal r) eqn:E.
  - exact IH.
  - simpl. rewrite collapse_terminal_starts, E, IH. reflexivity.
Qed.

Lemma collapse_terminal_fixed (s : str) :
  no_adjacent Re.is_terminal s = true -> collapse_terminal s = s.
Proof.
  induction s as [|c r IH]; [reflexivity|]. simpl. intros H.
  apply andb_true_iff in H as [H1 H2]. apply negb_true_iff in H1.
  rewrite H1. f_equal. now apply IH.
Qed.

Lemma collapse_terminal_idempotent (s : str) :
  collapse_terminal (collapse_terminal s) = collapse_terminal s.
Proof. apply collapse_terminal_fixed, collapse_terminal_clears. Qed.

Lemma collapse_terminal_app (a b : str) :
  starts_with Re.is_terminal b = false ->
  collapse_terminal (a ++ b) = collapse_terminal a ++ collapse_terminal b.
Proof.
  intros Hb. induction a as [|c a IH]; [reflexivity|].
  cbn [app collapse_terminal]. rewrite IH.
  destruct a as [|d a].
  - simpl. rewrite Hb. now rewrite andb_false_r.
  - cbn [app starts_with].
    now destruct (Re.is_terminal c && Re.is_terminal d).
Qed.

Lemma collapse_terminal_run (a b : str) :
  a <> [] -> forallb Re.is_terminal a = true ->
  starts_with Re.is_terminal b = false ->
  collapse_terminal (a ++ b) = List.last a 0%N :: collapse_terminal b.
Proof.
  intros Hne Ha Hb. induction a as [|c a IH]; [congruence|].
  cbn [forallb] in Ha. apply andb_true_iff in Ha as [Hc Ha].
  destruct a as [|d a].
  - simpl. now rewrite Hc, Hb.
  - cbn [forallb] in Ha. pose proof Ha as Ha'.
    apply andb_true_iff in Ha' as [Hd _].
    change ((c :: d :: a) ++ b) with (c :: (d :: a) ++ b).
    cbn [collapse_terminal]. cbn [app starts_with]. rewrite Hc, Hd.
    cbn [andb]. rewrite <- app_comm_cons in IH.
    rewrite IH; [reflexivity | discriminate | exact Ha].
Qed.

Lemma collapse_terminal_without (s : str) :
  forallb (fun c => negb (Re.is_terminal c)) s = true ->
  collapse_terminal s = s.
Proof.
  induction s as [|c r IH]; [reflexivity|]. simpl. intros H.
  apply andb_true_iff in H as [Hc H]. apply negb_true_iff in Hc.
  rewrite Hc. simpl. f_equal. now apply IH.
Qed.

Lemma collapse_terminal_after (l x : str) :
  forallb (fun c => negb (Re.is_terminal c)) l = true ->
  collapse_terminal (l ++ x) = l ++ collapse_terminal x.
Proof.
  induction l as [|c l IH]; [reflexivity|]. simpl. intros H.
  apply andb_true_iff in H as [Hc H]. apply negb_true_iff in Hc.
  rewrite Hc. simpl. f_equal. now apply IH.
Qed.

Lemma collapse_terminal_keeps (p : N -> bool) (s : str) :
  forallb p s = true -> forallb p (collapse_terminal s) = true.
Proof.
  induction s as [|c r IH]; [reflexivity|]. simpl. intros H.
  apply andb_true_iff in H as [Hc H].
  destruct (Re.is_terminal c && starts_with Re.is_terminal r).
  - now apply IH.
  - simpl. rewrite Hc. now apply IH.
Qed.

Lemma collapse_terminal_nonempty (s : str) :
  s <> [] -> collapse_terminal s <> [].
Proof.
  induction s as [|c r IH]; [congruence|]. intros _. simpl.
  destruct (Re.is_terminal c && starts_with Re.is_terminal r) eqn:E.
  - apply IH. apply andb_true_iff in E as [_ E].
    destruct r; [discriminate | discriminate].
  - discriminate.
Qed.

Lemma collapse_terminal_word (t : str) : word t -> word (collapse_terminal t).
Proof.
  intros [Hne Hcl]. split.
  - now apply collapse_terminal_nonempty.
  - now apply collapse_terminal_keeps.
Qed.

Lemma collapse_terminal_words (ts : list str) :
  Forall word ts -> Forall word (List.map collapse_terminal ts).
Proof.
  induction 1 as [|t ts Ht Hts IH]; constructor;
    [now apply collapse_terminal_word | exact IH].
Qed.

Lemma space_not_terminal (c : N) :
  Py.isspace c = true -> Re.is_terminal c = false.
Proof.
  unfold Py.isspace, Re.is_terminal. intros H.
  destruct (N.eqb_spec c 33); [subst; discriminate|].
  destruct (N.eqb_spec c 63); [subst; discriminate|].
  destruct (N.eqb_spec c 46); [subst; discriminate|].
  reflexivity.
Qed.

Lemma spaces_not_terminal (l : str) :
  forallb Py.isspace l = true ->
  forallb (fun c => negb (Re.is_terminal c)) l = true.
Proof.
  induction l as [|c l IH]; [reflexivity|]. simpl. intros H.
  apply andb_true_iff in H as [Hc H].
  rewrite (space_not_terminal c Hc). simpl. now apply IH.
Qed.

Lemma collapse_terminal_join (ts : list str) :
  collapse_terminal (Py.join [32%N] ts)
  = Py.join [32%N] (List.map collapse_terminal ts).
Proof.
  induction ts as [|t ts IH]; [reflexivity|].
  destruct ts as [|t' ts']; [reflexivity|].
  rewrite join_cons by discriminate.
  change (List.map collapse_terminal (t :: t' :: ts'))
    with (collapse_terminal t :: List.map collapse_terminal (t' :: ts')).
  rewrite (join_cons _ _ (List.map collapse_terminal (t' :: ts')))
    by discriminate.
  rewrite collapse_terminal_app by reflexivity.
  f_equal. rewrite <- IH. reflexivity.
Qed.

End CollapseFacts.

(* ===================================================================== *)
(** * Facts about the regular expressions *)
(* ===================================================================== *)

Section ReFacts.

Lemma repeated_terminal_shrinking : shrinking Re.repeated_terminal.
Proof.
  intros s groups rest. unfold Re.repeated_terminal.
  destruct (Py.span Re.is_terminal s) as [run rest'] eqn:E.
  destruct (2 <=? length run)%nat eqn:H2; [|discriminate].
  intros H. inversion H; subst. apply span_length in E.
  apply Nat.leb_le in H2. lia.
Qed.

Lemma space_before_punct_shrinking : shrinking Re.space_before_punct.
Proof.
  intros s groups rest. unfold Re.space_before_punct.
  destruct (Py.span Py.isspace s) as [ws rest'] eqn:E.
  destruct ws as [|c ws]; [discriminate|].
  destruct rest' as [|p rest'']; [discriminate|].
  destruct (Re.is_punct p); [|discriminate].
  intros H. inversion H; subst. apply span_length in E.
  simpl in E. lia.
Qed.

Lemma punct_then_letter_shrinking : shrinking Re.punct_then_letter.
Proof.
  intros s groups rest. unfold Re.punct_then_letter.
  destruct s as [|p [|l s]]; try discriminate.
  destruct (Re.is_punct p && Re.is_alpha l); [|discriminate].
  intros H. inversion H; subst. simpl. lia.
Qed.

Lemma sentence_end_shrinking : shrinking Re.sentence_end.
Proof.
  intros s groups rest. unfold Re.sentence_end.
  destruct (Py.span Re.is_terminal s) as [run rest1] eqn:E1.
  destruct (Py.span Py.isspace rest1) as [ws rest2] eqn:E2.
  destruct run as [|c run]; [discriminate|].
  destruct ws as [|d ws]; [discriminate|].
  intros H. inversion H; subst.
  apply span_length in E1. apply span_length in E2. simpl in *. lia.
Qed.

Lemma sentence_end_covering : covering Re.sentence_end.
Proof.
  intros s groups rest. unfold Re.sentence_end.
  destruct (Py.span Re.is_terminal s) as [run rest1] eqn:E1.
  destruct (Py.span Py.isspace rest1) as [ws rest2] eqn:E2.
  destruct run as [|c run]; [discriminate|].
  destruct ws as [|d ws]; [discriminate|].
  intros H. inversion H; subst.
  apply span_app in E1. apply span_app in E2. subst.
  simpl. rewrite app_nil_r. now rewrite <- app_assoc.
Qed.

(** With a shrinking pattern the scans never run out of steps: any two
    budgets of at least [length s] give the same result. *)
Lemma sub_fuel_enough (m : Re.matcher) (repl : list str -> str) :
  shrinking m ->
  forall n k s, length s <= n -> length s <= k ->
    Re.sub_fuel m repl n s = Re.sub_fuel m repl k s.
Proof.
  intros Hm. induction n as [|n IH]; intros k s Hn Hk.
  - destruct s; [|simpl in Hn; lia]. now destruct k.
  - destruct k as [|k].
    + destruct s; [reflexivity | simpl in Hk; lia].
    + destruct s as [|c r]; [reflexivity|]. simpl.
      destruct (m (c :: r)) as [[groups rest]|] eqn:E.
      * f_equal. apply Hm in E. simpl in *. apply IH; lia.
      * f_equal. simpl in *. apply IH; lia.
Qed.

Lemma sub_cons (m : Re.matcher) (repl : list str -> str) (c : N) (r : str) :
  shrinking m ->
  Re.sub m repl (c :: r) =
    match m (c :: r) with
    | Some (groups, rest) => repl groups ++ Re.sub m repl rest
    | None => c :: Re.sub m repl r
    end.
Proof.
  intros Hm. unfold Re.sub. cbn [length Re.sub_fuel].
  destruct (m (c :: r)) as [[groups rest]|] eqn:E; [|reflexivity].
  f_equal. apply Hm in E. simpl in E. apply sub_fuel_enough; [exact Hm|lia|lia].
Qed.

Lemma split_fuel_enough (m : Re.matcher) :
  shrinking m ->
  forall n k cur s, length s <= n -> length s <= k ->
    Re.split_fuel m n cur s = Re.split_fuel m k cur s.
Proof.
  intros Hm. induction n as [|n IH]; intros k cur s Hn Hk.
  - destruct s; [|simpl in Hn; lia]. destruct k; simpl; [reflexivity|].
    now rewrite app_nil_r.
  - destruct k as [|k].
    + destruct s; [|simpl in Hk; lia]. simpl. now rewrite app_nil_r.
    + destruct s as [|c r]; [reflexivity|]. simpl.
      destruct (m (c :: r)) as [[groups rest]|] eqn:E.
      * do 2 f_equal. apply Hm in E. simpl in *. apply IH; lia.
      * simpl in *. apply IH; lia.
Qed.

(** [re.split] unfolded: the text up to the first match, the groups of
    that match, and the split of what follows. *)
Lemma split_fuel_cons (m : Re.matcher) (cur : str) (c : N) (r : str) :
  shrinking m ->
  Re.split_fuel m (length (c :: r)) cur (c :: r) =
    match m (c :: r) with
    | Some (groups, rest) => cur :: groups ++ Re.split m rest
    | None => Re.split_fuel m (length r) (cur ++ [c]) r
    end.
Proof.
  intros Hm. cbn [length Re.split_fuel].
  destruct (m (c :: r)) as [[groups rest]|] eqn:E; [|reflexivity].
  do 2 f_equal. apply Hm in E. simpl in E.
  apply split_fuel_enough; [exact Hm|lia|lia].
Qed.

(** The pieces of [re.split], in order, are the text. *)
Lemma split_fuel_concat (m : Re.matcher) :
  covering m ->
  forall n cur s, List.concat (Re.split_fuel m n cur s) = cur ++ s.
Proof.
  intros Hm. induction n as [|n IH]; intros cur s.
  - simpl. now rewrite app_nil_r.
  - destruct s as [|c r]; simpl.
    + reflexivity.
    + destruct (m (c :: r)) as [[groups rest]|] eqn:E.
      * simpl. rewrite concat_app, IH. simpl.
        apply Hm in E. now rewrite <- E.
      * rewrite IH. now rewrite <- app_assoc.
Qed.

Lemma split_concat (s : str) :
  List.concat (Re.split Re.sentence_end s) = s.
Proof.
  unfold Re.split. now rewrite split_fuel_concat by apply sentence_end_covering.
Qed.

(** [re.sub(r'([!?.]){2,}', r'\1', s)] drops every terminal character that
    is followed by another one. *)
Lemma sub_repeated_terminal (s : str) :
  Re.sub Re.repeated_terminal (Re.group 0) s = Spec.collapse_terminal s.
Proof.
  unfold Re.sub.
  assert (H : forall n s, length s <= n ->
            Re.sub_fuel Re.repeated_terminal (Re.group 0) n s
            = Spec.collapse_terminal s).
  { clear s. induction n as [|n IH]; intros s Hn.
    - destruct s; [reflexivity | simpl in Hn; lia].
    - destruct s as [|c r]; [reflexivity|].
      cbn [Re.sub_fuel]. unfold Re.repeated_terminal.
      destruct (Py.span Re.is_terminal (c :: r)) as [run rest] eqn:E.
      pose proof (span_app _ _ _ _ E) as Happ.
      pose proof (span_all _ _ _ _ E) as Hall.
      pose proof (span_rest _ _ _ _ E) as Hrest.
      pose proof (span_length _ _ _ _ E) as Hlen.
      destruct (2 <=? length run)%nat eqn:H2.
      + apply Nat.leb_le in H2.
        rewrite Happ. rewrite collapse_terminal_run;
          [|destruct run; [simpl in H2; lia | discriminate]|exact Hall
           |exact Hrest].
        unfold Re.group. cbn [nth app]. f_equal.
        apply IH. simpl in Hn, Hlen. lia.
      + apply Nat.leb_gt in H2. simpl in Hn.
        rewrite IH by lia. cbn [Spec.collapse_terminal].
        simpl in E. destruct (Re.is_terminal c) eqn:Hc; [|reflexivity].
        destruct (Py.span Re.is_terminal r) as [a b] eqn:Er.
        inversion E; subst. simpl in H2.
        destruct a; [|simpl in H2; lia].
        apply span_app in Er. simpl in Er. subst r.
        simpl. now rewrite Hrest. }
  now apply H.
Qed.

End ReFacts.

(* ===================================================================== *)
(** * Facts about [preprocess_text] *)
(* ===================================================================== *)

Section PreprocessFacts.

(** On a non-empty text, the result is the words of the text, each with
    its runs of terminal characters collapsed, joined by single spaces. *)
Lemma preprocess_text_words (text : str) :
  text <> [] ->
  preprocess_text text
  = Py.join [32%N] (List.map Spec.collapse_terminal (Py.split text)).
Proof.
  intros Hne. unfold preprocess_text.
  destruct text as [|c r]; [congruence|]. cbn [Py.truthy negb].
  rewrite sub_repeated_terminal, collapse_terminal_join.
  apply strip_join, collapse_terminal_words, split_words.
Qed.

Lemma preprocess_text_empty : preprocess_text [] = [].
Proof. reflexivity. Qed.

(** Whitespace runs collapsed, seen through [split]: a leading space if
    the text starts with whitespace, the words joined by single spaces,
    and at most one trailing space. *)
Lemma collapse_whitespace_split (s : str) :
  (forall cur, word cur ->
     exists t, forallb Py.isspace t = true /\
       cur ++ Spec.collapse_whitespace s
       = Py.join [32%N] (Py.split_from cur s) ++ t) /\
  (exists t, forallb Py.isspace t = true /\
     Spec.collapse_whitespace s
     = (if Spec.starts_with Py.isspace s then [32%N] else [])
       ++ Py.join [32%N] (Py.split s) ++ t).
Proof.
  induction s as [|c r [IHcur IH0]].
  - split.
    + intros cur [Hne _]. exists []. split; [reflexivity|].
      simpl. destruct cur; [congruence|]. now rewrite !app_nil_r.
    + exists []. split; reflexivity.
  - destruct (Py.isspace c) eqn:Hc.
    + (* the run goes on, or ends here *)
      destruct IH0 as (t0 & Ht0 & E0).
      split.
      * intros cur Hcur. pose proof Hcur as [Hne Hcl].
        cbn [Spec.collapse_whitespace Py.split_from]. rewrite Hc.
        assert (Hsplit : Py.split_from cur (c :: r)
                         = cur :: Py.split_from [] r).
        { simpl. rewrite Hc. destruct cur; [congruence | reflexivity]. }
        replace (match cur with
                 | [] => Py.split_from [] r
                 | _ :: _ => cur :: Py.split_from [] r
                 end) with (cur :: Py.split_from [] r)
          by (destruct cur; [congruence | reflexivity]).
        destruct (Spec.starts_with Py.isspace r) eqn:Hr.
        -- destruct (IHcur cur Hcur) as (t & Ht & E).
           exists t. split; [exact Ht|]. rewrite E.
           destruct r as [|d r']; [discriminate|]. simpl in Hr.
           simpl. rewrite Hr. destruct cur; [congruence | reflexivity].
        -- rewrite E0. cbn [app]. fold (Py.split r).
           destruct (Py.split r) as [|t1 ts] eqn:Es.
           ++ exists (32%N :: t0). split; [simpl; exact Ht0|].
              reflexivity.
           ++ exists t0. split; [exact Ht0|].
              rewrite (join_cons _ cur (t1 :: ts)) by discriminate.
              now rewrite <- !app_assoc.
      * cbn [Spec.collapse_whitespace Spec.starts_with]. rewrite Hc.
        assert (Hs : Py.split (c :: r) = Py.split r).
        { unfold Py.split. simpl. now rewrite Hc. }
        rewrite Hs.
        destruct (Spec.starts_with Py.isspace r) eqn:Hr.
        -- exists t0. split; [exact Ht0 | exact E0].
        -- exists t0. split; [exact Ht0|]. now rewrite E0.
    + (* a word character *)
      split.
      * intros cur [Hne Hcl].
        cbn [Spec.collapse_whitespace Py.split_from]. rewrite Hc.
        destruct (IHcur (cur ++ [c])) as (t & Ht & E).
        { split; [destruct cur; discriminate|].
          apply clean_app; [exact Hcl|]. unfold clean. simpl.
          now rewrite Hc. }
        exists t. split; [exact Ht|]. rewrite <- E.
        now rewrite <- app_assoc.
      * cbn [Spec.collapse_whitespace Spec.starts_with]. rewrite Hc.
        destruct (IHcur [c]) as (t & Ht & E).
        { split; [discriminate|]. unfold clean. simpl. now rewrite Hc. }
        exists t. split; [exact Ht|].
        unfold Py.split. cbn [Py.split_from]. rewrite Hc. exact E.
Qed.

(** The source's three steps are the three steps of the specification. *)
Lemma preprocess_refines_Normalize (text : str) :
  preprocess_text text = Spec.Normalize text.
Proof.
  destruct text as [|c r] eqn:Et; [reflexivity|]. rewrite <- Et.
  rewrite preprocess_text_words by (subst; discriminate).
  unfold Spec.Normalize.
  destruct (collapse_whitespace_split text) as [_ (t & Ht & E)].
  rewrite E.
  set (lead := if Spec.starts_with Py.isspace text then [32%N] else []).
  assert (Hlead : forallb Py.isspace lead = true)
    by (unfold lead; destruct (Spec.starts_with Py.isspace text); reflexivity).
  assert (Hw : Forall word (List.map Spec.collapse_terminal (Py.split text))).
  { apply collapse_terminal_words, split_words. }
  rewrite collapse_terminal_after by now apply spaces_not_terminal.
  rewrite collapse_terminal_app.
  - rewrite (collapse_terminal_without t) by now apply spaces_not_terminal.
    rewrite collapse_terminal_join.
    change (Spec.trim ?x) with (Py.strip x).
    symmetry. apply strip_padded; [exact Hlead | exact Ht| |].
    + now apply join_starts.
    + now apply join_ends.
  - destruct t as [|d t]; [reflexivity|]. simpl in *.
    apply andb_true_iff in Ht as [Hd _]. now apply space_not_terminal.
Qed.

End PreprocessFacts.

Section PreprocessShape.

Lemma clean_no_adjacent (t x : str) :
  clean t -> Spec.no_adjacent Py.isspace x = true ->
  Spec.no_adjacent Py.isspace (t ++ x) = true.
Proof.
  intros Ht Hn. induction t as [|c t IH]; [exact Hn|].
  unfold clean in Ht. cbn [forallb] in Ht.
  apply andb_true_iff in Ht as [Hc Ht]. apply negb_true_iff in Hc.
  cbn [app Spec.no_adjacent]. rewrite Hc. simpl. now apply IH.
Qed.

Lemma join_no_adjacent (ts : list str) :
  Forall word ts ->
  Spec.no_adjacent Py.isspace (Py.join [32%N] ts) = true.
Proof.
  induction 1 as [|t ts [Hne Hcl] Hts IH]; [reflexivity|].
  destruct ts as [|t' ts'].
  - simpl. rewrite <- (app_nil_r t). now apply clean_no_adjacent.
  - rewrite join_cons by discriminate.
    pose proof (join_starts _ Hts) as Hs.
    apply clean_no_adjacent; [exact Hcl|].
    cbn [app Spec.no_adjacent]. rewrite Hs, IH. reflexivity.
Qed.

(** Every whitespace character of a join of words is the separator. *)
Lemma join_only_spaces (ts : list str) :
  Forall word ts ->
  forallb (fun c => negb (Py.isspace c) || (c =? 32)%N)
    (Py.join [32%N] ts) = true.
Proof.
  assert (Hw : forall t, clean t ->
            forallb (fun c => negb (Py.isspace c) || (c =? 32)%N) t = true).
  { induction t as [|c t IHt]; [reflexivity|]. unfold clean. simpl.
    intros H. apply andb_true_iff in H as [Hc H]. rewrite Hc. simpl.
    now apply IHt. }
  induction 1 as [|t ts [Hne Hcl] Hts IH]; [reflexivity|].
  destruct ts as [|t' ts'].
  - now apply Hw.
  - rewrite join_cons by discriminate. rewrite !forallb_app.
    rewrite (Hw t Hcl), IH. reflexivity.
Qed.

End PreprocessShape.

(* ===================================================================== *)
(** * Normalization: claims C4 and C8 *)
(* ===================================================================== *)

Lemma preprocess_text_shape (text : str) :
  Spec.starts_with Py.isspace (preprocess_text text) = false /\
  ends_clean (preprocess_text text) /\
  Spec.no_adjacent Py.isspace (preprocess_text text) = true /\
  forallb (fun c => negb (Py.isspace c) || (c =? 32)%N)
    (preprocess_text text) = true /\
  Spec.no_adjacent Re.is_terminal (preprocess_text text) = true.
Proof.
  destruct text as [|c r] eqn:Et; [repeat split|]. rewrite <- Et.
  rewrite preprocess_text_words by (subst; discriminate).
  pose proof (collapse_terminal_words _ (split_words text)) as Hw.
  repeat split.
  - now apply join_starts.
  - now apply join_ends.
  - now apply join_no_adjacent.
  - now apply join_only_spaces.
  - rewrite <- collapse_terminal_join. apply collapse_terminal_clears.
Qed.

(** A run of one terminal character repeated inside a word is replaced by
    one copy of that character. *)
Lemma preprocess_text_repeated (a b : str) (c : N) (n : nat) :
  Re.is_terminal c = true -> 2 <= n ->
  clean a -> clean b ->
  forallb (fun x => negb (Re.is_terminal x)) a = true ->
  forallb (fun x => negb (Re.is_terminal x)) b = true ->
  preprocess_text (a ++ repeat c n ++ b) = a ++ c :: b.
Proof.
  intros Hc Hn Ha Hb Hta Htb.
  assert (Hcs : Py.isspace c = false).
  { destruct (Py.isspace c) eqn:E; [|reflexivity].
    apply space_not_terminal in E. congruence. }
  assert (Hrep : clean (repeat c n)).
  { unfold clean. clear Hn. induction n as [|n IH]; [reflexivity|].
    simpl. now rewrite Hcs. }
  assert (Hne : a ++ repeat c n ++ b <> []).
  { destruct n as [|n]; [lia|]. destruct a; discriminate. }
  rewrite preprocess_text_words by exact Hne.
  assert (Hsplit : Py.split (a ++ repeat c n ++ b) = [a ++ repeat c n ++ b]).
  { unfold Py.split. rewrite <- (app_nil_r (a ++ repeat c n ++ b)) at 1.
    rewrite split_from_clean by (repeat apply clean_app; assumption).
    simpl. destruct (a ++ repeat c n ++ b); [congruence | reflexivity]. }
  rewrite Hsplit. cbn [List.map Py.join].
  rewrite collapse_terminal_after by exact Hta. f_equal.
  rewrite collapse_terminal_run.
  - rewrite (collapse_terminal_without b) by exact Htb. f_equal.
    destruct n as [|n]; [lia|]. clear. induction n as [|n IH]; [reflexivity|].
    exact IH.
  - destruct n; [lia | discriminate].
  - clear Hn Hrep Hne Hsplit. induction n as [|n IH]; [reflexivity|].
    simpl. now rewrite Hc.
  - destruct b as [|d b]; [reflexivity|]. simpl in *.
    apply andb_true_iff in Htb as [Hd _]. now apply negb_true_iff in Hd.
Qed.

(** C4 -- Normalize is idempotent: for every string [x],
    [preprocess_text (preprocess_text x) = preprocess_text x]. *)
Theorem preprocess_text_idempotent (x : str) :
  preprocess_text (preprocess_text x) = preprocess_text x.
Proof.
  destruct x as [|c r] eqn:Ex; [reflexivity|]. rewrite <- Ex.
  rewrite (preprocess_text_words x) by (subst; discriminate).
  set (ts := List.map Spec.collapse_terminal (Py.split x)).
  assert (Hw : Forall word ts)
    by apply collapse_terminal_words, split_words.
  destruct (Py.join [32%N] ts) as [|d y] eqn:Ej; [reflexivity|].
  rewrite <- Ej. rewrite preprocess_text_words by (rewrite Ej; discriminate).
  rewrite split_join by exact Hw. f_equal.
  unfold ts. rewrite List.map_map. apply List.map_ext.
  intros t. apply collapse_terminal_idempotent.
Qed.

(** C8 -- Normalize: [preprocess_text] computes the specification's
    [Normalize]: every run of whitespace becomes a single space, every run
    of two or more terminal punctuation characters from {!, ?, .} becomes
    a single one, and whitespace at the two ends is removed.  Its result
    neither starts nor ends with whitespace, has no two adjacent
    whitespace characters and no whitespace other than U+0020, and has no
    two adjacent terminal punctuation characters.  The empty string is
    returned unchanged, and Normalize("Hello!!!  world") is
    "Hello! world". *)
Theorem preprocess_text_normalize :
  (forall text, preprocess_text text = Spec.Normalize text) /\
  (forall text,
     Spec.starts_with Py.isspace (preprocess_text text) = false /\
     ends_clean (preprocess_text text) /\
     Spec.no_adjacent Py.isspace (preprocess_text text) = true /\
     forallb (fun c => negb (Py.isspace c) || (c =? 32)%N)
       (preprocess_text text) = true /\
     Spec.no_adjacent Re.is_terminal (preprocess_text text) = true) /\
  preprocess_text [] = [] /\
  preprocess_text (Py.lit "Hello!!!  world") = Py.lit "Hello! world".
Proof.
  split; [exact preprocess_refines_Normalize|].
  split; [exact preprocess_text_shape|].
  split; reflexivity.
Qed.

(* ===================================================================== *)
(** * Segmentation: claim C7 *)
(* ===================================================================== *)

Section ChunkFacts.

Variable max_length : Z.

Lemma list_pair_ind {A : Type} (P : list A -> Prop) :
  P [] -> (forall a, P [a]) -> (forall a b l, P l -> P (a :: b :: l)) ->
  forall l, P l.
Proof.
  intros H0 H1 H2 l.
  assert (H : P l /\ forall a, P (a :: l)).
  { induction l as [|b l [IHl IHc]]; [split; [exact H0 | exact H1]|].
    split; [apply IHc|]. intros a. now apply H2. }
  exact (proj1 H).
Qed.

Lemma full_sentences_concat (sentences : list str) :
  List.concat (Spec.full_sentences sentences) = List.concat sentences.
Proof.
  induction sentences as [|a|a b l IH] using list_pair_ind.
  - reflexivity.
  - reflexivity.
  - cbn [Spec.full_sentences List.concat]. rewrite IH.
    now rewrite <- app_assoc.
Qed.

(** The loop of [chunk_text] packs the full sentences and strips every
    piece it closes. *)
Lemma chunk_loop_pack (sentences : list str) :
  forall pieces current,
    chunk_loop max_length sentences (List.map Py.strip pieces) current
    = (List.map Py.strip
         (fst (fold_left (Spec.pack_step max_length)
                 (Spec.full_sentences sentences) (pieces, current))),
       snd (fold_left (Spec.pack_step max_length)
              (Spec.full_sentences sentences) (pieces, current))).
Proof.
  induction sentences as [|a|a b l IH] using list_pair_ind;
    intros pieces current.
  - reflexivity.
  - cbn [chunk_loop Spec.full_sentences fold_left Spec.pack_step].
    rewrite app_nil_r.
    destruct (Py.len current + Py.len a <=? max_length)%Z; [reflexivity|].
    destruct (Py.truthy current); [|reflexivity].
    cbn [fst snd]. now rewrite List.map_app.
  - cbn [chunk_loop Spec.full_sentences fold_left Spec.pack_step].
    destruct (Py.len current + Py.len (a ++ b) <=? max_length)%Z.
    + apply IH.
    + destruct (Py.truthy current).
      * rewrite <- IH. now rewrite List.map_app.
      * apply IH.
Qed.

Lemma chunk_text_pack (text : str) :
  (max_length < Py.len text)%Z ->
  chunk_text text max_length
  = List.map Py.strip
      (Spec.pack max_length
         (Spec.full_sentences (Re.split Re.sentence_end text))).
Proof.
  intros Hlong. unfold chunk_text.
  destruct (Py.len text <=? max_length)%Z eqn:E;
    [apply Z.leb_le in E; lia|].
  pose proof (chunk_loop_pack (Re.split Re.sentence_end text) [] []) as H.
  cbn [List.map] in H. rewrite H. unfold Spec.pack, Spec.flush.
  destruct (fold_left _ _ _) as [pieces current]. cbn [fst snd].
  destruct (Py.truthy current); [|reflexivity].
  now rewrite List.map_app.
Qed.

(** Packing keeps the text and its order. *)
Lemma pack_concat (fulls : list str) :
  forall pieces current,
    List.concat
      (Spec.flush (fold_left (Spec.pack_step max_length) fulls
                     (pieces, current)))
    = List.concat pieces ++ current ++ List.concat fulls.
Proof.
  induction fulls as [|f fulls IH]; intros pieces current.
  - cbn [fold_left Spec.flush List.concat]. rewrite app_nil_r.
    destruct current as [|c cur]; cbn [Py.truthy].
    + now rewrite app_nil_r.
    + rewrite concat_app. cbn [List.concat]. now rewrite app_nil_r.
  - cbn [fold_left Spec.pack_step List.concat].
    destruct (Py.len current + Py.len f <=? max_length)%Z.
    + rewrite IH. now rewrite <- !app_assoc.
    + rewrite IH. destruct current as [|c cur]; cbn [Py.truthy].
      * reflexivity.
      * rewrite concat_app. cbn [List.concat].
        now rewrite app_nil_r, <- !app_assoc.
Qed.

(** Every piece fits, or is one full sentence on its own. *)
Lemma pack_bound (all : list str) (fulls : list str) :
  forall pieces current,
    (forall f, In f fulls -> In f all) ->
    Forall (fun p => (Py.len p <= max_length)%Z \/ In p all) pieces ->
    ((Py.len current <= max_length)%Z \/ In current all) ->
    Forall (fun p => (Py.len p <= max_length)%Z \/ In p all)
      (Spec.flush (fold_left (Spec.pack_step max_length) fulls
                     (pieces, current))).
Proof.
  induction fulls as [|f fulls IH]; intros pieces current Hin Hp Hc.
  - cbn [fold_left Spec.flush]. destruct (Py.truthy current); [|exact Hp].
    apply Forall_app. split; [exact Hp|]. now constructor.
  - cbn [fold_left Spec.pack_step].
    destruct (Py.len current + Py.len f <=? max_length)%Z eqn:E.
    + apply IH; [intros g Hg; apply Hin; now right | exact Hp|].
      left. apply Z.leb_le in E. unfold Py.len in *.
      rewrite length_app. lia.
    + apply IH; [intros g Hg; apply Hin; now right | |].
      * destruct (Py.truthy current); [|exact Hp].
        apply Forall_app. split; [exact Hp|]. now constructor.
      * right. apply Hin. now left.
Qed.

Lemma strip_all_trimmed (pieces : list str) :
  Forall2 Spec.trimmed_of (List.map Py.strip pieces) pieces.
Proof.
  induction pieces as [|p ps IH]; constructor;
    [apply strip_trimmed | exact IH].
Qed.

Lemma trimmed_length (chunk piece : str) :
  Spec.trimmed_of chunk piece -> (Py.len chunk <= Py.len piece)%Z.
Proof.
  intros (a & b & E & _). subst. unfold Py.len. rewrite !length_app. lia.
Qed.

End ChunkFacts.

(** The split of [chunk_text] finds the sentences of the text. *)
Section SentenceFacts.

Lemma terminal_not_space (c : N) :
  Re.is_terminal c = true -> Py.isspace c = false.
Proof.
  intros H. destruct (Py.isspace c) eqn:E; [|reflexivity].
  apply space_not_terminal in E. congruence.
Qed.

Lemma read_terminals (run : str) :
  forallb Re.is_terminal run = true ->
  forall cur rest,
    Spec.Sentences_from Spec.Terminal cur (run ++ rest)
    = Spec.Sentences_from Spec.Terminal (cur ++ run) rest.
Proof.
  induction run as [|c run IH]; intros Hrun cur rest.
  - now rewrite app_nil_r.
  - cbn [forallb] in Hrun. apply andb_true_iff in Hrun as [Hc Hrun].
    cbn [app Spec.Sentences_from]. rewrite (terminal_not_space c Hc).
    unfold Spec.phase_after. rewrite Hc. rewrite (IH Hrun).
    now rewrite <- app_assoc.
Qed.

Lemma read_gap (ws : str) :
  forallb Py.isspace ws = true ->
  forall cur rest,
    Spec.Sentences_from Spec.Gap cur (ws ++ rest)
    = Spec.Sentences_from Spec.Gap (cur ++ ws) rest.
Proof.
  induction ws as [|c ws IH]; intros Hws cur rest.
  - now rewrite app_nil_r.
  - cbn [forallb] in Hws. apply andb_true_iff in Hws as [Hc Hws].
    cbn [app Spec.Sentences_from]. rewrite Hc, (IH Hws).
    now rewrite <- app_assoc.
Qed.

(** A terminator is read as a whole, and the sentence ends behind it. *)
Lemma read_terminator (a b : N) (run ws cur rest : str) :
  forallb Re.is_terminal (a :: run) = true ->
  forallb Py.isspace (b :: ws) = true ->
  Spec.starts_with Py.isspace rest = false ->
  Spec.Sentences_from Spec.Body cur ((a :: run) ++ (b :: ws) ++ rest)
  = (cur ++ (a :: run) ++ (b :: ws)) :: Spec.Sentences_from Spec.Body [] rest.
Proof.
  intros Hrun Hws Hrest.
  pose proof Hrun as Ha. cbn [forallb] in Ha.
  apply andb_true_iff in Ha as [Ha Hrun'].
  pose proof Hws as Hb. cbn [forallb] in Hb.
  apply andb_true_iff in Hb as [Hb Hws'].
  cbn [app Spec.Sentences_from]. unfold Spec.phase_after at 1. rewrite Ha.
  rewrite (read_terminals run Hrun').
  cbn [app Spec.Sentences_from]. rewrite Hb.
  rewrite (read_gap ws Hws').
  replace ((((cur ++ [a]) ++ run) ++ [b]) ++ ws)
    with (cur ++ a :: run ++ b :: ws)
    by (rewrite <- !app_assoc; reflexivity).
  destruct rest as [|c r].
  - cbn [Spec.Sentences_from Spec.last_sentence].
    destruct (cur ++ a :: run ++ b :: ws) eqn:E; [|reflexivity].
    destruct cur; discriminate.
  - cbn [Spec.starts_with] in Hrest.
    cbn [Spec.Sentences_from app]. now rewrite Hrest.
Qed.

(** Where no terminator begins, a terminal character is not followed by
    whitespace. *)
Lemma sentence_end_none (c : N) (r : str) :
  Re.sentence_end (c :: r) = None -> Re.is_terminal c = true ->
  Spec.starts_with Py.isspace r = false.
Proof.
  intros E Hc. destruct r as [|d r]; [reflexivity|].
  cbn [Spec.starts_with]. destruct (Py.isspace d) eqn:Hd; [|reflexivity].
  exfalso. revert E. unfold Re.sentence_end. cbn [Py.span]. rewrite Hc.
  rewrite (space_not_terminal d Hd). cbn [Py.span]. rewrite Hd.
  destruct (Py.span Py.isspace r). discriminate.
Qed.

Lemma split_fuel_Sentences (n : nat) :
  forall cur s, length s <= n ->
    List.filter Py.truthy
      (Spec.full_sentences (Re.split_fuel Re.sentence_end n cur s))
    = Spec.Sentences_from Spec.Body cur s.
Proof.
  induction n as [|n IH]; intros cur s Hn.
  - destruct s; [|simpl in Hn; lia].
    cbn [Re.split_fuel Spec.full_sentences]. rewrite app_nil_r.
    now destruct cur.
  - destruct s as [|c r]; [now destruct cur|].
    cbn [Re.split_fuel].
    destruct (Re.sentence_end (c :: r)) as [[groups rest]|] eqn:E.
    + pose proof (sentence_end_shrinking _ _ _ E) as Hlt.
      revert E. unfold Re.sentence_end.
      destruct (Py.span Re.is_terminal (c :: r)) as [run rest1] eqn:E1.
      destruct (Py.span Py.isspace rest1) as [ws rest2] eqn:E2.
      destruct run as [|a run]; [discriminate|].
      destruct ws as [|b ws]; [discriminate|].
      intros E. inversion E; subst groups rest. clear E.
      rewrite (span_app _ _ _ _ E1), (span_app _ _ _ _ E2).
      rewrite (read_terminator a b run ws cur rest2
                 (span_all _ _ _ _ E1) (span_all _ _ _ _ E2)
                 (span_rest _ _ _ _ E2)).
      cbn [app Spec.full_sentences List.filter].
      rewrite <- (IH [] rest2) by (simpl in Hn, Hlt; lia).
      destruct (cur ++ a :: run ++ b :: ws) eqn:Ec;
        [destruct cur; discriminate|].
      reflexivity.
    + rewrite (IH (cur ++ [c]) r) by (simpl in Hn; lia).
      cbn [Spec.Sentences_from]. unfold Spec.phase_after.
      destruct (Re.is_terminal c) eqn:Hc; [|reflexivity].
      pose proof (sentence_end_none c r E Hc) as Hr.
      destruct r as [|d r]; [reflexivity|].
      cbn [Spec.starts_with] in Hr.
      cbn [Spec.Sentences_from]. now rewrite Hr.
Qed.

Lemma split_Sentences (text : str) :
  List.filter Py.truthy
    (Spec.full_sentences (Re.split Re.sentence_end text))
  = Spec.Sentences text.
Proof. unfold Re.split, Spec.Sentences. now apply split_fuel_Sentences. Qed.

Lemma concat_truthy (l : list str) :
  List.concat (List.filter Py.truthy l) = List.concat l.
Proof.
  induction l as [|a l IH]; [reflexivity|].
  destruct a; cbn [List.filter Py.truthy List.concat]; now rewrite IH.
Qed.

Lemma Sentences_concat (text : str) :
  List.concat (Spec.Sentences text) = text.
Proof.
  rewrite <- split_Sentences, concat_truthy, full_sentences_concat.
  apply split_concat.
Qed.

End SentenceFacts.

(** C7 -- Segmentation: for every text and every [max_length >= 1],
    [chunk_text] returns a non-empty list; it is [[text]] when the text is
    no longer than [max_length]; the text is the concatenation, in order,
    of pieces of which the chunks are the whitespace-trimmed forms (so the
    chunks reproduce the text up to whitespace at chunk boundaries); and
    every chunk has length at most [max_length] unless it is one sentence
    of the text (with its terminator) that is too long on its own.  The
    sentences are those of the specification: the text cut behind every
    run of [.!?] that is followed by whitespace, after that whitespace. *)
Theorem chunk_text_segments (text : str) (max_length : Z) :
  (1 <= max_length)%Z ->
  let chunks := chunk_text text max_length in
  let sentences := Spec.Sentences text in
  chunks <> [] /\
  ((Py.len text <= max_length)%Z -> chunks = [text]) /\
  List.concat sentences = text /\
  (exists pieces,
     List.concat pieces = text /\
     Forall2 Spec.trimmed_of chunks pieces /\
     Forall (fun piece => (Py.len piece <= max_length)%Z \/
                          In piece sentences) pieces) /\
  (forall chunk, In chunk chunks ->
     (Py.len chunk <= max_length)%Z \/
     exists sentence, In sentence sentences /\ chunk = Py.strip sentence).
Proof.
  intros Hmax chunks sentences.
  assert (Hshort : (Py.len text <= max_length)%Z -> chunks = [text]).
  { intros H. unfold chunks, chunk_text.
    apply Z.leb_le in H. now rewrite H. }
  assert (Hall : List.concat sentences = text) by apply Sentences_concat.
  destruct (Z.le_gt_cases (Py.len text) max_length) as [Hle|Hgt].
  - (* a short text is its own chunk *)
    rewrite (Hshort Hle).
    split; [discriminate|]. split; [reflexivity|]. split; [exact Hall|].
    split.
    + exists [text]. repeat split.
      * simpl. now rewrite app_nil_r.
      * constructor; [|constructor]. exists [], [].
        repeat split. simpl. now rewrite app_nil_r.
      * constructor; [now left | constructor].
    + intros chunk [<-|[]]. now left.
  - (* a long text is packed sentence by sentence *)
    pose proof (chunk_text_pack max_length text Hgt) as Hpack.
    fold chunks in Hpack.
    set (fulls := Spec.full_sentences (Re.split Re.sentence_end text)) in *.
    set (pieces := Spec.pack max_length fulls) in *.
    assert (Hconcat : List.concat pieces = text).
    { unfold pieces, Spec.pack. rewrite pack_concat. simpl.
      unfold fulls. rewrite full_sentences_concat.
      apply split_concat. }
    assert (Hfulls : Forall (fun piece => (Py.len piece <= max_length)%Z \/
                                          In piece fulls) pieces).
    { unfold pieces, Spec.pack. apply pack_bound.
      - auto.
      - constructor.
      - left. unfold Py.len. simpl. lia. }
    assert (Hbound : Forall (fun piece => (Py.len piece <= max_length)%Z \/
                                          In piece sentences) pieces).
    { eapply Forall_impl; [exact Hfulls|]. cbv beta.
      intros piece [Hfit|Hone]; [now left|].
      destruct piece as [|c piece]; [left; unfold Py.len; simpl; lia|].
      right. unfold sentences. rewrite <- split_Sentences.
      apply filter_In. split; [exact Hone | reflexivity]. }
    assert (Htrim : Forall2 Spec.trimmed_of chunks pieces).
    { rewrite Hpack. apply strip_all_trimmed. }
    split.
    { intros E. rewrite Hpack in E. apply List.map_eq_nil in E.
      rewrite E in Hconcat. simpl in Hconcat. rewrite <- Hconcat in Hgt.
      unfold Py.len in Hgt. simpl in Hgt. lia. }
    split; [exact Hshort|]. split; [exact Hall|]. split.
    + exists pieces. repeat split; assumption.
    + intros chunk Hin. rewrite Hpack in Hin.
      apply in_map_iff in Hin as (piece & <- & Hin).
      rewrite Forall_forall in Hbound.
      destruct (Hbound piece) as [Hfit|Hone].
      * now apply list_elem_of_In.
      * left. pose proof (trimmed_length _ _ (strip_trimmed piece)). lia.
      * right. exists piece. split; [exact Hone | reflexivity].
Qed.

(* ===================================================================== *)
(** * The methods, call by call *)
(* ===================================================================== *)

Section Runs.

Variable w : World.

Lemma get_run (t s d : str) (p : Process) :
  TranslationCache.get w t s d p
  = (Ok (get_value w (cache p) t s d), with_trace p [CacheGet t s d]).
Proof.
  unfold TranslationCache.get, get_value, bind, emit, modify, gets, try_except,
    lift, ret, with_trace. cbn [cache].
  destruct (redis_client (cache p)) as [keys|]; [|reflexivity].
  destruct (TranslationCache._generate_key t s d) as [key|e]; [|reflexivity].
  destruct (Redis.get w keys key) as [[value|]|e]; try reflexivity.
  destruct (Py.truthy value); reflexivity.
Qed.

Lemma set_run (t s d v : str) (p : Process) :
  TranslationCache.set w t s d v p
  = (Ok (fst (store w (cache p) t s d v)),
     {| translator := translator p;
        cache := snd (store w (cache p) t s d v);
        counters := counters p;
        trace := trace p ++ [CacheSet t s d v] |}).
Proof.
  unfold TranslationCache.set, store, bind, emit, modify, gets, try_except,
    lift, ret, put_cache. cbn [cache translator counters trace].
  destruct p as [tr c cs evs]. cbn [cache translator counters trace].
  destruct c as [client life]. cbn [redis_client ttl].
  destruct client as [keys|]; [|reflexivity].
  destruct (TranslationCache._generate_key t s d) as [key|e]; [|reflexivity].
  destruct (Redis.setex w keys key life v) as [keys'|e]; reflexivity.
Qed.

Lemma _load_model_run (s d : str) (p : Process) :
  MarianTranslator._load_model w s d p
  = (fst (fst (load w (translator p) s d)),
     {| translator := snd (fst (load w (translator p) s d));
        cache := cache p;
        counters := counters p;
        trace := trace p ++ snd (load w (translator p) s d) |}).
Proof.
  unfold MarianTranslator._load_model, load, bind, emit, modify, gets, raise,
    ret, put_translator.
  destruct p as [tr c cs evs]. cbn [cache translator counters trace].
  destruct (models tr !! (s, d)) as [m|];
    [cbn; now rewrite app_nil_r|].
  destruct (MarianTranslator._get_model_name s d) as [name|];
    [|cbn; now rewrite app_nil_r].
  destruct (negb (Py.truthy name)); [cbn; now rewrite app_nil_r|].
  destruct (from_pretrained w name); reflexivity.
Qed.

Lemma translate_run (t s d : str) (p : Process) :
  MarianTranslator.translate w t s d p
  = (fst (fst (run_engine w (translator p) t s d)),
     {| translator := snd (fst (run_engine w (translator p) t s d));
        cache := cache p;
        counters := counters p;
        trace := trace p ++ snd (run_engine w (translator p) t s d) |}).
Proof.
  unfold MarianTranslator.translate, run_engine.
  unfold bind at 1. unfold emit, modify. unfold bind at 1. unfold gets at 1.
  cbn [translator]. unfold bind at 1.
  destruct (models (translator p) !! (s, d)) as [m|] eqn:Em.
  - unfold ret at 1. unfold bind, gets, raise, ret, lift.
    cbn [translator cache counters trace]. rewrite Em.
    destruct (tokenizers (translator p) !! (s, d));
      cbn [fst snd]; reflexivity.
  - rewrite _load_model_run. cbn [translator cache counters trace].
    destruct (load w (translator p) s d) as [[r tr1] evs].
    cbn [fst snd]. destruct r as [[]|e].
    + unfold bind, gets, raise, ret, lift.
      cbn [translator cache counters trace].
      destruct (tokenizers tr1 !! (s, d)); cbn [fst snd].
      * destruct (models tr1 !! (s, d)); cbn [fst snd];
          now rewrite <- app_assoc.
      * now rewrite <- app_assoc.
    + cbn [fst snd]. now rewrite <- app_assoc.
Qed.

End Runs.

Section HandlerRuns.

Variable upper : N -> str.
Variable w : World.

(** The handler returns a response whatever happens. *)
Lemma translate_returns (data : option Request) (p : Process) :
  exists r p', translate upper w data p = (Ok r, p').
Proof.
  unfold translate, try_except.
  destruct (_ p) as [[r|e] p'] eqn:E.
  - now exists r, p'.
  - unfold ret. now eexists _, _.
Qed.

Lemma handler_run (r : Request) (t s d : str) (p : Process) :
  validated w r t s d ->
  translate upper w (Some r) p
  = (Ok (fst (serve w upper p t s d)), snd (serve w upper p t s d)).
Proof.
  intros (Ht & Hs & Hd & Hne & Hlen & Hpair).
  assert (Hs' : Py.truthy s = true /\ Py.truthy d = true).
  { unfold SUPPORTED_PAIRS in Hpair.
    apply list_elem_of_In in Hpair. simpl in Hpair.
    destruct Hpair as [E|[E|[]]]; inversion E; subst; split; reflexivity. }
  destruct Hs' as [Hts Htd].
  unfold translate. rewrite Ht, Hs, Hd.
  assert (Htt : Py.truthy t = true) by (destruct t; [congruence|reflexivity]).
  rewrite Htt, Hts, Htd. cbn [negb orb].
  assert (Hmax : (max_length w <? Py.len t)%Z = false)
    by (apply Z.ltb_ge; exact Hlen).
  rewrite Hmax. rewrite (bool_decide_eq_true_2 _ Hpair). cbn [negb].
  unfold try_except, serve. unfold bind at 1. rewrite get_run.
  destruct (get_value w (cache p) t s d) as [cached|].
  - reflexivity.
  - unfold bind at 1. unfold update_counters at 1, modify at 1.
    unfold bind at 1. rewrite translate_run.
    cbn [translator cache counters trace with_trace].
    destruct (run_engine w (translator p) (preprocess_text t) s d)
      as [[out tr] events].
    cbn [fst snd]. destruct out as [out|e].
    + unfold bind at 1. rewrite set_run.
      cbn [translator cache counters trace].
      unfold bind, update_counters, modify, ret.
      cbn [translator cache counters trace fst snd].
      now rewrite <- !app_assoc.
    + unfold ret. cbn [fst snd]. now rewrite <- app_assoc.
Qed.

End HandlerRuns.

(* ===================================================================== *)
(** * Validation: claim C5 *)
(* ===================================================================== *)

Section Validation.

Variable upper : N -> str.
Variable w : World.

(** A rejected request is answered at once, and nothing has changed. *)
Lemma reject_run (r : Request) (b : body) (p : Process) :
  rejection w r = Some b ->
  translate upper w (Some r) p = (Ok (b, 400%Z), p).
Proof.
  unfold rejection, translate, try_except, ret.
  destruct (text r) as [t|]; [|intros H; now inversion H].
  destruct (source_lang r) as [s|]; [|intros H; now inversion H].
  destruct (target_lang r) as [d|]; [|intros H; now inversion H].
  destruct (negb (Py.truthy t) || negb (Py.truthy s) || negb (Py.truthy d));
    [intros H; now inversion H|].
  destruct (max_length w <? Py.len t)%Z; [intros H; now inversion H|].
  destruct (negb (bool_decide ((s, d) ∈ SUPPORTED_PAIRS)));
    [intros H; now inversion H | discriminate].
Qed.

(** A request that is not rejected passed the three checks. *)
Lemma accept_validated (r : Request) :
  rejection w r = None -> exists t s d, validated w r t s d.
Proof.
  unfold rejection, validated.
  destruct (text r) as [t|]; [|discriminate].
  destruct (source_lang r) as [s|]; [|discriminate].
  destruct (target_lang r) as [d|]; [|discriminate].
  destruct (Py.truthy t) eqn:Et; [|discriminate].
  destruct (Py.truthy s); [|discriminate].
  destruct (Py.truthy d); [|discriminate]. cbn [negb orb].
  destruct (max_length w <? Py.len t)%Z eqn:El; [discriminate|].
  destruct (bool_decide ((s, d) ∈ SUPPORTED_PAIRS)) eqn:Ep; [|discriminate].
  intros _. exists t, s, d. repeat split.
  - intros ->. discriminate.
  - now apply Z.ltb_ge.
  - now apply bool_decide_eq_true in Ep.
Qed.

Lemma validated_accept (r : Request) (t s d : str) :
  validated w r t s d -> rejection w r = None.
Proof.
  intros (Ht & Hs & Hd & Hne & Hlen & Hpair). unfold rejection.
  rewrite Ht, Hs, Hd.
  assert (Hsd : Py.truthy s = true /\ Py.truthy d = true).
  { apply list_elem_of_In in Hpair. simpl in Hpair.
    destruct Hpair as [E|[E|[]]]; inversion E; subst; split; reflexivity. }
  destruct Hsd as [-> ->].
  destruct t; [congruence|]. cbn [Py.truthy negb orb].
  rewrite (proj2 (Z.ltb_ge _ _) Hlen).
  now rewrite (bool_decide_eq_true_2 _ Hpair).
Qed.

(** The error of a rejection names a check the request fails. *)
Lemma rejection_answers (r : Request) (b : body) :
  rejection w r = Some b -> answers_to w r b.
Proof.
  unfold rejection, answers_to, too_long, present.
  destruct (text r) as [t|]; [|intros H; now inversion H].
  destruct (source_lang r) as [s|];
    [|intros H; inversion H; now rewrite andb_false_r].
  destruct (target_lang r) as [d|];
    [|intros H; inversion H; now rewrite !andb_false_r].
  destruct (Py.truthy t), (Py.truthy s), (Py.truthy d); cbn [negb orb andb];
    try (intros H; now inversion H).
  destruct (max_length w <? Py.len t)%Z eqn:El.
  - intros H. inversion H. split; [reflexivity|].
    exists t. split; [reflexivity | now apply Z.ltb_lt].
  - destruct (bool_decide ((s, d) ∈ SUPPORTED_PAIRS)) eqn:Ep; [discriminate|].
    intros H. inversion H. repeat split.
    now apply bool_decide_eq_false in Ep.
Qed.

(** An invalid request is rejected. *)
Lemma invalid_rejected (r : Request) :
  empty_text r \/ too_long w r \/ unsupported_pair r ->
  exists b, rejection w r = Some b.
Proof.
  intros H. destruct (rejection w r) as [b|] eqn:E; [now exists b|].
  exfalso. apply accept_validated in E as (t & s & d & Hv).
  destruct Hv as (Ht & Hs & Hd & Hne & Hlen & Hpair).
  destruct H as [H|[H|H]].
  - unfold empty_text in H. rewrite Ht in H. simpl in H.
    destruct t; [congruence | discriminate].
  - destruct H as (t' & Ht' & Hl). rewrite Ht in Ht'. inversion Ht'; subst.
    lia.
  - now apply (H s d).
Qed.

End Validation.

(** C5 -- Validation precedes all side effects: a request whose text is
    empty, or longer than the configured maximum, or whose language pair
    is not in the allow-list, is answered with status 400 and the error of
    a check it fails, and the process is exactly as before: no cache access
    and no engine access is recorded, and cache and registry are
    unchanged.  The checks are made in this order, so an empty text gives
    the missing-fields error, a too long text (all fields present) the
    too-long error, and an unsupported pair (fields present, length within
    the maximum) the unsupported-pair error with the list of supported
    pairs. *)
Theorem validation_precedes_effects (upper : N -> str) (w : World)
    (r : Request) (p : Process) :
  empty_text r \/ too_long w r \/ unsupported_pair r ->
  (exists b,
     translate upper w (Some r) p = (Ok (b, 400%Z), p) /\ answers_to w r b) /\
  (empty_text r ->
     translate upper w (Some r) p = (Ok (MissingFields, 400%Z), p)) /\
  (forall t s d,
     text r = Some t -> source_lang r = Some s -> target_lang r = Some d ->
     t <> [] -> s <> [] -> d <> [] ->
     ((max_length w < Py.len t)%Z ->
        translate upper w (Some r) p
        = (Ok (TextTooLong (max_length w), 400%Z), p)) /\
     ((Py.len t <= max_length w)%Z -> (s, d) ∉ SUPPORTED_PAIRS ->
        translate upper w (Some r) p
        = (Ok (UnsupportedPair s d SUPPORTED_PAIRS, 400%Z), p))).
Proof.
  intros Hbad. split; [|split].
  - destruct (invalid_rejected w r Hbad) as [b Hb].
    exists b. split; [now apply reject_run | now apply rejection_answers].
  - intros He. apply reject_run. unfold rejection, empty_text, present in *.
    destruct (text r) as [t|]; [|reflexivity].
    destruct (source_lang r) as [s|]; [|reflexivity].
    destruct (target_lang r) as [d|]; [|reflexivity].
    now rewrite He.
  - intros t s d Ht Hs Hd Hnt Hns Hnd.
    assert (Htr : forall x : str, x <> [] -> Py.truthy x = true)
      by (intros [|? ?]; [congruence | reflexivity]).
    split.
    + intros Hlong. apply reject_run. unfold rejection.
      rewrite Ht, Hs, Hd, !Htr by assumption. cbn [negb orb].
      now rewrite (proj2 (Z.ltb_lt _ _) Hlong).
    + intros Hfits Hpair. apply reject_run. unfold rejection.
      rewrite Ht, Hs, Hd, !Htr by assumption. cbn [negb orb].
      rewrite (proj2 (Z.ltb_ge _ _) Hfits).
      now rewrite (bool_decide_eq_false_2 _ Hpair).
Qed.

(* ===================================================================== *)
(** * Engine failures and cache failures: claims C6 and C2 *)
(* ===================================================================== *)

Section Failures.

Variable upper : N -> str.
Variable w : World.

Lemma model_names_truthy (s d name : str) :
  MarianTranslator._get_model_name s d = Some name -> Py.truthy name = true.
Proof.
  unfold MarianTranslator._get_model_name, MarianTranslator.model_map.
  cbn [MarianTranslator.dict_get].
  repeat case_decide; intros Hname; inversion Hname; reflexivity.
Qed.

Lemma load_events (tr : MarianTranslator) (s d : str) :
  forallb engine_event (snd (load w tr s d)) = true.
Proof.
  unfold load. destruct (models tr !! (s, d)); [reflexivity|].
  destruct (MarianTranslator._get_model_name s d) as [name|]; [|reflexivity].
  destruct (negb (Py.truthy name)); [reflexivity|].
  destruct (from_pretrained w name); reflexivity.
Qed.

(** Whatever the translator does, it only reaches the engine. *)
Lemma run_engine_events (tr : MarianTranslator) (t s d : str) :
  forallb engine_event (snd (run_engine w tr t s d)) = true.
Proof.
  unfold run_engine.
  destruct (models tr !! (s, d)) as [m|] eqn:Em.
  - rewrite Em. destruct (tokenizers tr !! (s, d)); reflexivity.
  - pose proof (load_events tr s d) as H.
    destruct (load w tr s d) as [[r tr1] events]. cbn [snd] in H.
    destruct r as [[]|e]; [|exact H].
    destruct (tokenizers tr1 !! (s, d)); [|exact H].
    destruct (models tr1 !! (s, d)); exact H.
Qed.

(** The engine's first event is the call itself. *)
Lemma run_engine_called (tr : MarianTranslator) (t s d : str) :
  exists events,
    snd (run_engine w tr t s d) = EngineTranslate t s d :: events.
Proof.
  unfold run_engine.
  destruct (match models tr !! (s, d) with
            | Some _ => (Ok tt, tr, [])
            | None => load w tr s d
            end) as [[r tr1] events].
  destruct r as [[]|e]; [|now eexists].
  destruct (tokenizers tr1 !! (s, d)); [|now eexists].
  destruct (models tr1 !! (s, d)); now eexists.
Qed.

(** The two ways the engine fails: the load raises, or the translation
    raises. *)
Lemma load_failure_raises (t s d name msg : str) (p : Process) :
  models (translator p) !! (s, d) = None ->
  MarianTranslator._get_model_name s d = Some name ->
  from_pretrained w name = Some msg ->
  fst (MarianTranslator.translate w t s d p) = Raise (EngineError msg).
Proof.
  intros Hm Hn Hl. rewrite translate_run. cbn [fst].
  unfold run_engine, load. rewrite Hm, Hn.
  rewrite (model_names_truthy _ _ _ Hn). cbn [negb]. now rewrite Hl.
Qed.

Lemma generate_failure_raises (t s d model tokenizer : str) (e : exn)
    (p : Process) :
  models (translator p) !! (s, d) = Some model ->
  tokenizers (translator p) !! (s, d) = Some tokenizer ->
  generate w model t = Raise e ->
  fst (MarianTranslator.translate w t s d p) = Raise e.
Proof.
  intros Hm Ht Hg. rewrite translate_run. cbn [fst].
  unfold run_engine. now rewrite Hm, Ht, Hm.
Qed.

(** [get] and [set] return, whatever the backend does. *)
Lemma get_never_raises (t s d : str) (p : Process) :
  exists v p', TranslationCache.get w t s d p = (Ok v, p').
Proof. rewrite get_run. now eexists _, _. Qed.

Lemma set_never_raises (t s d v : str) (p : Process) :
  exists b p', TranslationCache.set w t s d v p = (Ok b, p').
Proof. rewrite set_run. now eexists _, _. Qed.

Lemma unreachable_get (p : Process) (t s d : str) :
  cache_unreachable w p -> get_value w (cache p) t s d = None.
Proof.
  intros [H|[H _]]; unfold get_value.
  - now rewrite H.
  - destruct (redis_client (cache p)); [|reflexivity].
    destruct (TranslationCache._generate_key t s d); [|reflexivity].
    unfold Redis.get. destruct (redis_get_fails w); [reflexivity|congruence].
Qed.

Lemma unreachable_store (p : Process) (t s d v : str) :
  cache_unreachable w p -> store w (cache p) t s d v = (false, cache p).
Proof.
  intros [H|[_ H]]; unfold store.
  - now rewrite H.
  - destruct (redis_client (cache p)); [|reflexivity].
    destruct (TranslationCache._generate_key t s d); [|reflexivity].
    unfold Redis.setex.
    destruct (redis_setex_fails w); [reflexivity | congruence].
Qed.

(** A failed connection at construction leaves no client. *)
Lemma connect_failure_disables (CACHE_TTL : option Z) (e : exn)
    (p : Process) :
  cache p = TranslationCache.__init__ CACHE_TTL (Raise e) ->
  cache_unreachable w p.
Proof. intros H. left. now rewrite H. Qed.

(** Whatever the request, an answer other than 200 leaves the cache as it
    was. *)
Lemma error_response_keeps_cache (data : option Request) (p p' : Process)
    (b : body) (status : Z) :
  translate upper w data p = (Ok (b, status), p') ->
  status <> 200%Z ->
  cache p' = cache p.
Proof.
  destruct data as [r|].
  - destruct (rejection w r) as [b'|] eqn:Er.
    + rewrite (reject_run upper w r b' p Er). intros H. now inversion H.
    + apply accept_validated in Er as (t & s & d & Hv).
      rewrite (handler_run upper w r t s d p Hv). unfold serve.
      destruct (get_value w (cache p) t s d) as [cached|].
      * intros H. inversion H; subst. congruence.
      * destruct (run_engine w (translator p) (preprocess_text t) s d)
          as [[out tr] events].
        destruct out as [out|e]; intros H; inversion H; subst;
          [congruence | reflexivity].
  - unfold translate, try_except, ret. intros H. now inversion H.
Qed.

End Failures.

(** C6 -- Atomicity on engine failure: for a request that passed
    validation and missed the cache, if the engine raises [e] (while
    loading the model or while translating), the handler answers with
    status 500 and that error, the cache is as it was before the request,
    and after the lookup the request reached the engine only: nothing was
    written to the cache. *)
Theorem engine_failure_not_cached (upper : N -> str) (w : World)
    (r : Request) (t s d : str) (p : Process) (e : exn) :
  validated w r t s d ->
  fst (TranslationCache.get w t s d p) = Ok None ->
  fst (MarianTranslator.translate w (preprocess_text t) s d p) = Raise e ->
  exists p' events,
    translate upper w (Some r) p = (Ok (TranslationFailed e, 500%Z), p') /\
    cache p' = cache p /\
    trace p' = trace p ++ CacheGet t s d :: events /\
    forallb engine_event events = true.
Proof.
  intros Hv Hget Heng.
  rewrite get_run in Hget. cbn [fst] in Hget. inversion Hget as [Hmiss].
  rewrite translate_run in Heng. cbn [fst] in Heng.
  rewrite (handler_run upper w r t s d p Hv). unfold serve. rewrite Hmiss.
  pose proof (run_engine_events w (translator p) (preprocess_text t) s d)
    as Hev.
  destruct (run_engine w (translator p) (preprocess_text t) s d)
    as [[out tr] events].
  cbn [fst snd] in *. subst out.
  eexists _, events. repeat split. exact Hev.
Qed.

(** C2 -- Degrade-to-disabled cache: [get] and [set] never raise; when the
    backend is unreachable (no client since construction, or its commands
    raise), [get] returns [None] and [set] returns [False] and leaves the
    cache as it is; and a validated request is then answered by the engine
    alone: with the (post-processed) translation and status 200 when the
    engine succeeds, and otherwise with the engine's own error -- no error
    of the cache reaches the caller. *)
Theorem cache_failure_degrades (upper : N -> str) (w : World) (p : Process) :
  cache_unreachable w p ->
  (forall t s d,
     TranslationCache.get w t s d p
     = (Ok None, with_trace p [CacheGet t s d])) /\
  (forall t s d v,
     TranslationCache.set w t s d v p
     = (Ok false, with_trace p [CacheSet t s d v])) /\
  (forall r t s d,
     validated w r t s d ->
     match fst (MarianTranslator.translate w (preprocess_text t) s d p) with
     | Ok translated_text =>
         fst (translate upper w (Some r) p)
         = Ok (Translation (postprocess_text upper translated_text) s d
                 (Some (MarianTranslator.get_model_name s d)) false, 200%Z)
     | Raise e =>
         fst (translate upper w (Some r) p) = Ok (TranslationFailed e, 500%Z)
     end /\
     cache (snd (translate upper w (Some r) p)) = cache p).
Proof.
  intros Hdown. split; [|split].
  - intros t s d. rewrite get_run. now rewrite unreachable_get.
  - intros t s d v. rewrite set_run. rewrite unreachable_store by exact Hdown.
    destruct p; reflexivity.
  - intros r t s d Hv.
    rewrite translate_run. cbn [fst].
    rewrite (handler_run upper w r t s d p Hv). unfold serve.
    rewrite unreachable_get by exact Hdown.
    destruct (run_engine w (translator p) (preprocess_text t) s d)
      as [[out tr] events].
    cbn [fst snd]. destruct out as [out|e]; cbn [fst snd cache].
    + split; [reflexivity|]. now rewrite unreachable_store.
    + split; reflexivity.
Qed.

(* ===================================================================== *)
(** * The cache key: claim C3 *)
(* ===================================================================== *)

Section KeyFacts.

Local Open Scope N_scope.

Lemma utf8_char_scalar (c : N) :
  scalar_value c <-> exists bytes, Codec.utf8_char c = Some bytes.
Proof.
  unfold scalar_value, Codec.utf8_char. split.
  - intros H.
    destruct (N.ltb_spec c 0x80); [now eexists|].
    destruct (N.ltb_spec c 0x800); [now eexists|].
    destruct (N.ltb_spec c 0x10000).
    + destruct (N.leb_spec 0xD800 c); destruct (N.leb_spec c 0xDFFF);
        cbn [andb]; try (now eexists). lia.
    + destruct (N.ltb_spec c 0x110000); [now eexists | lia].
  - intros [bytes H].
    destruct (N.ltb_spec c 0x80); [lia|].
    destruct (N.ltb_spec c 0x800); [lia|].
    destruct (N.ltb_spec c 0x10000).
    + destruct (N.leb_spec 0xD800 c); destruct (N.leb_spec c 0xDFFF);
        cbn [andb] in H; try discriminate; lia.
    + destruct (N.ltb_spec c 0x110000); [lia | discriminate].
Qed.

(** [encode('utf-8')] succeeds exactly on strings of scalar values. *)
Lemma encode_utf8_scalar (s : str) :
  Forall scalar_value s <-> exists bytes, Codec.encode_utf8 s = Some bytes.
Proof.
  induction s as [|c r IH]; cbn [Codec.encode_utf8].
  - split; [now eexists | constructor].
  - split.
    + intros H. inversion H as [|? ? Hc Hr]; subst.
      apply utf8_char_scalar in Hc as [b ->].
      apply IH in Hr as [bs ->]. now eexists.
    + intros [bytes H].
      destruct (Codec.utf8_char c) as [b|] eqn:Ec; [|discriminate].
      destruct (Codec.encode_utf8 r) as [bs|] eqn:Er; [|discriminate].
      constructor.
      * apply utf8_char_scalar. now exists b.
      * apply IH. now exists bs.
Qed.

Lemma encode_utf8_ascii (s : str) :
  Forall (fun c => c < 128) s -> Redis.encodable s = true.
Proof.
  intros H. unfold Redis.encodable.
  assert (Hs : Forall scalar_value s).
  { eapply Forall_impl; [exact H|]. intros c Hc. cbv beta in Hc.
    unfold scalar_value. lia. }
  apply encode_utf8_scalar in Hs as [bytes ->]. reflexivity.
Qed.

Lemma hex_digit_hex (x : N) : x < 16 -> is_hex (Md5.hex_digit x) = true.
Proof.
  intros H. unfold Md5.hex_digit, is_hex.
  destruct (N.ltb_spec x 10).
  - replace (48 <=? 48 + x) with true by (symmetry; apply N.leb_le; lia).
    replace (48 + x <=? 57) with true by (symmetry; apply N.leb_le; lia).
    reflexivity.
  - replace (97 <=? 87 + x) with true by (symmetry; apply N.leb_le; lia).
    replace (87 + x <=? 102) with true by (symmetry; apply N.leb_le; lia).
    now rewrite orb_true_r.
Qed.

Lemma hex_byte_hex (b : N) : forallb is_hex (Md5.hex_byte b) = true.
Proof.
  unfold Md5.hex_byte. cbn [forallb].
  rewrite !hex_digit_hex; [reflexivity| |]; apply N.mod_lt; lia.
Qed.

Lemma hex_bytes_hex (bs : list N) :
  forallb is_hex (List.concat (List.map Md5.hex_byte bs)) = true.
Proof.
  induction bs as [|b bs IH]; [reflexivity|].
  cbn [List.map List.concat]. now rewrite forallb_app, hex_byte_hex, IH.
Qed.

Lemma hex_bytes_length (bs : list N) :
  length (List.concat (List.map Md5.hex_byte bs)) = (2 * length bs)%nat.
Proof.
  induction bs as [|b bs IH]; [reflexivity|].
  cbn [List.map List.concat]. rewrite length_app, IH. simpl. lia.
Qed.

Lemma le_bytes_length (n : nat) (x : N) : length (Md5.le_bytes n x) = n.
Proof.
  revert x. induction n as [|n IH]; intros x; [reflexivity|].
  simpl. now rewrite IH.
Qed.

Lemma digest_length (msg : list N) : length (Md5.digest msg) = 16%nat.
Proof.
  unfold Md5.digest.
  destruct (fold_left Md5.compress _ Md5.init) as [[[a b] c] d].
  now rewrite !length_app, !le_bytes_length.
Qed.

(** The hexadecimal digest has 32 lower-case hexadecimal digits. *)
Lemma hexdigest_length (msg : list N) : length (Md5.hexdigest msg) = 32%nat.
Proof.
  unfold Md5.hexdigest. now rewrite hex_bytes_length, digest_length.
Qed.

Lemma hexdigest_hex (msg : list N) :
  forallb is_hex (Md5.hexdigest msg) = true.
Proof. apply hex_bytes_hex. Qed.

Lemma text_hash_length (msg : list N) :
  length (firstn 16 (Md5.hexdigest msg)) = 16%nat.
Proof. rewrite length_firstn, hexdigest_length. reflexivity. Qed.

Lemma forallb_firstn (p : N -> bool) (n : nat) (l : str) :
  forallb p l = true -> forallb p (firstn n l) = true.
Proof.
  revert l. induction n as [|n IH]; intros [|c l]; try reflexivity.
  cbn [firstn forallb]. intros H. apply andb_true_iff in H as [-> H].
  now apply IH.
Qed.

Lemma text_hash_hex (msg : list N) :
  forallb is_hex (firstn 16 (Md5.hexdigest msg)) = true.
Proof. apply forallb_firstn, hexdigest_hex. Qed.

Lemma is_hex_ascii (c : N) : is_hex c = true -> c < 128.
Proof.
  unfold is_hex. intros H. apply orb_true_iff in H as [H|H];
    apply andb_true_iff in H as [_ H]; apply N.leb_le in H; lia.
Qed.

(** A text with a surrogate has no key. *)
Lemma _generate_key_raises (text s d : str) :
  ~ Forall scalar_value text ->
  TranslationCache._generate_key text s d = Raise UnicodeEncodeError.
Proof.
  intros H. unfold TranslationCache._generate_key.
  destruct (Codec.encode_utf8 text) as [bytes|] eqn:E; [|reflexivity].
  exfalso. apply H, encode_utf8_scalar. now exists bytes.
Qed.

(** The key of a supported pair is ASCII, so Redis accepts it. *)
Lemma key_encodable (text s d key : str) :
  (s, d) ∈ SUPPORTED_PAIRS ->
  TranslationCache._generate_key text s d = Ok key ->
  Redis.encodable key = true.
Proof.
  intros Hpair. unfold TranslationCache._generate_key.
  destruct (Codec.encode_utf8 text) as [bytes|]; [|discriminate].
  intros H. inversion H; subst. clear H. apply encode_utf8_ascii.
  assert (Hh : Forall (fun c => c < 128) (firstn 16 (Md5.hexdigest bytes))).
  { pose proof (text_hash_hex bytes) as Hx.
    induction (firstn 16 (Md5.hexdigest bytes)) as [|c l IH]; constructor.
    - simpl in Hx. apply andb_true_iff in Hx as [Hc _].
      now apply is_hex_ascii.
    - apply IH. simpl in Hx. now apply andb_true_iff in Hx as [_ Hx]. }
  apply list_elem_of_In in Hpair. simpl in Hpair.
  destruct Hpair as [E|[E|[]]]; inversion E; subst;
    repeat first [exact Hh | apply Forall_app; split | constructor].
Qed.

End KeyFacts.

(** C3 (amended) -- Cache-key derivation: for every text that can be
    encoded as UTF-8 (every character a Unicode scalar value) and every
    source and target, [_generate_key] returns exactly
    ["trans:" + source + ":" + target + ":" + h], where [h] is the first 16
    characters of the hexadecimal MD5 digest of the UTF-8 bytes of the
    text: 16 lower-case hexadecimal digits.  It is a function of its three
    arguments, so identical inputs give the identical key. *)
Theorem _generate_key_format (text source_lang target_lang : str) :
  Forall scalar_value text ->
  exists bytes h,
    Codec.encode_utf8 text = Some bytes /\
    h = firstn 16 (Md5.hexdigest bytes) /\
    length h = 16 /\
    forallb is_hex h = true /\
    TranslationCache._generate_key text source_lang target_lang
    = Ok (Py.lit "trans:" ++ source_lang ++ Py.lit ":" ++ target_lang ++
          Py.lit ":" ++ h).
Proof.
  intros H. apply encode_utf8_scalar in H as [bytes Hb].
  exists bytes, (firstn 16 (Md5.hexdigest bytes)).
  split; [exact Hb|]. split; [reflexivity|].
  split; [apply text_hash_length|]. split; [apply text_hash_hex|].
  unfold TranslationCache._generate_key. now rewrite Hb.
Qed.

(* ===================================================================== *)
(** * Cache hits and the empty translation: claims C1 and C10 *)
(* ===================================================================== *)

Section Hits.

Variable upper : N -> str.
Variable w : World.

(** A non-empty, unexpired entry is found when the server answers. *)
Lemma get_value_hit (p : Process) (t s d value : str) (expires : Z) :
  (s, d) ∈ SUPPORTED_PAIRS ->
  cached_as p t s d value expires ->
  value <> [] ->
  redis_get_fails w = None ->
  (now w < expires)%Z ->
  get_value w (cache p) t s d = Some value.
Proof.
  intros Hpair (keys & key & Hc & Hk & Hv) Hne Hup Hnow.
  unfold get_value. rewrite Hc, Hk. unfold Redis.get. rewrite Hup.
  rewrite (key_encodable _ _ _ _ Hpair Hk), Hv.
  rewrite (proj2 (Z.ltb_lt _ _) Hnow).
  destruct value; [congruence | reflexivity].
Qed.

(** An entry whose value is the empty string is never found. *)
Lemma get_value_empty (p : Process) (t s d : str) (expires : Z) :
  cached_as p t s d [] expires -> get_value w (cache p) t s d = None.
Proof.
  intros (keys & key & Hc & Hk & Hv).
  unfold get_value. rewrite Hc, Hk. unfold Redis.get.
  destruct (redis_get_fails w); [reflexivity|].
  destruct (Redis.encodable key); [|reflexivity].
  rewrite Hv. destruct (now w <? expires)%Z; reflexivity.
Qed.

(** A working SETEX leaves the entry in the cache. *)
Lemma store_cached (c : TranslationCache) (keys : gmap str (str * Z))
    (t s d key value : str) :
  (s, d) ∈ SUPPORTED_PAIRS ->
  redis_client c = Some keys ->
  TranslationCache._generate_key t s d = Ok key ->
  redis_setex_fails w = None ->
  Redis.encodable value = true ->
  (0 < ttl c)%Z ->
  store w c t s d value
  = (true, {| redis_client := Some (<[key := (value, (now w + ttl c)%Z)]> keys);
              ttl := ttl c |}).
Proof.
  intros Hpair Hc Hk Hup Hval Httl. unfold store. rewrite Hc, Hk.
  unfold Redis.setex. rewrite Hup, (key_encodable _ _ _ _ Hpair Hk), Hval.
  cbn [andb]. now rewrite (proj2 (Z.leb_gt _ _) Httl).
Qed.

(** A hit is answered without the engine. *)
Lemma hit_run (r : Request) (t s d value : str) (p : Process) :
  validated w r t s d ->
  get_value w (cache p) t s d = Some value ->
  translate upper w (Some r) p
  = (Ok (Translation value s d None true, 200%Z),
     {| translator := translator p;
        cache := cache p;
        counters := inc_translation (inc_cache_hit (counters p));
        trace := trace p ++ [CacheGet t s d] |}).
Proof.
  intros Hv Hl. rewrite (handler_run upper w r t s d p Hv).
  unfold serve. now rewrite Hl.
Qed.

(** A miss reaches the engine and is not answered as a hit. *)
Lemma miss_run (r : Request) (t s d : str) (p : Process) :
  validated w r t s d ->
  get_value w (cache p) t s d = None ->
  exists resp p' events,
    translate upper w (Some r) p = (Ok resp, p') /\
    served_from_cache (fst resp) = false /\
    trace p' = trace p ++ CacheGet t s d
                 :: EngineTranslate (preprocess_text t) s d :: events.
Proof.
  intros Hv Hl. rewrite (handler_run upper w r t s d p Hv).
  unfold serve. rewrite Hl.
  destruct (run_engine_called w (translator p) (preprocess_text t) s d)
    as [events Hev].
  destruct (run_engine w (translator p) (preprocess_text t) s d)
    as [[out tr] evs].
  cbn [snd] in Hev. subst evs. destruct out as [out|e].
  - eexists _, _, _. cbn [fst snd trace]. repeat split.
  - eexists _, _, _. cbn [fst snd trace]. repeat split.
Qed.

Lemma engine_events_app (a b : list event) :
  engine_events (a ++ b) = engine_events a ++ engine_events b.
Proof. unfold engine_events. apply List.filter_app. Qed.

End Hits.

(** C1 (amended) -- Idempotent caching: for every request that passes
    validation, if a first call succeeds with a fresh translation and that
    translation is in the cache, and the translation is not the empty
    string, then a second call with the same text, source and target, made
    while the entry has not expired and the server answers the lookup,
    returns 'cached': True with the same translated text, performs the
    cache lookup only, and reaches the engine not at all. *)
Theorem repeat_served_from_cache (upper : N -> str) (w1 w2 : World)
    (r : Request) (t s d : str) (p p1 : Process) (final : str)
    (model : option (option str)) (expires : Z) :
  validated w1 r t s d ->
  validated w2 r t s d ->
  translate upper w1 (Some r) p
  = (Ok (Translation final s d model false, 200%Z), p1) ->
  cached_as p1 t s d final expires ->
  final <> [] ->
  redis_get_fails w2 = None ->
  (now w2 < expires)%Z ->
  exists p2,
    translate upper w2 (Some r) p1
    = (Ok (Translation final s d None true, 200%Z), p2) /\
    trace p2 = trace p1 ++ [CacheGet t s d] /\
    engine_events (trace p2) = engine_events (trace p1) /\
    translator p2 = translator p1 /\
    cache p2 = cache p1.
Proof.
  intros Hv1 Hv2 Hfirst Hcached Hne Hup Hnow.
  pose proof Hv2 as (_ & _ & _ & _ & _ & Hpair).
  pose proof (get_value_hit w2 p1 t s d final expires
                Hpair Hcached Hne Hup Hnow) as Hhit.
  rewrite (hit_run upper w2 r t s d final p1 Hv2 Hhit).
  eexists. split; [reflexivity|]. cbn [trace translator cache].
  repeat split. rewrite engine_events_app. cbn. now rewrite app_nil_r.
Qed.

(** C10 -- The empty cached translation: a fresh translation whose final
    text is empty is written to the cache when the server accepts the
    write; and whenever the cache holds the empty string for a request,
    [get] returns [None] for it, and the handler does not answer from the
    cache: it calls the engine again and its response is not
    'cached': True. *)
Theorem empty_translation_never_served (upper : N -> str) (w : World)
    (r : Request) (t s d : str) (p : Process) :
  validated w r t s d ->
  (forall keys key model p',
     redis_client (cache p) = Some keys ->
     TranslationCache._generate_key t s d = Ok key ->
     redis_setex_fails w = None ->
     (0 < ttl (cache p))%Z ->
     translate upper w (Some r) p
     = (Ok (Translation [] s d model false, 200%Z), p') ->
     cached_as p' t s d [] (now w + ttl (cache p))) /\
  (forall expires,
     cached_as p t s d [] expires ->
     fst (TranslationCache.get w t s d p) = Ok None /\
     exists resp p' events,
       translate upper w (Some r) p = (Ok resp, p') /\
       served_from_cache (fst resp) = false /\
       trace p' = trace p ++ CacheGet t s d
                    :: EngineTranslate (preprocess_text t) s d :: events).
Proof.
  intros Hv. pose proof Hv as (_ & _ & _ & _ & _ & Hpair). split.
  - intros keys key model p' Hc Hk Hup Httl.
    rewrite (handler_run upper w r t s d p Hv). unfold serve.
    destruct (get_value w (cache p) t s d) as [cached|];
      [intros H; inversion H|].
    destruct (run_engine w (translator p) (preprocess_text t) s d)
      as [[out tr] events].
    destruct out as [out|e]; [|intros H; inversion H].
    cbn [fst snd]. intros H. inversion H as [[Hfinal Hmodel Hp']].
    rewrite Hfinal.
    rewrite (store_cached w (cache p) keys t s d key [] Hpair Hc Hk Hup
               eq_refl Httl).
    cbn [snd]. exists (<[key := ([], (now w + ttl (cache p))%Z)]> keys), key.
    cbn [cache redis_client]. repeat split; [exact Hk|].
    apply lookup_insert_eq.
  - intros expires Hcached.
    pose proof (get_value_empty w p t s d expires Hcached) as Hmiss. split.
    + rewrite get_run. cbn [fst]. now rewrite Hmiss.
    + now apply miss_run.
Qed.

(* ===================================================================== *)
(** * Model loading: claim C9 *)
(* ===================================================================== *)

Section Loading.

Variable w : World.

Lemma load_count_app (a b : list event) :
  load_count (a ++ b) = load_count a + load_count b.
Proof. unfold load_count. now rewrite List.filter_app, length_app. Qed.

(** A registered pair is resolved without loading and without change. *)
Lemma resolve_loaded (s d m : str) (p : Process) :
  models (translator p) !! (s, d) = Some m -> resolve w s d p = (Ok tt, p).
Proof.
  intros H. unfold resolve, bind, gets, ret. cbn [translator]. now rewrite H.
Qed.

(** An unseen pair whose model loads is registered by one load. *)
Lemma _load_model_unseen (s d name : str) (p : Process) :
  models (translator p) !! (s, d) = None ->
  MarianTranslator._get_model_name s d = Some name ->
  from_pretrained w name = None ->
  MarianTranslator._load_model w s d p
  = (Ok tt,
     {| translator :=
          {| models := <[(s, d) := name]> (models (translator p));
             tokenizers := <[(s, d) := name]> (tokenizers (translator p)) |};
        cache := cache p;
        counters := counters p;
        trace := trace p ++ [EngineLoad name] |}).
Proof.
  intros Hm Hn Hl. rewrite _load_model_run. unfold load. rewrite Hm, Hn.
  rewrite (model_names_truthy _ _ _ Hn). cbn [negb]. now rewrite Hl.
Qed.

Lemma resolve_unseen (s d name : str) (p : Process) :
  models (translator p) !! (s, d) = None ->
  MarianTranslator._get_model_name s d = Some name ->
  from_pretrained w name = None ->
  resolve w s d p
  = (Ok tt,
     {| translator :=
          {| models := <[(s, d) := name]> (models (translator p));
             tokenizers := <[(s, d) := name]> (tokenizers (translator p)) |};
        cache := cache p;
        counters := counters p;
        trace := trace p ++ [EngineLoad name] |}).
Proof.
  intros Hm Hn Hl. unfold resolve, bind, gets. cbn [translator]. rewrite Hm.
  now apply _load_model_unseen.
Qed.

(** [resolve] is the first statement of [MarianTranslator.translate]. *)
Lemma translate_resolves (t s d : str) (p : Process) :
  MarianTranslator.translate w t s d p
  = (emit (EngineTranslate t s d) ;;;
     resolve w s d ;;;
     self <- gets translator ;;
     tokenizer <- match tokenizers self !! (s, d) with
                  | Some tk => ret tk
                  | None => raise (KeyError (s, d))
                  end ;;
     model <- match models self !! (s, d) with
              | Some m => ret m
              | None => raise (KeyError (s, d))
              end ;;
     lift (generate w model t)) p.
Proof.
  unfold MarianTranslator.translate, resolve, bind, emit, modify, gets.
  cbn [translator]. now destruct (models (translator p) !! (s, d)).
Qed.

(** When both models load at start-up, both pairs are registered before
    the first request. *)
Lemma preload_registers (p : Process) :
  (forall name, from_pretrained w name = None) ->
  models (translator p) = ∅ ->
  let p' := snd (MarianTranslator._preload_models w p) in
  models (translator p') !! (Py.lit "en", Py.lit "hi")
  = Some (Py.lit "Helsinki-NLP/opus-mt-en-hi") /\
  models (translator p') !! (Py.lit "hi", Py.lit "en")
  = Some (Py.lit "Helsinki-NLP/opus-mt-hi-en").
Proof.
  intros Hload Hempty p'.
  assert (E : exists tks evs,
            p' = {| translator :=
                      {| models :=
                           <[(Py.lit "hi", Py.lit "en") :=
                               Py.lit "Helsinki-NLP/opus-mt-hi-en"]>
                             (<[(Py.lit "en", Py.lit "hi") :=
                                  Py.lit "Helsinki-NLP/opus-mt-en-hi"]> ∅);
                         tokenizers := tks |};
                    cache := cache p;
                    counters := counters p;
                    trace := evs |}).
  { subst p'. unfold MarianTranslator._preload_models. cbn [fold_right].
    unfold bind at 1. unfold try_except at 1.
    rewrite (_load_model_unseen MarianTranslator.en MarianTranslator.hi
               (Py.lit "Helsinki-NLP/opus-mt-en-hi"));
      [|rewrite Hempty; apply lookup_empty | reflexivity | apply Hload].
    unfold bind at 1. unfold try_except at 1.
    rewrite (_load_model_unseen MarianTranslator.hi MarianTranslator.en
               (Py.lit "Helsinki-NLP/opus-mt-hi-en"));
      [|cbn [translator models]; rewrite lookup_insert_ne by discriminate;
        rewrite Hempty; apply lookup_empty
       | reflexivity | apply Hload].
    cbn [ret snd translator models cache counters trace].
    rewrite Hempty. now eexists _, _. }
  destruct E as (tks & evs & ->). cbn [translator models]. split.
  - rewrite lookup_insert_ne by discriminate. apply lookup_insert_eq.
  - apply lookup_insert_eq.
Qed.

End Loading.

Lemma resolve_each_loaded (ws : list World) (s d m : str) (p : Process) :
  models (translator p) !! (s, d) = Some m -> resolve_each ws s d p = p.
Proof.
  intros H. induction ws as [|w ws IH]; [reflexivity|].
  cbn [resolve_each]. now rewrite (resolve_loaded w s d m p H).
Qed.

Section ThreadFacts.

Import Threads.

Variable w : World.

Lemma step_thread_split (reg : MarianTranslator) (t : thread) :
  step_thread w reg t = (write reg t, next w (models reg !! pair t) t).
Proof.
  unfold step_thread, write, next, step_thread. cbn [models tokenizers].
  destruct (at_pc t) as [| |name|name| |e]; try reflexivity.
  - destruct (models reg !! pair t).
    + now rewrite lookup_singleton_eq.
    + now rewrite lookup_empty.
  - destruct (models reg !! pair t).
    + now rewrite lookup_singleton_eq.
    + rewrite lookup_empty.
      destruct (MarianTranslator._get_model_name _ _); [|reflexivity].
      destruct (negb (Py.truthy _)); reflexivity.
  - destruct (from_pretrained w name); reflexivity.
Qed.

Lemma write_models_ne (reg : MarianTranslator) (t : thread) (q : str * str) :
  pair t <> q -> models (write reg t) !! q = models reg !! q.
Proof.
  intros H. unfold write. destruct (at_pc t); try reflexivity.
  cbn [models]. now rewrite lookup_insert_ne.
Qed.

Lemma write_commute (reg : MarianTranslator) (t1 t2 : thread) :
  pair t1 <> pair t2 -> write (write reg t1) t2 = write (write reg t2) t1.
Proof.
  intros H. unfold write.
  destruct (at_pc t1), (at_pc t2); try reflexivity.
  cbn [models tokenizers]. f_equal; now apply insert_insert_ne.
Qed.

Lemma step_split (i : nat) (sys : system) (t : thread) :
  pool sys !! i = Some t ->
  step w i sys
  = {| registry := write (registry sys) t;
       pool := <[i := next w (models (registry sys) !! pair t) t]>
                 (pool sys) |}.
Proof. intros H. unfold step. now rewrite H, step_thread_split. Qed.

(** Threads on different pairs do not see each other: their steps can be
    taken in either order. *)
Lemma steps_commute (i j : nat) (sys : system) (ti tj : thread) :
  i <> j ->
  pool sys !! i = Some ti -> pool sys !! j = Some tj ->
  pair ti <> pair tj ->
  step w i (step w j sys) = step w j (step w i sys).
Proof.
  intros Hij Hi Hj Hp.
  rewrite (step_split j sys tj Hj), (step_split i sys ti Hi).
  rewrite (step_split i _ ti)
    by (cbn [pool]; now rewrite list_lookup_insert_ne).
  rewrite (step_split j _ tj)
    by (cbn [pool]; now rewrite list_lookup_insert_ne).
  cbn [registry pool].
  rewrite (write_models_ne _ tj (pair ti)) by congruence.
  rewrite (write_models_ne _ ti (pair tj)) by exact Hp.
  f_equal.
  - now apply write_commute.
  - now apply list_insert_insert_ne.
Qed.

(** No thread waits: scheduled before it has finished, it moves on. *)
Lemma step_thread_progress (reg : MarianTranslator) (t : thread) :
  finished t = false ->
  at_pc (snd (step_thread w reg t)) <> at_pc t.
Proof.
  unfold finished, step_thread.
  destruct (at_pc t) as [| |name|name| |e]; try discriminate; intros _.
  - destruct (models reg !! pair t); discriminate.
  - destruct (models reg !! pair t); [discriminate|].
    destruct (MarianTranslator._get_model_name _ _); [|discriminate].
    destruct (negb (Py.truthy _)); discriminate.
  - destruct (from_pretrained w name); discriminate.
Qed.

Lemma step_single (reg : MarianTranslator) (t : thread) :
  step w 0 {| registry := reg; pool := [t] |}
  = {| registry := fst (step_thread w reg t);
       pool := [snd (step_thread w reg t)] |}.
Proof.
  unfold step. cbn [pool registry]. change ([t] !! 0) with (Some t).
  cbv beta iota. now destruct (step_thread w reg t).
Qed.

Ltac thread_step H :=
  rewrite step_single in H; unfold step_thread in H at 1 2;
  cbn [at_pc pair loads fst snd] in H.

(** One thread running alone does what [resolve] does: the same registry,
    and as many loads as [resolve] records. *)
Lemma thread_alone (s d : str) (p : Process) :
  let sys := run w [0; 0; 0; 0]
               {| registry := translator p;
                  pool := first_requests 1 (s, d) |} in
  registry sys = translator (snd (resolve w s d p)) /\
  all_finished sys = true /\
  load_count (trace p) + total_loads sys
  = load_count (trace (snd (resolve w s d p))).
Proof.
  intros sys.
  assert (Hsys : sys = run w [0; 0; 0; 0]
                         {| registry := translator p;
                            pool := first_requests 1 (s, d) |})
    by reflexivity.
  clearbody sys. unfold run, first_requests in Hsys.
  cbn [repeat fold_left] in Hsys.
  destruct (models (translator p) !! (s, d)) as [m|] eqn:Em.
  - rewrite (resolve_loaded w s d m p Em).
    thread_step Hsys. rewrite Em in Hsys. cbn [fst snd] in Hsys.
    do 3 thread_step Hsys. subst sys. repeat split. apply Nat.add_0_r.
  - unfold resolve, bind, gets. cbn [translator]. rewrite Em.
    rewrite _load_model_run. unfold load. rewrite Em.
    thread_step Hsys. rewrite Em in Hsys. cbn [fst snd] in Hsys.
    thread_step Hsys. rewrite Em in Hsys.
    destruct (MarianTranslator._get_model_name s d) as [name|].
    + destruct (negb (Py.truthy name)).
      * cbn [fst snd] in Hsys. do 2 thread_step Hsys. subst sys.
        repeat split. cbn [snd trace]. rewrite app_nil_r.
        apply Nat.add_0_r.
      * cbn [fst snd] in Hsys. thread_step Hsys.
        destruct (from_pretrained w name).
        -- cbn [fst snd] in Hsys. thread_step Hsys. subst sys.
           repeat split. cbn [snd trace]. now rewrite load_count_app.
        -- cbn [fst snd] in Hsys. thread_step Hsys. subst sys.
           repeat split. cbn [snd trace]. now rewrite load_count_app.
    + cbn [fst snd] in Hsys. do 2 thread_step Hsys. subst sys.
      repeat split. cbn [snd trace]. rewrite app_nil_r. apply Nat.add_0_r.
Qed.

End ThreadFacts.

(** C9 (amended) -- Model loading: the registry takes no lock.  When
    first-requests for one unseen pair are served one after the other and
    the first load succeeds, the load routine runs exactly once, however
    many requests follow.  Threads never wait for each other: a thread that
    has not finished moves on whenever it is scheduled, and the steps of
    two threads that resolve different pairs can be taken in either order
    with the same result. *)
Theorem load_once_when_sequential (w : World) (ws : list World)
    (s d name : str) (p : Process) :
  models (translator p) !! (s, d) = None ->
  MarianTranslator._get_model_name s d = Some name ->
  from_pretrained w name = None ->
  load_count (trace (resolve_each (w :: ws) s d p))
  = S (load_count (trace p)) /\
  (forall w' reg t,
     Threads.finished t = false ->
     Threads.at_pc (snd (Threads.step_thread w' reg t)) <> Threads.at_pc t) /\
  (forall w' sys i j ti tj,
     i <> j ->
     Threads.pool sys !! i = Some ti -> Threads.pool sys !! j = Some tj ->
     Threads.pair ti <> Threads.pair tj ->
     Threads.step w' i (Threads.step w' j sys)
     = Threads.step w' j (Threads.step w' i sys)).
Proof.
  intros Hm Hn Hl. split; [|split].
  - cbn [resolve_each]. rewrite (resolve_unseen w s d name p Hm Hn Hl).
    cbn [snd]. rewrite (resolve_each_loaded ws s d name).
    + cbn [trace]. rewrite load_count_app. cbn. lia.
    + cbn [translator models]. apply lookup_insert_eq.
  - intros w' reg t. apply step_thread_progress.
  - intros w' sys i j ti tj. apply steps_commute.
Qed.

(* ===================================================================== *)
(** * Where the claims as worded fail *)
(* ===================================================================== *)

Lemma hello_validated (w : World) :
  MAX_LENGTH w = None ->
  validated w (Sample.request Sample.hello) Sample.hello
    (Py.lit "en") (Py.lit "hi").
Proof.
  intros Hmax. unfold validated, max_length. rewrite Hmax.
  repeat split; try reflexivity; try discriminate.
  apply list_elem_of_In. now left.
Qed.

(** C1 as worded fails: the engine answers with the empty string, the
    first call succeeds and the empty translation is in the cache, and the
    second call is not served from the cache. *)
Lemma empty_translation_not_idempotent :
  ~ idempotent_caching Sample.upper Sample.silent_world
      (Sample.request Sample.hello) Sample.hello (Py.lit "en") (Py.lit "hi")
      Sample.fresh.
Proof.
  intros H.
  pose (first := translate Sample.upper Sample.silent_world
                   (Some (Sample.request Sample.hello)) Sample.fresh).
  assert (E1 : translate Sample.upper Sample.silent_world
                 (Some (Sample.request Sample.hello)) Sample.fresh
               = (Ok (Translation [] (Py.lit "en") (Py.lit "hi")
                        (Some (Some (Py.lit "Helsinki-NLP/opus-mt-en-hi")))
                        false, 200%Z), snd first))
    by (vm_compute; reflexivity).
  assert (C : cached_as (snd first) Sample.hello (Py.lit "en") (Py.lit "hi")
                [] 87400).
  { exists {[ Sample.hello_key := ([], 87400%Z) ]}, Sample.hello_key.
    split; [vm_compute; reflexivity|].
    split; vm_compute; reflexivity. }
  destruct (H _ _ _ _ E1 C) as (p2 & E2 & _).
  destruct (miss_run Sample.upper Sample.silent_world
              (Sample.request Sample.hello) Sample.hello
              (Py.lit "en") (Py.lit "hi") (snd first)
              (hello_validated Sample.silent_world eq_refl)
              (get_value_empty _ _ _ _ _ _ C))
    as (resp & p' & events & E & Hserved & _).
  rewrite E in E2. inversion E2; subst. discriminate Hserved.
Qed.

(** C3 as worded fails: a text with a lone surrogate has no UTF-8 bytes,
    and no key is returned for it. *)
Lemma surrogate_has_no_key :
  ~ exists key,
      TranslationCache._generate_key Sample.surrogate
        (Py.lit "en") (Py.lit "hi") = Ok key.
Proof. intros [key H]. vm_compute in H. discriminate H. Qed.

(** C9 as worded fails: two first-requests for (en, hi) that both test
    the registry before either has stored its model both load it. *)
Lemma two_requests_load_twice :
  ~ Threads.single_flight Sample.world 2 (Py.lit "en", Py.lit "hi").
Proof.
  intros H. specialize (H [0; 1; 0; 1; 0; 1; 0; 1]).
  vm_compute in H. specialize (H eq_refl). discriminate H.
Qed.

(* ===================================================================== *)
(** * The theorems at work *)
(* ===================================================================== *)

Ltac validate :=
  unfold validated; repeat split;
  try reflexivity; try discriminate;
  try (apply list_elem_of_In; left; reflexivity).

(** Scenarios A and B: "Hello!!!  world" is translated and cached, and the
    same request again is answered from the cache. *)
Lemma repeat_served_from_cache_witness :
  let r := Sample.request Sample.hello in
  let p1 := snd (translate Sample.upper Sample.world (Some r) Sample.fresh) in
  exists p2,
    translate Sample.upper Sample.world (Some r) p1
    = (Ok (Translation Sample.namaste (Py.lit "en") (Py.lit "hi") None true,
           200%Z), p2) /\
    trace p2 = trace p1 ++ [CacheGet Sample.hello (Py.lit "en") (Py.lit "hi")]
    /\ engine_events (trace p2) = engine_events (trace p1) /\
    translator p2 = translator p1 /\
    cache p2 = cache p1.
Proof.
  intros r p1.
  apply (repeat_served_from_cache Sample.upper Sample.world Sample.world
           r Sample.hello (Py.lit "en") (Py.lit "hi") Sample.fresh p1
           Sample.namaste
           (Some (Some (Py.lit "Helsinki-NLP/opus-mt-en-hi"))) 87400).
  - validate.
  - validate.
  - vm_compute. reflexivity.
  - exists {[ Sample.hello_key := (Sample.namaste, 87400%Z) ]},
      Sample.hello_key.
    split; [vm_compute; reflexivity|].
    split; vm_compute; reflexivity.
  - discriminate.
  - reflexivity.
  - reflexivity.
Defined.

(** With the Redis server down, "Hello!!!  world" is still translated. *)
Lemma cache_failure_degrades_witness :
  fst (translate Sample.upper Sample.world_without_redis
         (Some (Sample.request Sample.hello)) Sample.fresh)
  = Ok (Translation
          (postprocess_text Sample.upper Sample.namaste)
          (Py.lit "en") (Py.lit "hi")
          (Some (MarianTranslator.get_model_name (Py.lit "en") (Py.lit "hi")))
          false, 200%Z).
Proof.
  assert (Hdown : cache_unreachable Sample.world_without_redis Sample.fresh)
    by (right; split; discriminate).
  destruct (cache_failure_degrades Sample.upper Sample.world_without_redis
              Sample.fresh Hdown) as (_ & _ & H).
  assert (Hv : validated Sample.world_without_redis
                 (Sample.request Sample.hello) Sample.hello
                 (Py.lit "en") (Py.lit "hi")) by validate.
  destruct (H _ _ _ _ Hv) as [Hresp _].
  assert (E : fst (MarianTranslator.translate Sample.world_without_redis
                     (preprocess_text Sample.hello) (Py.lit "en")
                     (Py.lit "hi") Sample.fresh) = Ok Sample.namaste)
    by (vm_compute; reflexivity).
  rewrite E in Hresp. exact Hresp.
Defined.

(** The key of scenario A. *)
Lemma _generate_key_format_witness :
  exists bytes h,
    Codec.encode_utf8 Sample.hello = Some bytes /\
    h = firstn 16 (Md5.hexdigest bytes) /\
    length h = 16 /\
    forallb is_hex h = true /\
    TranslationCache._generate_key Sample.hello (Py.lit "en") (Py.lit "hi")
    = Ok (Py.lit "trans:" ++ Py.lit "en" ++ Py.lit ":" ++ Py.lit "hi" ++
          Py.lit ":" ++ h).
Proof.
  apply (_generate_key_format Sample.hello (Py.lit "en") (Py.lit "hi")).
  repeat (constructor; [left; reflexivity|]). constructor.
Defined.

(** Scenario C: 600 characters against a maximum of 512. *)
Lemma validation_precedes_effects_witness :
  translate Sample.upper Sample.world
    (Some (Sample.request Sample.long_text)) Sample.fresh
  = (Ok (TextTooLong 512, 400%Z), Sample.fresh).
Proof.
  assert (Hlong : too_long Sample.world (Sample.request Sample.long_text)).
  { exists Sample.long_text. split; [reflexivity|]. vm_compute. reflexivity. }
  destruct (validation_precedes_effects Sample.upper Sample.world
              (Sample.request Sample.long_text) Sample.fresh
              (or_intror (or_introl Hlong))) as (_ & _ & H).
  destruct (H Sample.long_text (Py.lit "en") (Py.lit "hi")
              eq_refl eq_refl eq_refl) as [Htoo _]; try discriminate.
  apply Htoo. vm_compute. reflexivity.
Defined.

(** The engine raises: the answer is the error, the cache is untouched. *)
Lemma engine_failure_not_cached_witness :
  exists p' events,
    translate Sample.upper Sample.world_without_engine
      (Some (Sample.request Sample.hello)) Sample.fresh
    = (Ok (TranslationFailed (EngineError (Py.lit "CUDA out of memory")),
           500%Z), p') /\
    cache p' = cache Sample.fresh /\
    trace p' = trace Sample.fresh
                 ++ CacheGet Sample.hello (Py.lit "en") (Py.lit "hi")
                 :: events /\
    forallb engine_event events = true.
Proof.
  apply (engine_failure_not_cached Sample.upper Sample.world_without_engine
           (Sample.request Sample.hello) Sample.hello
           (Py.lit "en") (Py.lit "hi") Sample.fresh).
  - validate.
  - vm_compute. reflexivity.
  - vm_compute. reflexivity.
Defined.

(** Four short sentences, at most four characters a chunk. *)
Lemma chunk_text_segments_witness :
  chunk_text (Py.lit "A. B!?  C.. D.") 4 <> [] /\
  forall chunk, In chunk (chunk_text (Py.lit "A. B!?  C.. D.") 4) ->
    (Py.len chunk <= 4)%Z \/
    exists sentence,
      In sentence (Spec.Sentences (Py.lit "A. B!?  C.. D.")) /\
      chunk = Py.strip sentence.
Proof.
  assert (H : (1 <= 4)%Z) by lia.
  destruct (chunk_text_segments (Py.lit "A. B!?  C.. D.") 4 H)
    as (Hne & _ & _ & _ & Hbound).
  split; [exact Hne | exact Hbound].
Defined.

(** Three requests for (en, hi), one after the other: one load. *)
Lemma load_once_when_sequential_witness :
  load_count
    (trace (resolve_each [Sample.world; Sample.world; Sample.world]
              (Py.lit "en") (Py.lit "hi") Sample.fresh)) = 1.
Proof.
  apply (load_once_when_sequential Sample.world [Sample.world; Sample.world]
           (Py.lit "en") (Py.lit "hi") (Py.lit "Helsinki-NLP/opus-mt-en-hi")
           Sample.fresh).
  - reflexivity.
  - vm_compute. reflexivity.
  - reflexivity.
Defined.

(** The engine answers with the empty string: the empty translation is
    cached, and the lookup that follows misses. *)
Lemma empty_translation_never_served_witness :
  let r := Sample.request Sample.hello in
  let p1 :=
    snd (translate Sample.upper Sample.silent_world (Some r) Sample.fresh) in
  cached_as p1 Sample.hello (Py.lit "en") (Py.lit "hi") [] 87400 /\
  fst (TranslationCache.get Sample.silent_world Sample.hello
         (Py.lit "en") (Py.lit "hi") p1) = Ok None.
Proof.
  intros r p1.
  assert (Hv : validated Sample.silent_world r Sample.hello
                 (Py.lit "en") (Py.lit "hi")) by validate.
  assert (Hc : cached_as p1 Sample.hello (Py.lit "en") (Py.lit "hi")
                 [] 87400).
  { apply (proj1 (empty_translation_never_served Sample.upper
                    Sample.silent_world r Sample.hello
                    (Py.lit "en") (Py.lit "hi") Sample.fresh Hv)
             ∅ Sample.hello_key
             (Some (Some (Py.lit "Helsinki-NLP/opus-mt-en-hi"))) p1).
    - reflexivity.
    - vm_compute. reflexivity.
    - reflexivity.
    - reflexivity.
    - vm_compute. reflexivity. }
  split; [exact Hc|].
  exact (proj1 (proj2 (empty_translation_never_served Sample.upper
                         Sample.silent_world r Sample.hello
                         (Py.lit "en") (Py.lit "hi") p1 Hv) 87400%Z Hc)).
Defined.

(* ===================================================================== *)
(** * Further properties of the text functions *)
(* ===================================================================== *)

Section PreprocessContent.

Lemma collapse_terminal_length (s : str) :
  length (Spec.collapse_terminal s) <= length s.
Proof.
  induction s as [|c r IH]; [reflexivity|]. simpl.
  destruct (Re.is_terminal c && Spec.starts_with Re.is_terminal r);
    simpl; lia.
Qed.

Lemma join_length_cons (t : str) (ts : list str) :
  length (Py.join [32%N] (t :: ts))
  <= length t + 1 + length (Py.join [32%N] ts).
Proof.
  destruct ts as [|t' ts']; [simpl; lia|].
  rewrite join_cons by discriminate. rewrite !length_app. simpl. lia.
Qed.

Lemma split_from_join_length (s cur : str) :
  length (Py.join [32%N] (Py.split_from cur s)) <= length cur + length s.
Proof.
  revert cur. induction s as [|c r IH]; intros cur.
  - destruct cur; simpl; lia.
  - cbn [Py.split_from]. destruct (Py.isspace c).
    + destruct cur as [|d cur].
      * specialize (IH []). simpl in *. lia.
      * pose proof (join_length_cons (d :: cur) (Py.split_from [] r)).
        specialize (IH []). simpl in *. lia.
    + specialize (IH (cur ++ [c])). rewrite length_app in IH.
      simpl in *. lia.
Qed.

Lemma join_collapse_length (ts : list str) :
  length (Py.join [32%N] (List.map Spec.collapse_terminal ts))
  <= length (Py.join [32%N] ts).
Proof.
  induction ts as [|t ts IH]; [reflexivity|].
  destruct ts as [|t' ts']; [apply collapse_terminal_length|].
  change (List.map Spec.collapse_terminal (t :: t' :: ts'))
    with (Spec.collapse_terminal t
          :: List.map Spec.collapse_terminal (t' :: ts')).
  rewrite (join_cons _ _ (List.map Spec.collapse_terminal (t' :: ts')))
    by discriminate.
  rewrite (join_cons _ t (t' :: ts')) by discriminate.
  rewrite !length_app. pose proof (collapse_terminal_length t). lia.
Qed.

Lemma content_collapse (s : str) :
  List.filter content (Spec.collapse_terminal s) = List.filter content s.
Proof.
  induction s as [|c r IH]; [reflexivity|]. cbn [Spec.collapse_terminal].
  destruct (Re.is_terminal c) eqn:Hc; cbn [andb].
  - assert (Hk : content c = false)
      by (unfold content; rewrite Hc; apply andb_false_r).
    destruct (Spec.starts_with Re.is_terminal r);
      cbn [List.filter]; rewrite Hk; exact IH.
  - cbn [List.filter]. now rewrite IH.
Qed.

Lemma content_join (ts : list str) :
  List.filter content (Py.join [32%N] ts)
  = List.concat (List.map (List.filter content) ts).
Proof.
  induction ts as [|t ts IH]; [reflexivity|].
  destruct ts as [|t' ts']; [simpl; now rewrite app_nil_r|].
  rewrite join_cons by discriminate.
  rewrite !List.filter_app, IH. reflexivity.
Qed.

Lemma content_split_from (s cur : str) :
  List.concat (List.map (List.filter content) (Py.split_from cur s))
  = List.filter content cur ++ List.filter content s.
Proof.
  revert cur. induction s as [|c r IH]; intros cur.
  - destruct cur; simpl; now rewrite ?app_nil_r.
  - cbn [Py.split_from]. destruct (Py.isspace c) eqn:Hc.
    + assert (Hd : List.filter content (c :: r) = List.filter content r)
        by (cbn [List.filter]; unfold content at 1; now rewrite Hc).
      rewrite Hd. destruct cur as [|d cur].
      * apply (IH []).
      * cbn [List.map List.concat]. now rewrite (IH []).
    + rewrite IH, List.filter_app. cbn [List.filter].
      destruct (content c); [now rewrite <- app_assoc | now rewrite app_nil_r].
Qed.

End PreprocessContent.

Lemma preprocess_text_length (text : str) :
  (Py.len (preprocess_text text) <= Py.len text)%Z.
Proof.
  destruct text as [|c r] eqn:Et; [reflexivity|].
  rewrite <- Et. rewrite preprocess_text_words by (subst; discriminate).
  unfold Py.len. apply inj_le.
  etransitivity; [apply join_collapse_length|].
  apply (split_from_join_length text []).
Qed.

(** X1 -- [preprocess_text] only removes: its result is never longer than
    the text, and the characters that are neither whitespace nor terminal
    punctuation are the same, in the same order, before and after. *)
Theorem preprocess_text_only_removes (text : str) :
  (Py.len (preprocess_text text) <= Py.len text)%Z /\
  List.filter content (preprocess_text text) = List.filter content text.
Proof.
  split; [apply preprocess_text_length|].
  destruct text as [|c r] eqn:Et; [reflexivity|].
  rewrite <- Et. rewrite preprocess_text_words by (subst; discriminate).
  rewrite content_join, List.map_map.
  rewrite (List.map_ext _ (List.filter content))
    by (intros t; apply content_collapse).
  apply (content_split_from text []).
Qed.

Section StripFacts.

Lemma rstrip_split (s : str) :
  exists t, s = Py.rstrip s ++ t /\ forallb Py.isspace t = true.
Proof.
  unfold Py.rstrip. destruct (lstrip_split (rev s)) as (l & Hs & Hl).
  exists (rev l). split; [|now rewrite forallb_rev].
  rewrite <- (rev_involutive s) at 1. rewrite Hs at 1.
  now rewrite rev_app_distr.
Qed.

Lemma lstrip_starts (s : str) :
  Spec.starts_with Py.isspace (Py.lstrip s) = false.
Proof.
  unfold Py.lstrip. destruct (Py.span Py.isspace s) as [a b] eqn:E.
  now apply span_rest in E.
Qed.

Lemma rstrip_ends (s : str) : ends_clean (Py.rstrip s).
Proof.
  unfold ends_clean, Py.rstrip. rewrite rev_involutive. apply lstrip_starts.
Qed.

Lemma rstrip_starts (s : str) :
  Spec.starts_with Py.isspace s = false ->
  Spec.starts_with Py.isspace (Py.rstrip s) = false.
Proof.
  intros H. destruct (rstrip_split s) as (t & Hs & _).
  destruct (Py.rstrip s) as [|c y]; [reflexivity|].
  rewrite Hs in H. exact H.
Qed.

(** What [strip] returns has no whitespace at either end. *)
Lemma strip_stripped (s : str) :
  Spec.starts_with Py.isspace (Py.strip s) = false /\
  ends_clean (Py.strip s).
Proof.
  unfold Py.strip. split.
  - apply rstrip_starts, lstrip_starts.
  - apply rstrip_ends.
Qed.

Lemma lstrip_app (a b : str) :
  b <> [] -> Spec.starts_with Py.isspace b = false ->
  Py.lstrip (a ++ b) = Py.lstrip a ++ b.
Proof.
  intros Hne Hb. induction a as [|c a IH].
  - simpl. now apply lstrip_id.
  - unfold Py.lstrip in *. cbn [app Py.span].
    destruct (Py.isspace c); [|reflexivity].
    destruct (Py.span Py.isspace (a ++ b)) as [x y].
    destruct (Py.span Py.isspace a) as [x' y']. exact IH.
Qed.

(** A clean, non-empty start survives [strip]. *)
Lemma strip_after_clean (u x : str) :
  u <> [] -> clean u -> Py.strip (u ++ x) = u ++ Py.rstrip x.
Proof.
  intros Hne Hu. unfold Py.strip.
  rewrite lstrip_id
    by (rewrite starts_with_app by exact Hne; now apply clean_starts).
  unfold Py.rstrip. rewrite rev_app_distr.
  rewrite lstrip_app.
  - now rewrite rev_app_distr, rev_involutive.
  - intros E. apply Hne. apply (f_equal (@rev N)) in E.
    now rewrite rev_involutive in E.
  - now apply clean_ends.
Qed.

End StripFacts.

Section PairFacts.

Variables p q : N -> bool.

Lemma no_pair_tail (c : N) (r : str) :
  no_pair p q (c :: r) = true -> no_pair p q r = true.
Proof. simpl. intros H. now apply andb_true_iff in H as [_ H]. Qed.

Lemma no_pair_app_r (a b : str) :
  no_pair p q (a ++ b) = true -> no_pair p q b = true.
Proof.
  induction a as [|c a IH]; [trivial|]. intros H. apply IH.
  now apply no_pair_tail in H.
Qed.

Lemma no_pair_app_l (a b : str) :
  no_pair p q (a ++ b) = true -> no_pair p q a = true.
Proof.
  induction a as [|c a IH]; [reflexivity|]. cbn [app no_pair]. intros H.
  apply andb_true_iff in H as [H1 H2]. rewrite (IH H2), andb_true_r.
  destruct a as [|d a]; [now rewrite andb_false_r | exact H1].
Qed.

(** Characters outside [p] in front start no pair. *)
Lemma no_pair_after (u r : str) :
  forallb (fun x => negb (p x)) u = true ->
  no_pair p q r = true -> no_pair p q (u ++ r) = true.
Proof.
  intros Hu Hr. induction u as [|c u IH]; [exact Hr|].
  cbn [forallb] in Hu. apply andb_true_iff in Hu as [Hc Hu].
  apply negb_true_iff in Hc. cbn [app no_pair]. rewrite Hc. simpl.
  now apply IH.
Qed.

Lemma no_pair_strip (s : str) :
  no_pair p q s = true -> no_pair p q (Py.strip s) = true.
Proof.
  intros H. destruct (strip_trimmed s) as (a & b & E & _).
  rewrite E in H. apply no_pair_app_r in H. now apply no_pair_app_l in H.
Qed.

End PairFacts.

Section ClassFacts.

Lemma punct_not_space (c : N) : Re.is_punct c = true -> Py.isspace c = false.
Proof.
  unfold Re.is_punct. intros H.
  repeat (apply orb_true_iff in H as [H|H]);
    apply N.eqb_eq in H; subst; reflexivity.
Qed.

Lemma alpha_not_punct (c : N) : Re.is_alpha c = true -> Re.is_punct c = false.
Proof.
  unfold Re.is_alpha, Re.is_punct. intros H.
  apply orb_true_iff in H as [H|H]; apply andb_true_iff in H as [H1 H2];
    apply N.leb_le in H1; apply N.leb_le in H2;
    repeat (apply orb_false_iff; split); apply N.eqb_neq; lia.
Qed.

Lemma alpha_not_space (c : N) : Re.is_alpha c = true -> Py.isspace c = false.
Proof.
  unfold Re.is_alpha, Py.isspace. intros H.
  apply orb_true_iff in H as [H|H]; apply andb_true_iff in H as [H1 H2];
    apply N.leb_le in H1; apply N.leb_le in H2;
    repeat (apply orb_false_iff; split);
    try (apply N.eqb_neq; lia);
    apply andb_false_iff;
    first [ left; apply N.leb_gt; lia | right; apply N.leb_gt; lia ].
Qed.

End ClassFacts.

Section PostprocessFacts.

(** What a match of [\s+([,.!?;:])] looks like, and what its failure at a
    whitespace character says. *)
Lemma space_before_punct_some (s : str) (groups : list str) (rest : str) :
  Re.space_before_punct s = Some (groups, rest) ->
  exists p, Re.is_punct p = true /\ groups = [[p]] /\
            Spec.starts_with Re.is_punct (snd (Py.span Py.isspace s)) = true.
Proof.
  unfold Re.space_before_punct.
  destruct (Py.span Py.isspace s) as [ws rest1] eqn:E.
  destruct ws as [|c ws]; [discriminate|].
  destruct rest1 as [|p rest2]; [discriminate|].
  destruct (Re.is_punct p) eqn:Hp; [|discriminate].
  intros H. inversion H; subst. exists p. repeat split; assumption.
Qed.

Lemma space_before_punct_none (c : N) (r : str) :
  Re.space_before_punct (c :: r) = None ->
  Py.isspace c = true ->
  Spec.starts_with Re.is_punct (snd (Py.span Py.isspace r)) = false.
Proof.
  unfold Re.space_before_punct. cbn [Py.span]. intros H Hc.
  rewrite Hc in H. destruct (Py.span Py.isspace r) as [a b].
  cbn [snd]. destruct b as [|p b]; [reflexivity|]. cbn [Spec.starts_with].
  destruct (Re.is_punct p); [discriminate | reflexivity].
Qed.

Lemma space_before_punct_clean (c : N) (r : str) :
  Py.isspace c = false -> Re.space_before_punct (c :: r) = None.
Proof.
  intros Hc. unfold Re.space_before_punct. cbn [Py.span]. now rewrite Hc.
Qed.

(** After [re.sub(r'\s+([,.!?;:])', r'\1', s)] no whitespace stands before
    punctuation; and the result starts with punctuation only if the text
    does, after its leading whitespace. *)
Lemma sub_space_before_punct (n : nat) :
  forall s, length s <= n ->
    no_pair Py.isspace Re.is_punct
      (Re.sub_fuel Re.space_before_punct (Re.group 0) n s) = true /\
    (Spec.starts_with Re.is_punct
       (Re.sub_fuel Re.space_before_punct (Re.group 0) n s) = true ->
     Spec.starts_with Re.is_punct (snd (Py.span Py.isspace s)) = true).
Proof.
  induction n as [|n IH]; intros s Hn.
  - destruct s; [split; [reflexivity | discriminate] | simpl in Hn; lia].
  - destruct s as [|c r]; [split; [reflexivity | discriminate]|].
    cbn [Re.sub_fuel].
    destruct (Re.space_before_punct (c :: r)) as [[groups rest]|] eqn:Em.
    + pose proof (space_before_punct_shrinking _ _ _ Em) as Hlen.
      destruct (space_before_punct_some _ _ _ Em) as (p & Hp & -> & Hs).
      destruct (IH rest) as [IH1 _]; [simpl in *; lia|].
      change (Re.group 0 [[p]]) with [p].
      cbn [app no_pair Spec.starts_with].
      rewrite (punct_not_space p Hp), IH1. split; [reflexivity|].
      intros _. exact Hs.
    + destruct (IH r) as [IH1 IH2]; [simpl in *; lia|].
      cbn [no_pair Spec.starts_with]. rewrite IH1, andb_true_r. split.
      * destruct (Py.isspace c) eqn:Hc; [|reflexivity]. cbn [andb].
        apply negb_true_iff.
        destruct (Spec.starts_with Re.is_punct
                    (Re.sub_fuel Re.space_before_punct (Re.group 0) n r))
          eqn:Hs; [|reflexivity].
        rewrite (space_before_punct_none c r Em Hc) in IH2.
        now specialize (IH2 eq_refl).
      * intros Hp. cbn [Py.span].
        now rewrite (punct_not_space c Hp).
Qed.

Lemma punct_then_letter_some (s : str) (groups : list str) (rest : str) :
  Re.punct_then_letter s = Some (groups, rest) ->
  exists p l, s = p :: l :: rest /\ Re.is_punct p = true /\
              Re.is_alpha l = true /\ groups = [[p]; [l]].
Proof.
  unfold Re.punct_then_letter. destruct s as [|p [|l s]]; try discriminate.
  destruct (Re.is_punct p) eqn:Hp; [|discriminate].
  destruct (Re.is_alpha l) eqn:Hl; [|discriminate].
  intros H. inversion H; subst. now exists p, l.
Qed.

Lemma punct_then_letter_none (c : N) (r : str) :
  Re.punct_then_letter (c :: r) = None ->
  Re.is_punct c && Spec.starts_with Re.is_alpha r = false.
Proof.
  unfold Re.punct_then_letter. destruct r as [|l r].
  - intros _. now rewrite andb_false_r.
  - cbn [Spec.starts_with].
    destruct (Re.is_punct c && Re.is_alpha l); [discriminate | reflexivity].
Qed.

(** After [re.sub(r'([,.!?;:])([A-Za-z])', r'\1 \2', s)] no letter follows
    punctuation directly, the first character is the one of the text, and
    no whitespace has come to stand before punctuation. *)
Lemma sub_punct_then_letter (n : nat) :
  forall s, length s <= n ->
    let out := Re.sub_fuel Re.punct_then_letter spaced n s in
    no_pair Re.is_punct Re.is_alpha out = true /\
    (forall f, Spec.starts_with f out = Spec.starts_with f s) /\
    (no_pair Py.isspace Re.is_punct s = true ->
     no_pair Py.isspace Re.is_punct out = true).
Proof.
  induction n as [|n IH]; intros s Hn.
  - destruct s; [repeat split; trivial | simpl in Hn; lia].
  - destruct s as [|c r]; [repeat split; trivial|].
    cbn [Re.sub_fuel].
    destruct (Re.punct_then_letter (c :: r)) as [[groups rest]|] eqn:Em.
    + destruct (punct_then_letter_some _ _ _ Em)
        as (p & l & E & Hp & Hl & ->).
      inversion E; subst c r. clear E.
      destruct (IH rest) as (IH1 & IH2 & IH3); [simpl in *; lia|].
      change (spaced [[p]; [l]]) with [p; 32%N; l].
      cbn [app]. cbv zeta.
      split; [|split].
      * cbn [no_pair Spec.starts_with]. rewrite IH1.
        rewrite (alpha_not_punct l Hl). cbn.
        now rewrite andb_false_r.
      * intros f. reflexivity.
      * cbn [no_pair Spec.starts_with]. intros H.
        apply andb_true_iff in H as [_ H].
        apply andb_true_iff in H as [H2 H3].
        rewrite (punct_not_space p Hp), (alpha_not_punct l Hl),
          (alpha_not_space l Hl), (IH3 H3).
        reflexivity.
    + destruct (IH r) as (IH1 & IH2 & IH3); [simpl in *; lia|].
      cbv zeta. split; [|split].
      * cbn [no_pair]. rewrite IH1, IH2.
        now rewrite (punct_then_letter_none c r Em).
      * intros f. reflexivity.
      * cbn [no_pair]. intros H. apply andb_true_iff in H as [H1 H2].
        now rewrite IH2, H1, (IH3 H2).
Qed.

(** [postprocess_text] on a non-empty text, stage by stage. *)
Lemma postprocess_text_staged (upper : N -> str) (text : str) :
  text <> [] ->
  postprocess_text upper text
  = Py.strip match staged text with
             | [] => []
             | c :: r => upper c ++ r
             end.
Proof.
  intros H. unfold postprocess_text, staged.
  destruct text; [congruence|]. cbn [Py.truthy negb].
  now destruct (Re.sub Re.punct_then_letter _ _).
Qed.

Lemma staged_spacing (text : str) :
  no_pair Py.isspace Re.is_punct (staged text) = true /\
  no_pair Re.is_punct Re.is_alpha (staged text) = true.
Proof.
  unfold staged, Re.sub.
  destruct (sub_space_before_punct (length text) text (le_n _)) as [H1 _].
  destruct (sub_punct_then_letter
              (length (Re.sub_fuel Re.space_before_punct (Re.group 0)
                         (length text) text))
              _ (le_n _)) as (H2 & _ & H3).
  split; [now apply H3 | exact H2].
Qed.

(** A text that starts with a character other than whitespace keeps it
    through the two substitutions. *)
Lemma staged_head (c : N) (r : str) :
  Py.isspace c = false -> exists tail, staged (c :: r) = c :: tail.
Proof.
  intros Hc. unfold staged.
  rewrite (sub_cons Re.space_before_punct) by apply space_before_punct_shrinking.
  rewrite (space_before_punct_clean c r Hc).
  set (x := Re.sub Re.space_before_punct (Re.group 0) r).
  rewrite (sub_cons Re.punct_then_letter) by apply punct_then_letter_shrinking.
  destruct (Re.punct_then_letter (c :: x)) as [[groups rest]|] eqn:Em.
  - destruct (punct_then_letter_some _ _ _ Em) as (p & l & E & _ & _ & ->).
    inversion E; subst. change (spaced [[p]; [l]]) with [p; 32%N; l].
    cbn [app]. now eexists.
  - now eexists.
Qed.

(** Leading whitespace that is not followed by punctuation stays. *)
Lemma staged_leading_space (c : N) (r : str) :
  Py.isspace c = true ->
  Spec.starts_with Re.is_punct (snd (Py.span Py.isspace r)) = false ->
  exists tail, staged (c :: r) = c :: tail.
Proof.
  intros Hc Hr. unfold staged.
  rewrite (sub_cons Re.space_before_punct) by apply space_before_punct_shrinking.
  assert (Hnone : Re.space_before_punct (c :: r) = None).
  { unfold Re.space_before_punct. cbn [Py.span]. rewrite Hc.
    destruct (Py.span Py.isspace r) as [a b]. cbn [snd] in Hr.
    destruct b as [|p b]; [reflexivity|]. cbn [Spec.starts_with] in Hr.
    now rewrite Hr. }
  rewrite Hnone.
  set (x := Re.sub Re.space_before_punct (Re.group 0) r).
  rewrite (sub_cons Re.punct_then_letter) by apply punct_then_letter_shrinking.
  assert (Hp : Re.is_punct c = false).
  { destruct (Re.is_punct c) eqn:E; [|reflexivity].
    apply punct_not_space in E. congruence. }
  assert (Hnone2 : Re.punct_then_letter (c :: x) = None).
  { unfold Re.punct_then_letter. destruct x as [|l x]; [reflexivity|].
    now rewrite Hp. }
  rewrite Hnone2. now eexists.
Qed.

End PostprocessFacts.

Lemma sample_upper_plain : plain_upper Sample.upper.
Proof.
  intros c. unfold Sample.upper.
  destruct ((97 <=? c) && (c <=? 122))%N eqn:E; [|now left].
  right. apply andb_true_iff in E as [E1 E2].
  apply N.leb_le in E1. apply N.leb_le in E2.
  assert (Ha : Re.is_alpha (c - 32) = true).
  { unfold Re.is_alpha. apply orb_true_iff. left. apply andb_true_iff.
    split; apply N.leb_le; lia. }
  cbn [forallb].
  now rewrite (alpha_not_space _ Ha), (alpha_not_punct _ Ha).
Qed.

(** X2 -- [postprocess_text] returns a stripped text: whatever the text and
    whatever [str.upper] does, the result neither starts nor ends with
    whitespace. *)
Theorem postprocess_text_stripped (upper : N -> str) (text : str) :
  Spec.starts_with Py.isspace (postprocess_text upper text) = false /\
  ends_clean (postprocess_text upper text).
Proof.
  destruct text as [|c r] eqn:Et; [split; reflexivity|]. rewrite <- Et.
  rewrite postprocess_text_staged by (subst; discriminate).
  apply strip_stripped.
Qed.

(** X3 -- [postprocess_text] fixes the spacing around punctuation: when
    [str.upper] maps a character to itself or to characters that are
    neither whitespace nor punctuation, the result has no whitespace
    directly before one of [,.!?;:] and no ASCII letter directly after
    one. *)
Theorem postprocess_text_spacing (upper : N -> str) (text : str) :
  plain_upper upper ->
  no_pair Py.isspace Re.is_punct (postprocess_text upper text) = true /\
  no_pair Re.is_punct Re.is_alpha (postprocess_text upper text) = true.
Proof.
  intros Hup.
  destruct text as [|c0 r0] eqn:Et; [split; reflexivity|]. rewrite <- Et.
  rewrite postprocess_text_staged by (subst; discriminate).
  destruct (staged_spacing text) as [H1 H2].
  destruct (staged text) as [|c r]; [split; reflexivity|].
  split; apply no_pair_strip.
  - destruct (Hup c) as [->|Hu]; [exact H1|].
    apply no_pair_after; [|now apply no_pair_tail in H1].
    clear -Hu. induction (upper c) as [|x u IH]; [reflexivity|].
    cbn [forallb] in *. apply andb_true_iff in Hu as [Hx Hu].
    apply andb_true_iff in Hx as [Hx _]. now rewrite Hx, IH.
  - destruct (Hup c) as [->|Hu]; [exact H2|].
    apply no_pair_after; [|now apply no_pair_tail in H2].
    clear -Hu. induction (upper c) as [|x u IH]; [reflexivity|].
    cbn [forallb] in *. apply andb_true_iff in Hu as [Hx Hu].
    apply andb_true_iff in Hx as [_ Hx]. now rewrite Hx, IH.
Qed.

Lemma postprocess_text_spacing_witness :
  no_pair Py.isspace Re.is_punct
    (postprocess_text Sample.upper (Py.lit " hello , world .How ?x ")) = true
  /\ no_pair Re.is_punct Re.is_alpha
       (postprocess_text Sample.upper (Py.lit " hello , world .How ?x "))
     = true.
Proof.
  apply (postprocess_text_spacing Sample.upper
           (Py.lit " hello , world .How ?x ")).
  exact sample_upper_plain.
Defined.

(** X4 -- [postprocess_text] capitalizes a text that starts with a
    character other than whitespace: when [str.upper] maps that character
    to a non-empty string without whitespace, the result starts with that
    string. *)
Theorem postprocess_text_capitalizes (upper : N -> str) (c : N) (r : str) :
  Py.isspace c = false ->
  upper c <> [] -> clean (upper c) ->
  exists rest, postprocess_text upper (c :: r) = upper c ++ rest.
Proof.
  intros Hc Hne Hcl.
  rewrite postprocess_text_staged by discriminate.
  destruct (staged_head c r Hc) as [tail ->].
  rewrite strip_after_clean by assumption. now eexists.
Qed.

Lemma postprocess_text_capitalizes_witness :
  exists rest,
    postprocess_text Sample.upper (Py.lit "hello ,world")
    = Py.lit "H" ++ rest.
Proof.
  apply (postprocess_text_capitalizes Sample.upper 104%N
           (Py.lit "ello ,world")).
  - reflexivity.
  - discriminate.
  - reflexivity.
Defined.

Lemma leading_space_staged (upper : N -> str) (spaces rest : str) :
  (forall c, Py.isspace c = true -> upper c = [c]) ->
  spaces <> [] -> forallb Py.isspace spaces = true ->
  Spec.starts_with Py.isspace rest = false ->
  Spec.starts_with Re.is_punct rest = false ->
  postprocess_text upper (spaces ++ rest)
  = Py.strip (staged (spaces ++ rest)).
Proof.
  intros Hup Hne Hsp Hr1 Hr2.
  destruct spaces as [|c ws]; [congruence|].
  cbn [forallb] in Hsp. apply andb_true_iff in Hsp as [Hc Hws].
  rewrite postprocess_text_staged by discriminate.
  cbn [app].
  destruct (staged_leading_space c (ws ++ rest) Hc) as [tail ->].
  - now rewrite (span_prefix Py.isspace ws rest Hws Hr1).
  - now rewrite (Hup c Hc).
Qed.

(** X5 -- [postprocess_text] capitalizes before it strips: a text that
    starts with whitespace which is not followed by punctuation comes out
    as it would with no capitalization at all (its first letter stays as
    it is), given that [str.upper] leaves whitespace alone. *)
Theorem postprocess_text_leading_space (upper : N -> str)
    (spaces rest : str) :
  (forall c, Py.isspace c = true -> upper c = [c]) ->
  spaces <> [] -> forallb Py.isspace spaces = true ->
  Spec.starts_with Py.isspace rest = false ->
  Spec.starts_with Re.is_punct rest = false ->
  postprocess_text upper (spaces ++ rest)
  = postprocess_text (fun c => [c]) (spaces ++ rest).
Proof.
  intros Hup Hne Hsp Hr1 Hr2.
  rewrite (leading_space_staged upper spaces rest) by assumption.
  now rewrite (leading_space_staged (fun c => [c]) spaces rest).
Qed.

Lemma postprocess_text_leading_space_witness :
  postprocess_text Sample.upper (Py.lit " " ++ Py.lit "hello")
  = postprocess_text (fun c => [c]) (Py.lit " " ++ Py.lit "hello").
Proof.
  apply (postprocess_text_leading_space Sample.upper
           (Py.lit " ") (Py.lit "hello")).
  - intros c Hc. unfold Sample.upper.
    destruct ((97 <=? c) && (c <=? 122))%N eqn:E; [|reflexivity].
    exfalso. apply andb_true_iff in E as [E1 E2].
    assert (Ha : Re.is_alpha c = true).
    { unfold Re.is_alpha. now rewrite E1, E2, orb_true_r. }
    apply alpha_not_space in Ha. congruence.
  - discriminate.
  - reflexivity.
  - reflexivity.
  - reflexivity.
Defined.

(** X6 -- [chunk_text] strips what it packs: for a text longer than
    [max_length] no chunk starts or ends with whitespace (a text within
    [max_length] is returned as it is). *)
Theorem chunk_text_chunks_stripped (text : str) (max_length : Z) :
  (max_length < Py.len text)%Z ->
  Forall (fun chunk => Spec.starts_with Py.isspace chunk = false /\
                       ends_clean chunk)
    (chunk_text text max_length).
Proof.
  intros Hlong. rewrite (chunk_text_pack max_length text Hlong).
  induction (Spec.pack max_length _) as [|piece pieces IH];
    constructor; [apply strip_stripped | exact IH].
Qed.

Lemma chunk_text_chunks_stripped_witness :
  Forall (fun chunk => Spec.starts_with Py.isspace chunk = false /\
                       ends_clean chunk)
    (chunk_text (Py.lit "A. B!?  C.. D.") 4).
Proof.
  apply (chunk_text_chunks_stripped (Py.lit "A. B!?  C.. D.") 4).
  reflexivity.
Defined.

(* ===================================================================== *)
(** * Further properties of the cache *)
(* ===================================================================== *)

Section KeySeparation.

Lemma split_at_colon (a a' x x' : str) :
  no_colon a -> no_colon a' ->
  a ++ 58%N :: x = a' ++ 58%N :: x' -> a = a' /\ x = x'.
Proof.
  unfold no_colon. revert a'. induction a as [|c a IH]; intros [|c' a'].
  - intros _ _ H. now inversion H.
  - cbn [forallb app]. intros _ H' H. inversion H; subst c'.
    now rewrite N.eqb_refl in H'.
  - cbn [forallb app]. intros H' _ H. inversion H; subst c.
    now rewrite N.eqb_refl in H'.
  - cbn [forallb app]. intros Ha Ha' H.
    apply andb_true_iff in Ha as [_ Ha].
    apply andb_true_iff in Ha' as [_ Ha'].
    inversion H; subst c'.
    destruct (IH a' Ha Ha') as [-> ->]; [assumption|]. now split.
Qed.

(** With a colon in a language code the key no longer tells where the
    source ends and the target begins. *)
Lemma key_with_colon (t a b c : str) :
  TranslationCache._generate_key t (a ++ Py.lit ":" ++ b) c
  = TranslationCache._generate_key t a (b ++ Py.lit ":" ++ c).
Proof.
  unfold TranslationCache._generate_key.
  destruct (Codec.encode_utf8 t); [|reflexivity].
  now rewrite <- !app_assoc.
Qed.

End KeySeparation.

(** X7 -- The key keeps language pairs apart: for language codes without a
    colon, two requests get the same key only if they have the same source
    and the same target (and their texts the same truncated digest), so
    the two directions of a pair never share a cache entry. *)
Theorem key_separates_pairs (t t' s d s' d' key : str) :
  no_colon s -> no_colon d -> no_colon s' -> no_colon d' ->
  TranslationCache._generate_key t s d = Ok key ->
  TranslationCache._generate_key t' s' d' = Ok key ->
  s = s' /\ d = d' /\
  exists bytes bytes',
    Codec.encode_utf8 t = Some bytes /\
    Codec.encode_utf8 t' = Some bytes' /\
    firstn 16 (Md5.hexdigest bytes) = firstn 16 (Md5.hexdigest bytes').
Proof.
  intros Hs Hd Hs' Hd'. unfold TranslationCache._generate_key.
  destruct (Codec.encode_utf8 t) as [bytes|]; [|discriminate].
  destruct (Codec.encode_utf8 t') as [bytes'|]; [|discriminate].
  intros H H'. rewrite <- H in H'. clear H.
  assert (Hk' : forall a b : str, Ok a = Ok b :> result str -> a = b)
    by (intros a b E; now inversion E).
  apply Hk', app_inv_head in H'. clear Hk'. rename H' into Hk'.
  change (Py.lit ":") with [58%N] in Hk'. cbn [app] in Hk'.
  destruct (split_at_colon _ _ _ _ Hs' Hs Hk') as [-> Hrest].
  destruct (split_at_colon _ _ _ _ Hd' Hd Hrest) as [-> Hhash].
  repeat split. exists bytes, bytes'. repeat split. now symmetry.
Qed.

Lemma key_separates_pairs_witness :
  Py.lit "en" = Py.lit "en" /\ Py.lit "hi" = Py.lit "hi" /\
  exists bytes bytes',
    Codec.encode_utf8 Sample.hello = Some bytes /\
    Codec.encode_utf8 Sample.hello = Some bytes' /\
    firstn 16 (Md5.hexdigest bytes) = firstn 16 (Md5.hexdigest bytes').
Proof.
  apply (key_separates_pairs Sample.hello Sample.hello
           (Py.lit "en") (Py.lit "hi") (Py.lit "en") (Py.lit "hi")
           Sample.hello_key);
    try reflexivity; vm_compute; reflexivity.
Defined.

(** X8 -- Set, then get: once [set] has returned [True], a [get] for the
    same text and pair returns the translation exactly when it is not the
    empty string, the server answers the GET, and the time is before the
    time of the write plus the TTL; otherwise it returns [None]. *)
Theorem set_then_get (w1 w2 : World) (t s d v : str) (p p1 : Process) :
  TranslationCache.set w1 t s d v p = (Ok true, p1) ->
  fst (TranslationCache.get w2 t s d p1)
  = Ok (if Py.truthy v
           && match redis_get_fails w2 with None => true | Some _ => false end
           && (now w2 <? now w1 + ttl (cache p))%Z
        then Some v else None).
Proof.
  rewrite set_run, get_run. intros H. inversion H as [[Hb Hp]]. clear H.
  cbn [fst cache]. f_equal. revert Hb. unfold store, get_value.
  destruct (redis_client (cache p)) as [keys|]; [|discriminate].
  destruct (TranslationCache._generate_key t s d) as [key|]; [|discriminate].
  unfold Redis.setex.
  destruct (redis_setex_fails w1); [discriminate|].
  destruct (Redis.encodable key) eqn:Ek; [|discriminate].
  destruct (Redis.encodable v); [|discriminate]. cbn [andb].
  destruct (ttl (cache p) <=? 0)%Z; [discriminate|]. intros _.
  cbn [snd redis_client]. unfold Redis.get. rewrite Ek.
  destruct (redis_get_fails w2); [now rewrite andb_false_r|].
  rewrite lookup_insert_eq, andb_true_r.
  destruct (now w2 <? now w1 + ttl (cache p))%Z;
    [|now rewrite andb_false_r].
  rewrite andb_true_r. now destruct (Py.truthy v).
Qed.

Lemma set_then_get_witness :
  fst (TranslationCache.get Sample.world Sample.hello
         (Py.lit "en") (Py.lit "hi")
         (snd (TranslationCache.set Sample.world Sample.hello
                 (Py.lit "en") (Py.lit "hi") Sample.namaste Sample.fresh)))
  = Ok (Some Sample.namaste).
Proof.
  apply (set_then_get Sample.world Sample.world Sample.hello
           (Py.lit "en") (Py.lit "hi") Sample.namaste Sample.fresh).
  vm_compute. reflexivity.
Defined.

(** X9 -- [set] writes one key: whatever it does, a [get] for a request
    with another key (or with no key) returns afterwards what it returned
    before. *)
Theorem set_keeps_other_keys (w w2 : World) (t s d v t' s' d' : str)
    (p : Process) :
  TranslationCache._generate_key t' s' d'
  <> TranslationCache._generate_key t s d ->
  fst (TranslationCache.get w2 t' s' d'
         (snd (TranslationCache.set w t s d v p)))
  = fst (TranslationCache.get w2 t' s' d' p).
Proof.
  intros Hkey. rewrite set_run, !get_run. cbn [fst snd cache]. f_equal.
  unfold store, get_value.
  destruct (redis_client (cache p)) as [keys|] eqn:Ec;
    [|cbn [snd]; now rewrite Ec].
  destruct (TranslationCache._generate_key t s d) as [key|];
    [|cbn [snd]; now rewrite Ec].
  destruct (Redis.setex w keys key (ttl (cache p)) v) as [keys'|] eqn:Es;
    [|cbn [snd]; now rewrite Ec].
  cbn [snd redis_client].
  destruct (TranslationCache._generate_key t' s' d') as [key'|];
    [|reflexivity].
  assert (Hne : key <> key') by congruence.
  unfold Redis.setex in Es.
  destruct (redis_setex_fails w); [discriminate|].
  destruct (Redis.encodable key && Redis.encodable v); [|discriminate].
  destruct (ttl (cache p) <=? 0)%Z; [discriminate|].
  inversion Es; subst keys'. unfold Redis.get.
  now rewrite lookup_insert_ne.
Qed.

Lemma set_keeps_other_keys_witness :
  fst (TranslationCache.get Sample.world Sample.long_text
         (Py.lit "en") (Py.lit "hi")
         (snd (TranslationCache.set Sample.world Sample.hello
                 (Py.lit "en") (Py.lit "hi") Sample.namaste Sample.fresh)))
  = fst (TranslationCache.get Sample.world Sample.long_text
           (Py.lit "en") (Py.lit "hi") Sample.fresh).
Proof.
  apply (set_keeps_other_keys Sample.world Sample.world Sample.hello
           (Py.lit "en") (Py.lit "hi") Sample.namaste Sample.long_text
           (Py.lit "en") (Py.lit "hi") Sample.fresh).
  vm_compute. discriminate.
Defined.

Section ClearFacts.

Variable scan : Z -> str -> gmap str (str * Z) -> result (Z * list str).
Variable del_fails : list str -> option str.
Variable rank : Z -> nat.

Hypothesis scan_matches :
  forall cursor keys c found,
    scan cursor (Py.lit "trans:*") keys = Ok (c, found) ->
    Forall Clearing.in_namespace found.

Hypothesis scan_ends :
  forall cursor keys c found,
    scan cursor (Py.lit "trans:*") keys = Ok (c, found) ->
    c <> 0%Z -> rank c < rank cursor.

Lemma delete_keys_only_removes (found : list str)
    (keys : gmap str (str * Z)) (k : str) (v : str * Z) :
  Clearing.delete_keys found keys !! k = Some v -> keys !! k = Some v.
Proof.
  induction found as [|f found IH]; [trivial|].
  cbn [Clearing.delete_keys fold_right]. intros H.
  apply lookup_delete_Some in H as [_ H]. now apply IH.
Qed.

Lemma delete_keys_elsewhere (found : list str)
    (keys : gmap str (str * Z)) (k : str) :
  Forall Clearing.in_namespace found -> ~ Clearing.in_namespace k ->
  Clearing.delete_keys found keys !! k = keys !! k.
Proof.
  intros Hf Hk. induction Hf as [|f found Hns Hf IH]; [reflexivity|].
  cbn [Clearing.delete_keys fold_right].
  rewrite lookup_delete_ne; [exact IH|]. intros ->. now apply Hk.
Qed.

Lemma scan_loop_safe (n : nat) :
  forall cursor keys, rank cursor < n ->
    exists keys',
      Clearing.scan_loop scan del_fails n cursor keys = Some keys' /\
      (forall k v, keys' !! k = Some v -> keys !! k = Some v) /\
      (forall k, ~ Clearing.in_namespace k -> keys' !! k = keys !! k).
Proof.
  induction n as [|n IH]; intros cursor keys Hn; [lia|].
  cbn [Clearing.scan_loop].
  destruct (scan cursor (Py.lit "trans:*") keys) as [[c found]|e] eqn:Es;
    [|exists keys; now repeat split].
  pose proof (scan_matches _ _ _ _ Es) as Hm.
  pose proof (scan_ends _ _ _ _ Es) as He.
  assert (Hstep : forall keys1,
            (forall k v, keys1 !! k = Some v -> keys !! k = Some v) ->
            (forall k, ~ Clearing.in_namespace k ->
                       keys1 !! k = keys !! k) ->
            exists keys',
              (if (c =? 0)%Z then Some keys1
               else Clearing.scan_loop scan del_fails n c keys1)
              = Some keys' /\
              (forall k v, keys' !! k = Some v -> keys !! k = Some v) /\
              (forall k, ~ Clearing.in_namespace k ->
                         keys' !! k = keys !! k)).
  { intros keys1 H1 H2. destruct (Z.eqb_spec c 0) as [Hc|Hc].
    - exists keys1. now repeat split.
    - destruct (IH c keys1) as (keys' & E & H3 & H4);
        [specialize (He Hc); lia|].
      exists keys'. split; [exact E|]. split.
      + intros k v Hk. now apply H1, H3.
      + intros k Hk. now rewrite H4, H2. }
  destruct found as [|f found].
  - apply Hstep; trivial.
  - destruct (del_fails (f :: found)); [exists keys; now repeat split|].
    apply Hstep.
    + intros k v. apply delete_keys_only_removes.
    + intros k Hk. now apply delete_keys_elsewhere.
Qed.

End ClearFacts.

(** X10 -- [clear] stays in its namespace: when the server's SCAN returns
    only keys that match [trans:*] and comes to an end, [clear] returns;
    it keeps the TTL and the client, adds and changes no entry, and leaves
    every key outside the namespace as it was -- also when a SCAN or a
    DEL raises on the way.  Without a client it does nothing. *)
Theorem clear_stays_in_namespace
    (scan : Z -> str -> gmap str (str * Z) -> result (Z * list str))
    (del_fails : list str -> option str) (rank : Z -> nat)
    (self : TranslationCache) :
  (forall cursor keys c found,
     scan cursor (Py.lit "trans:*") keys = Ok (c, found) ->
     Forall Clearing.in_namespace found) ->
  (forall cursor keys c found,
     scan cursor (Py.lit "trans:*") keys = Ok (c, found) ->
     c <> 0%Z -> rank c < rank cursor) ->
  exists self',
    Clearing.clear scan del_fails (S (rank 0%Z)) self = Some self' /\
    ttl self' = ttl self /\
    match redis_client self with
    | None => self' = self
    | Some keys =>
        exists keys',
          redis_client self' = Some keys' /\
          (forall k v, keys' !! k = Some v -> keys !! k = Some v) /\
          (forall k, ~ Clearing.in_namespace k -> keys' !! k = keys !! k)
    end.
Proof.
  intros Hm He. unfold Clearing.clear.
  destruct (redis_client self) as [keys|]; [|now exists self].
  destruct (scan_loop_safe scan del_fails rank Hm He (S (rank 0%Z)) 0%Z keys)
    as (keys' & -> & H1 & H2); [lia|].
  eexists. split; [reflexivity|]. split; [reflexivity|].
  exists keys'. now repeat split.
Qed.

Lemma clear_stays_in_namespace_witness :
  exists self',
    Clearing.clear Clearing.one_page (fun _ => None) (S 0)
      {| redis_client := Some Clearing.shared_store; ttl := 86400 |}
    = Some self' /\
    ttl self' = 86400%Z /\
    exists keys',
      redis_client self' = Some keys' /\
      (forall k v,
         keys' !! k = Some v -> Clearing.shared_store !! k = Some v) /\
      (forall k,
         ~ Clearing.in_namespace k ->
         keys' !! k = Clearing.shared_store !! k).
Proof.
  apply (clear_stays_in_namespace Clearing.one_page (fun _ => None)
           (fun _ => 0)
           {| redis_client := Some Clearing.shared_store; ttl := 86400 |}).
  - intros cursor keys c found H. inversion H; subst.
    constructor; [|constructor].
    exists (Py.lit "en:hi:ac170367261601e2"). reflexivity.
  - intros cursor keys c found H Hc. inversion H; subst. congruence.
Defined.

(* ===================================================================== *)
(** * Further properties of the registry and of the handler *)
(* ===================================================================== *)

Section RegistryFacts.

Variable w : World.

Lemma named_pairs (s d name : str) :
  MarianTranslator._get_model_name s d = Some name ->
  (s, d) = (MarianTranslator.en, MarianTranslator.hi) \/
  (s, d) = (MarianTranslator.hi, MarianTranslator.en).
Proof.
  unfold MarianTranslator._get_model_name, MarianTranslator.model_map.
  cbn [MarianTranslator.dict_get].
  destruct (decide ((MarianTranslator.en, MarianTranslator.hi) = (s, d)));
    [now left|].
  destruct (decide ((MarianTranslator.hi, MarianTranslator.en) = (s, d)));
    [now right|discriminate].
Qed.

(** The registry after [_load_model], pair by pair. *)
Lemma load_lookup (tr : MarianTranslator) (s d : str) (pair : str * str) :
  models (snd (fst (load w tr s d))) !! pair
  = if decide (pair = (s, d)) then
      match models tr !! (s, d) with
      | Some m => Some m
      | None =>
          match MarianTranslator._get_model_name s d with
          | Some name =>
              match from_pretrained w name with
              | None => Some name
              | Some _ => None
              end
          | None => None
          end
      end
    else models tr !! pair.
Proof.
  unfold load.
  destruct (models tr !! (s, d)) as [m|] eqn:Em.
  { cbn [fst snd]. destruct (decide (pair = (s, d))) as [->|]; trivial. }
  destruct (MarianTranslator._get_model_name s d) as [name|] eqn:En.
  2:{ cbn [fst snd]. destruct (decide (pair = (s, d))) as [->|]; trivial. }
  rewrite (model_names_truthy _ _ _ En). cbn [negb].
  destruct (from_pretrained w name) as [msg|]; cbn [fst snd models].
  - destruct (decide (pair = (s, d))) as [->|]; trivial.
  - destruct (decide (pair = (s, d))) as [->|Hne].
    + apply lookup_insert_eq.
    + now rewrite lookup_insert_ne.
Qed.

Lemma load_consistent (tr : MarianTranslator) (s d : str) :
  consistent tr -> consistent (snd (fst (load w tr s d))).
Proof.
  intros Hc. unfold load.
  destruct (models tr !! (s, d)) as [m|] eqn:Em; [exact Hc|].
  destruct (MarianTranslator._get_model_name s d) as [name|] eqn:En;
    [|exact Hc].
  destruct (negb (Py.truthy name)); [exact Hc|].
  destruct (from_pretrained w name) as [msg|]; [exact Hc|].
  cbn [fst snd]. intros pair. cbn [models tokenizers].
  destruct (decide (pair = (s, d))) as [->|Hne].
  - rewrite !lookup_insert_eq. split; [reflexivity|].
    intros name' E. cbn [fst snd]. congruence.
  - rewrite !lookup_insert_ne by congruence. apply Hc.
Qed.

Lemma run_engine_registry (tr : MarianTranslator) (t s d : str) :
  snd (fst (run_engine w tr t s d)) = snd (fst (load w tr s d)).
Proof.
  unfold run_engine.
  destruct (models tr !! (s, d)) as [m|] eqn:Em.
  - unfold load. rewrite Em. cbn [fst snd].
    destruct (tokenizers tr !! (s, d)); rewrite ?Em; reflexivity.
  - destruct (load w tr s d) as [[r tr1] evs]. destruct r as [[]|e];
      [|reflexivity].
    destruct (tokenizers tr1 !! (s, d)); [|reflexivity].
    destruct (models tr1 !! (s, d)); reflexivity.
Qed.

Lemma run_engine_consistent (tr : MarianTranslator) (t s d : str) :
  consistent tr -> consistent (snd (fst (run_engine w tr t s d))).
Proof.
  rewrite run_engine_registry. apply load_consistent.
Qed.

(** [translate] on a consistent registry, as a function of the naming
    table, the registry and the engine. *)
Lemma run_engine_result (tr : MarianTranslator) (t s d : str) :
  consistent tr ->
  fst (fst (run_engine w tr t s d))
  = match MarianTranslator._get_model_name s d with
    | None => Raise (ValueError s d)
    | Some name =>
        match models tr !! (s, d), from_pretrained w name with
        | None, Some msg => Raise (EngineError msg)
        | _, _ => generate w name t
        end
    end.
Proof.
  intros Hc. unfold run_engine.
  destruct (Hc (s, d)) as [Htk Hname]. cbn [fst snd] in Hname.
  destruct (models tr !! (s, d)) as [m|] eqn:Em.
  - rewrite Htk, ?Em, (Hname m eq_refl). reflexivity.
  - unfold load. rewrite Em.
    destruct (MarianTranslator._get_model_name s d) as [name|] eqn:En;
      [|reflexivity].
    rewrite (model_names_truthy _ _ _ En). cbn [negb].
    destruct (from_pretrained w name) as [msg|]; [reflexivity|].
    cbn [models tokenizers]. now rewrite !lookup_insert_eq.
Qed.

(** On a registered pair [translate] loads nothing. *)
Lemma run_engine_registered (tr : MarianTranslator) (t s d m : str) :
  models tr !! (s, d) = Some m ->
  snd (fst (run_engine w tr t s d)) = tr /\
  snd (run_engine w tr t s d) = [EngineTranslate t s d].
Proof.
  intros Em. unfold run_engine. rewrite Em.
  destruct (tokenizers tr !! (s, d)); rewrite ?Em; now split.
Qed.

(** The engine calls among the events of [translate]: the one call. *)
Lemma run_engine_calls (tr : MarianTranslator) (t s d : str) :
  List.filter is_engine_call (snd (run_engine w tr t s d))
  = [EngineTranslate t s d].
Proof.
  assert (Hl : List.filter is_engine_call (snd (load w tr s d)) = []).
  { unfold load. destruct (models tr !! (s, d)); [reflexivity|].
    destruct (MarianTranslator._get_model_name s d); [|reflexivity].
    destruct (negb _); [reflexivity|].
    destruct (from_pretrained w _); reflexivity. }
  unfold run_engine.
  destruct (models tr !! (s, d)) as [m|] eqn:Em.
  - destruct (tokenizers tr !! (s, d)); rewrite ?Em; reflexivity.
  - destruct (load w tr s d) as [[r tr1] evs]. cbn [snd] in Hl.
    destruct r as [[]|e].
    + destruct (tokenizers tr1 !! (s, d));
        [destruct (models tr1 !! (s, d))|]; cbn [snd List.filter is_engine_call];
        now rewrite Hl.
    + cbn [snd List.filter is_engine_call]. now rewrite Hl.
Qed.

(** [_preload_models] is two loads, whose errors are dropped. *)
Lemma preload_run (p : Process) :
  let first := load w (translator p) MarianTranslator.en MarianTranslator.hi in
  let second :=
    load w (snd (fst first)) MarianTranslator.hi MarianTranslator.en in
  MarianTranslator._preload_models w p
  = (Ok tt,
     {| translator := snd (fst second);
        cache := cache p;
        counters := counters p;
        trace := trace p ++ snd first ++ snd second |}).
Proof.
  intros first second. unfold MarianTranslator._preload_models.
  cbn [fold_right]. unfold bind at 1. unfold try_except at 1.
  rewrite _load_model_run. fold first.
  destruct (fst (fst first)) as [[]|e]; cbn [ret];
    unfold bind at 1; unfold try_except at 1;
    rewrite _load_model_run; cbn [translator cache counters trace];
    fold second;
    destruct (fst (fst second)) as [[]|e']; cbn [ret bind];
    now rewrite <- app_assoc.
Qed.

End RegistryFacts.

Section UnloadFacts.

Lemma unload_consistent (tr : MarianTranslator) (pair : str * str) :
  consistent tr ->
  consistent {| models := delete pair (models tr);
                tokenizers := delete pair (tokenizers tr) |}.
Proof.
  intros Hc pair'. cbn [models tokenizers].
  destruct (decide (pair = pair')) as [->|Hne].
  - rewrite !lookup_delete_eq. split; [reflexivity|discriminate].
  - rewrite !lookup_delete_ne by assumption. apply Hc.
Qed.

Lemma unload_run (s d : str) (p : Process) :
  consistent (translator p) ->
  Unloading.unload_model s d p
  = (Ok tt,
     {| translator :=
          {| models := delete (s, d) (models (translator p));
             tokenizers := delete (s, d) (tokenizers (translator p)) |};
        cache := cache p;
        counters := counters p;
        trace := trace p |}).
Proof.
  intros Hc. destruct (Hc (s, d)) as [Htk _].
  unfold Unloading.unload_model, bind, gets, put_translator, modify, ret.
  destruct (models (translator p) !! (s, d)) as [m|] eqn:Em.
  - rewrite Htk. reflexivity.
  - rewrite !delete_id by congruence.
    destruct p as [[ms tks] c cs evs]. reflexivity.
Qed.

Lemma fresh_consistent : consistent (translator Sample.fresh).
Proof.
  intros pair. split; [reflexivity|].
  intros name H. cbn in H. rewrite lookup_empty in H. discriminate.
Qed.

End UnloadFacts.

Section HandlerFacts.

Variable upper : N -> str.
Variable w : World.

(** A request is turned down with status 400, the process untouched, or
    it passed validation and is served. *)
Lemma handler_cases (data : option Request) (p : Process) :
  (exists b, translate upper w data p = (Ok (b, 400%Z), p)) \/
  (exists r t s d,
     data = Some r /\ validated w r t s d /\
     translate upper w data p
     = (Ok (fst (serve w upper p t s d)), snd (serve w upper p t s d))).
Proof.
  destruct data as [r|]; [|left; now exists InvalidJSON].
  destruct (rejection w r) as [b|] eqn:E.
  - left. exists b. now apply reject_run.
  - right. destruct (accept_validated w r E) as (t & s & d & Hv).
    exists r, t, s, d.
    split; [reflexivity|]. split; [exact Hv | now apply handler_run].
Qed.

Lemma serve_registry (p : Process) (t s d : str) :
  translator (snd (serve w upper p t s d)) = translator p \/
  translator (snd (serve w upper p t s d))
  = snd (fst (load w (translator p) s d)).
Proof.
  unfold serve. destruct (get_value w (cache p) t s d); [now left|].
  right. rewrite <- (run_engine_registry w _ (preprocess_text t)).
  destruct (run_engine w (translator p) (preprocess_text t) s d)
    as [[[out|e] tr] evs]; reflexivity.
Qed.

Lemma handler_consistent (data : option Request) (p : Process) :
  consistent (translator p) ->
  consistent (translator (snd (translate upper w data p))).
Proof.
  intros Hc.
  destruct (handler_cases data p) as [[b ->]|(r & t & s & d & _ & _ & ->)];
    [exact Hc|].
  cbn [snd]. destruct (serve_registry p t s d) as [-> | ->];
    [exact Hc | now apply load_consistent].
Qed.

Lemma supported_registered (tr : MarianTranslator) (s d : str) :
  preloaded tr -> (s, d) ∈ SUPPORTED_PAIRS ->
  exists m, models tr !! (s, d) = Some m.
Proof.
  intros Hp Hin. unfold preloaded in Hp. rewrite Forall_forall in Hp.
  specialize (Hp _ Hin). destruct (models tr !! (s, d)) as [m|];
    [now exists m | congruence].
Qed.

Lemma handler_preloaded (data : option Request) (p : Process) :
  preloaded (translator p) ->
  translator (snd (translate upper w data p)) = translator p /\
  load_count (trace (snd (translate upper w data p))) = load_count (trace p).
Proof.
  intros Hp.
  destruct (handler_cases data p) as [[b ->]|(r & t & s & d & _ & Hv & ->)];
    [now split|].
  destruct Hv as (_ & _ & _ & _ & _ & Hin).
  destruct (supported_registered _ _ _ Hp Hin) as [m Em].
  destruct (run_engine_registered w _ (preprocess_text t) _ _ _ Em)
    as [Htr Hev].
  cbn [snd]. unfold serve.
  destruct (get_value w (cache p) t s d).
  - cbn [snd translator trace]. split; [reflexivity|].
    rewrite load_count_app. apply Nat.add_0_r.
  - destruct (run_engine w (translator p) (preprocess_text t) s d)
      as [[[out|e] tr] evs]; cbn [fst snd] in Htr, Hev; subst tr evs;
      cbn [snd translator trace]; (split; [reflexivity|]);
      rewrite load_count_app; apply Nat.add_0_r.
Qed.

End HandlerFacts.

(** X11 -- The registry stays consistent: when the two dictionaries of the
    translator hold the same pairs, each with the model the naming table
    gives for it, they still do after any sequence of requests, after
    [_preload_models], [_load_model], [translate] and [unload_model] --
    whether the call returned or raised. *)
Theorem registry_stays_consistent (upper : N -> str)
    (requests : list (World * option Request)) (p : Process) :
  consistent (translator p) ->
  consistent (translator (serve_all upper requests p)) /\
  (forall w,
     consistent (translator (snd (MarianTranslator._preload_models w p)))) /\
  (forall w s d,
     consistent (translator (snd (MarianTranslator._load_model w s d p)))) /\
  (forall w t s d,
     consistent (translator (snd (MarianTranslator.translate w t s d p)))) /\
  (forall s d,
     consistent (translator (snd (Unloading.unload_model s d p)))).
Proof.
  intros Hc. split.
  { revert p Hc.
    induction requests as [|[w data] rest IH]; intros p Hc; [exact Hc|].
    cbn [serve_all]. apply IH. now apply handler_consistent. }
  split.
  { intros w. pose proof (preload_run w p) as E. cbv zeta in E. rewrite E.
    cbn [snd translator]. now apply load_consistent, load_consistent. }
  split.
  { intros w s d. rewrite _load_model_run. cbn [snd translator].
    now apply load_consistent. }
  split.
  { intros w t s d. rewrite translate_run. cbn [snd translator].
    now apply run_engine_consistent. }
  intros s d. rewrite unload_run by exact Hc. cbn [snd translator].
  now apply unload_consistent.
Qed.

Lemma registry_stays_consistent_witness :
  consistent
    (translator
       (serve_all Sample.upper
          [(Sample.world, Some (Sample.request Sample.hello));
           (Sample.world_without_engine, Some Sample.french)]
          Sample.fresh)) /\
  (forall w,
     consistent
       (translator (snd (MarianTranslator._preload_models w Sample.fresh)))) /\
  (forall w s d,
     consistent
       (translator (snd (MarianTranslator._load_model w s d Sample.fresh)))) /\
  (forall w t s d,
     consistent
       (translator
          (snd (MarianTranslator.translate w t s d Sample.fresh)))) /\
  (forall s d,
     consistent
       (translator (snd (Unloading.unload_model s d Sample.fresh)))).
Proof.
  exact (registry_stays_consistent Sample.upper
           [(Sample.world, Some (Sample.request Sample.hello));
            (Sample.world_without_engine, Some Sample.french)]
           Sample.fresh fresh_consistent).
Defined.

(** X12 -- What [translate] returns: on a consistent registry it raises
    [ValueError] exactly for a pair without a model name; for a named pair
    that is not registered and whose load fails it raises the loader's
    error; in every other case it returns, or raises, what the engine
    does with the model of the naming table on the given text.  A
    [KeyError] of its own dictionaries never occurs. *)
Theorem translate_result (w : World) (t s d : str) (p : Process) :
  consistent (translator p) ->
  fst (MarianTranslator.translate w t s d p)
  = match MarianTranslator._get_model_name s d with
    | None => Raise (ValueError s d)
    | Some name =>
        match models (translator p) !! (s, d), from_pretrained w name with
        | None, Some msg => Raise (EngineError msg)
        | _, _ => generate w name t
        end
    end.
Proof.
  intros Hc. rewrite translate_run. cbn [fst].
  now apply run_engine_result.
Qed.

Lemma translate_result_witness :
  fst (MarianTranslator.translate Sample.world_without_engine Sample.hello
         (Py.lit "en") (Py.lit "hi") Sample.fresh)
  = Raise (EngineError (Py.lit "CUDA out of memory")) /\
  fst (MarianTranslator.translate Sample.world Sample.hello
         (Py.lit "en") (Py.lit "fr") Sample.fresh)
  = Raise (ValueError (Py.lit "en") (Py.lit "fr")).
Proof.
  split.
  - exact (translate_result Sample.world_without_engine Sample.hello
             (Py.lit "en") (Py.lit "hi") Sample.fresh fresh_consistent).
  - exact (translate_result Sample.world Sample.hello
             (Py.lit "en") (Py.lit "fr") Sample.fresh fresh_consistent).
Defined.

(** X13 -- [unload_model] removes one pair: on a consistent registry it
    returns without raising, the pair is gone from both dictionaries,
    every other pair, the cache and the counters are as before; and
    unloading a pair right after its first load gives back the registry
    from before the load. *)
Theorem unload_model_removes (s d : str) (p : Process) :
  consistent (translator p) ->
  Unloading.unload_model s d p
  = (Ok tt,
     {| translator :=
          {| models := delete (s, d) (models (translator p));
             tokenizers := delete (s, d) (tokenizers (translator p)) |};
        cache := cache p;
        counters := counters p;
        trace := trace p |}) /\
  (forall w,
     models (translator p) !! (s, d) = None ->
     translator
       (snd (Unloading.unload_model s d
               (snd (MarianTranslator._load_model w s d p))))
     = translator p).
Proof.
  intros Hc. split; [now apply unload_run|].
  intros w Em. rewrite _load_model_run.
  rewrite unload_run by (cbn [snd translator]; now apply load_consistent).
  cbn [snd translator].
  assert (Etk : tokenizers (translator p) !! (s, d) = None)
    by (rewrite (proj1 (Hc (s, d))); exact Em).
  assert (Eid : {| models := delete (s, d) (models (translator p));
                   tokenizers := delete (s, d) (tokenizers (translator p)) |}
                = translator p).
  { rewrite !delete_id by assumption. now destruct (translator p). }
  unfold load. rewrite Em.
  destruct (MarianTranslator._get_model_name s d) as [name|];
    [|exact Eid].
  destruct (negb (Py.truthy name)); [exact Eid|].
  destruct (from_pretrained w name); [exact Eid|].
  cbn [fst snd models tokenizers].
  rewrite !delete_insert_id by assumption. now destruct (translator p).
Qed.

Lemma unload_model_removes_witness :
  Unloading.unload_model (Py.lit "en") (Py.lit "hi") Sample.fresh
  = (Ok tt,
     {| translator :=
          {| models :=
               delete (Py.lit "en", Py.lit "hi")
                 (models (translator Sample.fresh));
             tokenizers :=
               delete (Py.lit "en", Py.lit "hi")
                 (tokenizers (translator Sample.fresh)) |};
        cache := cache Sample.fresh;
        counters := counters Sample.fresh;
        trace := trace Sample.fresh |}) /\
  (forall w,
     models (translator Sample.fresh) !! (Py.lit "en", Py.lit "hi") = None ->
     translator
       (snd (Unloading.unload_model (Py.lit "en") (Py.lit "hi")
               (snd (MarianTranslator._load_model w (Py.lit "en")
                       (Py.lit "hi") Sample.fresh))))
     = translator Sample.fresh).
Proof.
  exact (unload_model_removes (Py.lit "en") (Py.lit "hi") Sample.fresh
           fresh_consistent).
Defined.

(** X14 -- [_preload_models] isolates failures: it never raises and
    touches neither cache nor counters, and afterwards a pair is
    registered exactly if it was registered before or it is one of the
    two named pairs and the load of its own model succeeded -- whether or
    not the other load failed. *)
Theorem preload_isolates_failures (w : World) (p : Process) :
  fst (MarianTranslator._preload_models w p) = Ok tt /\
  cache (snd (MarianTranslator._preload_models w p)) = cache p /\
  counters (snd (MarianTranslator._preload_models w p)) = counters p /\
  forall s d,
    models (translator (snd (MarianTranslator._preload_models w p))) !! (s, d)
    = match models (translator p) !! (s, d) with
      | Some m => Some m
      | None =>
          match MarianTranslator._get_model_name s d with
          | Some name =>
              match from_pretrained w name with
              | None => Some name
              | Some _ => None
              end
          | None => None
          end
      end.
Proof.
  pose proof (preload_run w p) as E. cbv zeta in E. rewrite E. clear E.
  cbn [fst snd translator cache counters].
  split; [reflexivity|]. split; [reflexivity|]. split; [reflexivity|].
  intros s d. rewrite !load_lookup.
  destruct (decide ((s, d) = (MarianTranslator.hi, MarianTranslator.en)))
    as [E|Hne].
  { inversion E; subst s d.
    rewrite decide_False by discriminate. reflexivity. }
  destruct (decide ((s, d) = (MarianTranslator.en, MarianTranslator.hi)))
    as [E|Hne'].
  { inversion E; subst s d. reflexivity. }
  destruct (models (translator p) !! (s, d)); [reflexivity|].
  destruct (MarianTranslator._get_model_name s d) as [name|] eqn:En;
    [|reflexivity].
  destruct (named_pairs _ _ _ En); contradiction.
Qed.

(** X15 -- Once every supported pair is registered, requests load
    nothing: whatever requests follow, served in whatever worlds, the
    registry is the same afterwards and no load of a model was started. *)
Theorem registered_pairs_never_load (upper : N -> str)
    (requests : list (World * option Request)) (p : Process) :
  preloaded (translator p) ->
  translator (serve_all upper requests p) = translator p /\
  load_count (trace (serve_all upper requests p)) = load_count (trace p).
Proof.
  revert p. induction requests as [|[w data] rest IH]; intros p Hp;
    [now split|].
  cbn [serve_all].
  destruct (handler_preloaded upper w data p Hp) as [Htr Hn].
  destruct (IH (snd (translate upper w data p))) as [Htr' Hn'];
    [now rewrite Htr|].
  split; congruence.
Qed.

Lemma registered_pairs_never_load_witness :
  translator
    (serve_all Sample.upper
       [(Sample.world, Some (Sample.request Sample.hello));
        (Sample.world_without_redis, Some (Sample.request Sample.hello))]
       (snd (MarianTranslator._preload_models Sample.world Sample.fresh)))
  = translator
      (snd (MarianTranslator._preload_models Sample.world Sample.fresh)) /\
  load_count
    (trace
       (serve_all Sample.upper
          [(Sample.world, Some (Sample.request Sample.hello));
           (Sample.world_without_redis, Some (Sample.request Sample.hello))]
          (snd (MarianTranslator._preload_models Sample.world Sample.fresh))))
  = load_count
      (trace (snd (MarianTranslator._preload_models Sample.world
                     Sample.fresh))).
Proof.
  apply (registered_pairs_never_load Sample.upper
           [(Sample.world, Some (Sample.request Sample.hello));
            (Sample.world_without_redis, Some (Sample.request Sample.hello))]
           (snd (MarianTranslator._preload_models Sample.world
                   Sample.fresh))).
  repeat constructor; vm_compute; discriminate.
Defined.

(** X16 -- The model a response names is the model that produced it: on a
    consistent registry, a response with status 200 and 'cached': False
    answers a request that passed validation, its model field is the
    name the naming table gives for the pair, that model is registered
    afterwards, and the translated text is [postprocess_text] of what the
    engine returned with that model for [preprocess_text] of the request
    text. *)
Theorem reported_model_produced (upper : N -> str) (w : World)
    (data : option Request) (p p' : Process) (final s d : str)
    (model : option (option str)) :
  consistent (translator p) ->
  translate upper w data p
  = (Ok (Translation final s d model false, 200%Z), p') ->
  exists r t name out,
    data = Some r /\ validated w r t s d /\
    MarianTranslator._get_model_name s d = Some name /\
    model = Some (Some name) /\
    models (translator p') !! (s, d) = Some name /\
    generate w name (preprocess_text t) = Ok out /\
    final = postprocess_text upper out.
Proof.
  intros Hc H.
  destruct (handler_cases upper w data p)
    as [[b E]|(r & t & s' & d' & Hd & Hv & E)];
    rewrite E in H; [now inversion H|]. clear E.
  pose proof (run_engine_result w _ (preprocess_text t) s' d' Hc) as Hres.
  pose proof (run_engine_registry w (translator p) (preprocess_text t) s' d')
    as Hreg.
  pose proof (load_lookup w (translator p) s' d' (s', d')) as Hlook.
  rewrite decide_True in Hlook by reflexivity. rewrite <- Hreg in Hlook.
  clear Hreg. destruct (Hc (s', d')) as [_ Hname]. cbn [fst snd] in Hname.
  unfold serve in H.
  destruct (get_value w (cache p) t s' d'); [now inversion H|].
  destruct (run_engine w (translator p) (preprocess_text t) s' d')
    as [[[out|e] tr] evs]; cbn [fst snd] in H, Hres, Hlook;
    [|now inversion H].
  inversion H; subst final s' d' model p'. clear H.
  cbn [translator]. unfold MarianTranslator.get_model_name.
  destruct (MarianTranslator._get_model_name s d) as [name|];
    [|discriminate].
  exists r, t, name, out.
  split; [assumption|]. split; [assumption|]. split; [reflexivity|].
  split; [reflexivity|].
  destruct (models (translator p) !! (s, d)) as [m|].
  - specialize (Hname m eq_refl). inversion Hname; subst m.
    split; [assumption|]. split; [now symmetry | reflexivity].
  - destruct (from_pretrained w name); [discriminate|].
    split; [assumption|]. split; [now symmetry | reflexivity].
Qed.

Lemma reported_model_produced_witness :
  exists r t name out,
    Some (Sample.request Sample.hello) = Some r /\
    validated Sample.world r t (Py.lit "en") (Py.lit "hi") /\
    MarianTranslator._get_model_name (Py.lit "en") (Py.lit "hi")
    = Some name /\
    Some (Some (Py.lit "Helsinki-NLP/opus-mt-en-hi")) = Some (Some name) /\
    models
      (translator
         (snd (translate Sample.upper Sample.world
                 (Some (Sample.request Sample.hello)) Sample.fresh)))
      !! (Py.lit "en", Py.lit "hi") = Some name /\
    generate Sample.world name (preprocess_text t) = Ok out /\
    postprocess_text Sample.upper Sample.namaste
    = postprocess_text Sample.upper out.
Proof.
  apply (reported_model_produced Sample.upper Sample.world
           (Some (Sample.request Sample.hello)) Sample.fresh
           (snd (translate Sample.upper Sample.world
                   (Some (Sample.request Sample.hello)) Sample.fresh))
           (postprocess_text Sample.upper Sample.namaste)
           (Py.lit "en") (Py.lit "hi")
           (Some (Some (Py.lit "Helsinki-NLP/opus-mt-en-hi")))
           fresh_consistent).
  vm_compute. reflexivity.
Defined.

(** X17 -- What reaches the engine: a request makes at most one call of
    the engine, and only after it passed validation; the text of that
    call is [preprocess_text] of the request text, for the requested
    pair, and it is no longer than the maximum length. *)
Theorem engine_gets_normalized_text (upper : N -> str) (w : World)
    (data : option Request) (p : Process) :
  exists events,
    trace (snd (translate upper w data p)) = trace p ++ events /\
    (List.filter is_engine_call events = [] \/
     exists r t s d,
       data = Some r /\ validated w r t s d /\
       List.filter is_engine_call events
       = [EngineTranslate (preprocess_text t) s d] /\
       (Py.len (preprocess_text t) <= max_length w)%Z).
Proof.
  destruct (handler_cases upper w data p)
    as [[b ->]|(r & t & s & d & Hd & Hv & ->)].
  { exists []. split; [now rewrite app_nil_r | now left]. }
  cbn [snd]. unfold serve.
  destruct (get_value w (cache p) t s d).
  { exists [CacheGet t s d]. split; [reflexivity | now left]. }
  pose proof (run_engine_calls w (translator p) (preprocess_text t) s d)
    as Hcalls.
  assert (Hlen : (Py.len (preprocess_text t) <= max_length w)%Z).
  { destruct Hv as (_ & _ & _ & _ & Hlen & _).
    pose proof (preprocess_text_length t). lia. }
  destruct (run_engine w (translator p) (preprocess_text t) s d)
    as [[[out|e] tr] evs]; cbn [snd] in Hcalls; cbn [snd trace].
  - exists (CacheGet t s d :: evs
            ++ [CacheSet t s d (postprocess_text upper out)]).
    split; [reflexivity|]. right. exists r, t, s, d.
    split; [assumption|]. split; [assumption|]. split; [|assumption].
    cbn [List.filter is_engine_call]. rewrite List.filter_app, Hcalls.
    reflexivity.
  - exists (CacheGet t s d :: evs).
    split; [reflexivity|]. right. exists r, t, s, d.
    split; [assumption|]. split; [assumption|]. split; [|assumption].
    cbn [List.filter is_engine_call]. exact Hcalls.
Qed.

(** X18 -- What the counters count: the handler always answers; a
    response with status 200 adds one to the translations and one to the
    cache hits when it is 'cached': True, one to the cache misses when it
    is not; a response with another status adds nothing to the
    translations and nothing to the hits. *)
Theorem counters_account (upper : N -> str) (w : World)
    (data : option Request) (p : Process) :
  exists b status,
    fst (translate upper w data p) = Ok (b, status) /\
    if (status =? 200)%Z
    then counters (snd (translate upper w data p))
         = inc_translation
             ((if served_from_cache b then inc_cache_hit
               else inc_cache_miss) (counters p))
    else translation_counter (counters (snd (translate upper w data p)))
         = translation_counter (counters p) /\
         cache_hit_counter (counters (snd (translate upper w data p)))
         = cache_hit_counter (counters p).
Proof.
  destruct (handler_cases upper w data p)
    as [[b ->]|(r & t & s & d & Hd & Hv & ->)].
  { exists b, 400%Z. now repeat split. }
  cbn [fst snd]. unfold serve.
  destruct (get_value w (cache p) t s d) as [cached|].
  { eexists _, _. split; [reflexivity|]. reflexivity. }
  destruct (run_engine w (translator p) (preprocess_text t) s d)
    as [[[out|e] tr] evs].
  - eexists _, _. split; [reflexivity|]. reflexivity.
  - eexists _, _. split; [reflexivity|]. now split.
Qed.

(** X19 -- The answer does not wait on the write: whether the server
    accepts or refuses the SETEX of a request, the response, the
    registry, the counters and the recorded accesses are the same; only
    the cache can differ. *)
Theorem failed_write_same_answer (upper : N -> str) (w : World)
    (refusal : option str) (data : option Request) (p : Process) :
  fst (translate upper (with_setex w refusal) data p)
  = fst (translate upper w data p) /\
  translator (snd (translate upper (with_setex w refusal) data p))
  = translator (snd (translate upper w data p)) /\
  counters (snd (translate upper (with_setex w refusal) data p))
  = counters (snd (translate upper w data p)) /\
  trace (snd (translate upper (with_setex w refusal) data p))
  = trace (snd (translate upper w data p)).
Proof.
  destruct data as [r0|]; [|now repeat split].
  destruct (handler_cases upper w (Some r0) p)
    as [[b E]|(r & t & s & d & Hd & Hv & E)].
  - rewrite E. rename r0 into r.
    assert (Hr : rejection (with_setex w refusal) r = Some b).
    { destruct (rejection w r) as [b'|] eqn:Er.
      - rewrite (reject_run upper w r b' p Er) in E.
        inversion E; subst b'. exact Er.
      - destruct (accept_validated w r Er) as (t & s & d & Hv).
        rewrite (handler_run upper w r t s d p Hv) in E.
        exfalso. inversion E as [[Hb Hp]]. revert Hb. unfold serve.
        destruct (get_value w (cache p) t s d); [discriminate|].
        destruct (run_engine w (translator p) (preprocess_text t) s d)
          as [[[out|e] tr] evs]; discriminate. }
    rewrite (reject_run upper _ r b p Hr). now repeat split.
  - inversion Hd; subst r0. rewrite E.
    rewrite (handler_run upper (with_setex w refusal) r t s d p Hv).
    cbn [fst snd]. unfold serve.
    change (get_value (with_setex w refusal)) with (get_value w).
    destruct (get_value w (cache p) t s d); [now repeat split|].
    change (run_engine (with_setex w refusal)) with (run_engine w).
    destruct (run_engine w (translator p) (preprocess_text t) s d)
      as [[[out|e] tr] evs]; now repeat split.
Qed.

Section CacheOverRequests.

Variable upper : N -> str.
Variable w : World.

Lemma rejection_not_cached (r : Request) (b : body) :
  rejection w r = Some b -> served_from_cache b = false.
Proof.
  unfold rejection.
  destruct (text r) as [t|]; [|intros H; now inversion H].
  destruct (source_lang r) as [s|]; [|intros H; now inversion H].
  destruct (target_lang r) as [d|]; [|intros H; now inversion H].
  destruct (negb (Py.truthy t) || negb (Py.truthy s) || negb (Py.truthy d));
    [intros H; now inversion H|].
  destruct (max_length w <? Py.len t)%Z; [intros H; now inversion H|].
  destruct (negb (bool_decide ((s, d) ∈ SUPPORTED_PAIRS)));
    [intros H; now inversion H | discriminate].
Qed.

(** Without a client a request leaves the cache alone and is not answered
    from it. *)
Lemma handler_without_client (data : option Request) (p : Process) :
  redis_client (cache p) = None ->
  cache (snd (translate upper w data p)) = cache p /\
  exists b status,
    fst (translate upper w data p) = Ok (b, status) /\
    served_from_cache b = false.
Proof.
  intros Hc. destruct data as [r|];
    [|split; [reflexivity | now exists InvalidJSON, 400%Z]].
  destruct (rejection w r) as [b|] eqn:Er.
  { rewrite (reject_run upper w r b p Er). split; [reflexivity|].
    exists b, 400%Z. split; [reflexivity|].
    now apply rejection_not_cached with r. }
  destruct (accept_validated w r Er) as (t & s & d & Hv).
  rewrite (handler_run upper w r t s d p Hv). cbn [fst snd].
  unfold serve, get_value, store. rewrite Hc.
  destruct (run_engine w (translator p) (preprocess_text t) s d)
    as [[[out|e] tr] evs]; cbn [fst snd cache];
    (split; [reflexivity|]); eexists _, _; now split.
Qed.

End CacheOverRequests.

(** X20 -- A failed connection is never retried: when the cache has no
    client (as after a failed [_connect] at construction), it has none
    after any sequence of requests, whatever the server does meanwhile,
    and every later request is answered without 'cached': True. *)
Theorem failed_connect_never_retried (upper : N -> str)
    (requests : list (World * option Request)) (p : Process) :
  redis_client (cache p) = None ->
  cache (serve_all upper requests p) = cache p /\
  forall w data,
    exists b status,
      fst (translate upper w data (serve_all upper requests p))
      = Ok (b, status) /\
      served_from_cache b = false.
Proof.
  revert p. induction requests as [|[w0 data0] rest IH]; intros p Hc.
  - split; [reflexivity|]. intros w data.
    now apply handler_without_client.
  - cbn [serve_all].
    destruct (handler_without_client upper w0 data0 p Hc) as [Hk _].
    destruct (IH (snd (translate upper w0 data0 p))) as [Hk' Hans];
      [now rewrite Hk|].
    split; [congruence | exact Hans].
Qed.

Lemma failed_connect_never_retried_witness :
  cache
    (serve_all Sample.upper
       [(Sample.world, Some (Sample.request Sample.hello))] offline)
  = cache offline /\
  forall w data,
    exists b status,
      fst (translate Sample.upper w data
             (serve_all Sample.upper
                [(Sample.world, Some (Sample.request Sample.hello))]
                offline))
      = Ok (b, status) /\
      served_from_cache b = false.
Proof.
  apply (failed_connect_never_retried Sample.upper
           [(Sample.world, Some (Sample.request Sample.hello))] offline).
  reflexivity.
Defined.

Section OwnKey.

Variable upper : N -> str.
Variable w : World.

Lemma validated_unique (r : Request) (t s d t' s' d' : str) :
  validated w r t s d -> validated w r t' s' d' ->
  t = t' /\ s = s' /\ d = d'.
Proof.
  intros (Ht & Hs & Hd & _) (Ht' & Hs' & Hd' & _).
  repeat split; congruence.
Qed.

Lemma written_unique (data : option Request) (p : Process)
    (key final key' final' : str) :
  written upper w data p key final -> written upper w data p key' final' ->
  key = key' /\ final = final'.
Proof.
  intros (r & t & s & d & model & Hd & Hv & Hr & Hk & _)
         (r' & t' & s' & d' & model' & Hd' & Hv' & Hr' & Hk' & _).
  assert (r' = r) by congruence. subst r'.
  destruct (validated_unique _ _ _ _ _ _ _ Hv Hv') as (<- & <- & <-).
  rewrite Hr in Hr'. split; [congruence | now inversion Hr'].
Qed.

(** The cache after a request: as before, or with the one entry. *)
Lemma handler_cache (data : option Request) (p : Process)
    (keys : gmap str (str * Z)) :
  redis_client (cache p) = Some keys ->
  (cache (snd (translate upper w data p)) = cache p /\
   forall key final, ~ written upper w data p key final) \/
  (exists key final,
     written upper w data p key final /\
     cache (snd (translate upper w data p))
     = {| redis_client :=
            Some (<[key := (final, (now w + ttl (cache p))%Z)]> keys);
          ttl := ttl (cache p) |}).
Proof.
  intros Hc.
  destruct (handler_cases upper w data p)
    as [[b E]|(r & t & s & d & Hd & Hv & E)].
  { left. rewrite E. split; [reflexivity|].
    intros key final (r & t & s & d & model & _ & _ & Hr & _).
    rewrite E in Hr. discriminate. }
  assert (Hno :
            (forall key final model,
               fst (translate upper w data p)
               = Ok (Translation final s d model false, 200%Z) ->
               TranslationCache._generate_key t s d = Ok key ->
               redis_setex_fails w = None ->
               Redis.encodable final = true ->
               (0 < ttl (cache p))%Z -> False) ->
            (forall key final, ~ written upper w data p key final)).
  { intros Hfalse key final
      (r' & t' & s' & d' & model & Hd' & Hv' & Hr & Hk & Hup & He & Httl).
    assert (r' = r) by congruence. subst r'.
    destruct (validated_unique _ _ _ _ _ _ _ Hv Hv') as (<- & <- & <-).
    exact (Hfalse key final model Hr Hk Hup He Httl). }
  rewrite E. cbn [fst snd]. rewrite E in Hno. cbn [fst] in Hno.
  unfold serve in *.
  destruct (get_value w (cache p) t s d) as [cached|].
  { left. split; [reflexivity|]. apply Hno.
    intros key final model Hr. discriminate. }
  destruct (run_engine w (translator p) (preprocess_text t) s d)
    as [[[out|e] tr] evs]; cbn [fst snd cache] in *.
  2:{ left. split; [reflexivity|]. apply Hno.
      intros key final model Hr. discriminate. }
  unfold store. rewrite Hc.
  destruct (TranslationCache._generate_key t s d) as [key|] eqn:Ek;
    cbn [snd].
  2:{ left. split; [reflexivity|]. apply Hno.
      intros key final model _ Hk. discriminate. }
  pose proof (key_encodable t s d key
                (proj2 (proj2 (proj2 (proj2 (proj2 Hv))))) Ek) as Hkey.
  unfold Redis.setex. rewrite Hkey. cbn [andb].
  destruct (redis_setex_fails w) as [msg|] eqn:Eup; cbn [snd].
  { left. split; [reflexivity|]. apply Hno.
    intros key' final model _ _ Hup. discriminate. }
  destruct (Redis.encodable (postprocess_text upper out)) eqn:Ee;
    cbn [snd].
  2:{ left. split; [reflexivity|]. apply Hno.
      intros key' final model Hr _ _ He. inversion Hr; subst final.
      congruence. }
  destruct (ttl (cache p) <=? 0)%Z eqn:Et; cbn [snd].
  { left. split; [reflexivity|]. apply Hno.
    intros key' final model _ _ _ _ Httl. apply Z.leb_le in Et. lia. }
  right. exists key, (postprocess_text upper out).
  split; [|reflexivity].
  exists r, t, s, d, (Some (MarianTranslator.get_model_name s d)).
  apply Z.leb_gt in Et. rewrite E. cbn [fst].
  repeat split; try assumption; apply Hv.
Qed.

End OwnKey.

(** X21 -- A request writes its own key, and only when the write is
    accepted: with a client, the cache has a client and the same TTL after
    the request.  When a validated request is answered with status 200 and
    'cached': False and the server accepts the SETEX (it answers, the
    translated text can be encoded, the TTL is positive), the cache is
    afterwards the cache from before with the translated text of the
    response under the key of the request, expiring one TTL after the time
    of the request.  In every other case -- the request was turned down,
    answered from the cache or with an error, or the SETEX was refused --
    the cache is exactly as before.  So every key other than the key of
    the request holds what it held before. *)
Theorem request_writes_own_key (upper : N -> str) (w : World)
    (data : option Request) (p : Process) (keys : gmap str (str * Z)) :
  redis_client (cache p) = Some keys ->
  exists keys',
    redis_client (cache (snd (translate upper w data p))) = Some keys' /\
    ttl (cache (snd (translate upper w data p))) = ttl (cache p) /\
    (forall key final,
       written upper w data p key final ->
       keys' = <[key := (final, (now w + ttl (cache p))%Z)]> keys) /\
    ((forall key final, ~ written upper w data p key final) ->
     keys' = keys) /\
    (forall r t s d key k,
       data = Some r -> validated w r t s d ->
       TranslationCache._generate_key t s d = Ok key ->
       k <> key -> keys' !! k = keys !! k).
Proof.
  intros Hc.
  destruct (handler_cache upper w data p keys Hc)
    as [[-> Hno]|(key & final & Hw & ->)].
  - exists keys. split; [exact Hc|]. split; [reflexivity|].
    split; [intros key final Hw; now destruct (Hno key final)|].
    split; reflexivity.
  - eexists. split; [reflexivity|]. split; [reflexivity|]. split.
    { intros key' final' Hw'.
      now destruct (written_unique upper w data p _ _ _ _ Hw Hw')
        as [<- <-]. }
    split; [intros Hno; now destruct (Hno key final)|].
    intros r t s d key' k Hd Hv Hk Hne.
    destruct Hw as (r' & t' & s' & d' & model & Hd' & Hv' & _ & Hk' & _).
    assert (r' = r) by congruence. subst r'.
    destruct (validated_unique w _ _ _ _ _ _ _ Hv Hv') as (<- & <- & <-).
    assert (key' = key) by congruence. subst key'.
    now rewrite lookup_insert_ne.
Qed.

Lemma request_writes_own_key_witness :
  redis_client
    (cache (snd (translate Sample.upper Sample.world
                   (Some (Sample.request Sample.hello)) Sample.fresh)))
  = Some (<[Sample.hello_key := (Sample.namaste, 87400%Z)]>
            (∅ : gmap str (str * Z))).
Proof.
  destruct (request_writes_own_key Sample.upper Sample.world
              (Some (Sample.request Sample.hello)) Sample.fresh ∅ eq_refl)
    as (keys' & Hc & _ & Hw & _).
  rewrite Hc. f_equal.
  apply (Hw Sample.hello_key Sample.namaste).
  exists (Sample.request Sample.hello), Sample.hello,
    (Py.lit "en"), (Py.lit "hi"),
    (Some (Some (Py.lit "Helsinki-NLP/opus-mt-en-hi"))).
  split; [reflexivity|].
  split; [apply hello_validated; reflexivity|].
  split; [vm_compute; reflexivity|].
  split; [vm_compute; reflexivity|].
  split; [reflexivity|].
  split; [vm_compute; reflexivity | reflexivity].
Defined.
